(** * NYC flood-related 311 complaints: the spatial aggregation pipeline

    A shallow embedding of [scripts/data_processing.py], of the driver
    [scripts/run_analysis.py] and of the grid computation of
    [scripts/visualization.py].

    - Tables (pandas DataFrames) are lists of rows; the position of a row is
      its index label. A frame built from a dict of columns keeps the
      columns as lists of cells.
    - [float64] values are IEEE 754 binary64 numbers, computed with the
      reference operations of [SpecFloat] at precision 53 and maximal
      exponent 1024. [int64] columns are integers.
    - Functions that print, log, write files, draw random numbers or raise
      run in a state-and-exception monad over a [world]. A write replaces
      the content stored under a path; failing writes (missing directory,
      permissions) are not modelled.
    - The containment predicate used by [gpd.sjoin] is a parameter of the
      join. [ring_within] is the predicate of the geometry library for a
      point and the shell of a polygon: the ray-crossing count with exact
      orientation signs, a point on the boundary being outside.
    - The geometry library is modelled on finite coordinates. The join
      runs its tests through a spatial index over the points of the
      complaints, and a point with a NaN or infinite coordinate can hide
      other points from that index; what the predicate answers for a NaN
      or infinite coordinate depends on how the library's comparisons meet
      it. Neither is modelled: the statements about which complaints are
      matched are about tables of finite points, and those about
      [ring_within] about finite points and shells.
    - A table of complaints is a list of rows whose complaint type is a
      string. Missing types and a type column of a numeric dtype (which
      [read_csv] infers for a column of blanks, and which an empty table
      can have) are not represented.
    - The generator behind the [random] module is a parameter of the
      sample-data functions.
    - The pixel grid is a list of rows of floats; the bounds that the
      geometry library computes are parameters of the grid computation. *)

From Stdlib Require Import ZArith QArith Qpower List String Bool Lia Lqa QNsatz.
From Stdlib Require Import Floats.SpecFloat Ascii.
From stdpp Require Import gmap strings list pretty.

Local Open Scope Z_scope.

(** ** IEEE 754 binary64 *)

Module Binary64.

Definition prec : Z := 53.
Definition emax : Z := 1024.

Definition float64 := spec_float.

(** int64 -> float64 conversion (round to nearest even). *)
Definition of_int (z : Z) : float64 := binary_normalize prec emax z 0 false.

Definition div (x y : float64) : float64 := SFdiv prec emax x y.
Definition mul (x y : float64) : float64 := SFmul prec emax x y.
Definition add (x y : float64) : float64 := SFadd prec emax x y.
Definition sub (x y : float64) : float64 := SFsub prec emax x y.
Definition ltb (x y : float64) : bool := SFltb x y.

Definition leb (x y : float64) : bool := SFleb x y.

Definition is_nan (x : float64) : bool :=
  match x with S754_nan => true | _ => false end.

Definition is_zero (x : float64) : bool :=
  match x with S754_zero _ => true | _ => false end.

Definition is_finite (x : float64) : bool :=
  match x with S754_zero _ | S754_finite _ _ _ => true | _ => false end.

Definition pos_inf : float64 := S754_infinity false.
Definition nan : float64 := S754_nan.

(** The power [2 ^ e] of a possibly negative exponent. *)
Definition Qpow2 (e : Z) : Q := Qpower 2 e.

(** The rational value of a finite float; [None] for NaN and infinities. *)
Definition to_Q (x : float64) : option Q :=
  match x with
  | S754_zero _ => Some 0%Q
  | S754_finite s m e =>
      Some (Qmult (inject_Z (if s then Zneg m else Zpos m)) (Qpow2 e))
  | _ => None
  end.

End Binary64.

Import Binary64.

(** ** Planar geometry: the point-in-ring test *)

Record Point := mkPoint { pt_x : float64; pt_y : float64 }.

Inductive Geometry :=
| GeomNone
| Polygon (shell : list Point).

Definition QPoint := (Q * Q)%type.

Definition point_to_Q (p : Point) : option QPoint :=
  match to_Q (pt_x p), to_Q (pt_y p) with
  | Some x, Some y => Some (x, y)
  | _, _ => None
  end.

Fixpoint ring_to_Q (l : list Point) : option (list QPoint) :=
  match l with
  | [] => Some []
  | p :: l' =>
      match point_to_Q p, ring_to_Q l' with
      | Some q, Some r => Some (q :: r)
      | _, _ => None
      end
  end.

Definition Qltb (a b : Q) : bool := negb (Qle_bool b a).

(** Sign of the cross product (b - a) x (p - a): positive when [p] lies to
    the left of the directed line a -> b. *)
Definition orient (a b p : QPoint) : Q :=
  ((fst b - fst a) * (snd p - snd a) - (snd b - snd a) * (fst p - fst a))%Q.

Record RayCrossingCounter := mkCounter { crossing_count : nat; on_segment : bool }.

(** One segment [p1 -> p2] of the ring against the horizontal ray that
    leaves [p] towards increasing x: segments to the left are skipped, a
    vertex or a horizontal segment through [p] puts [p] on the boundary,
    and a segment that crosses the ray's height (upward segments include
    their start, downward ones their end) is counted when it passes to the
    right of [p]. *)
Definition count_segment (p p1 p2 : QPoint) (c : RayCrossingCounter) : RayCrossingCounter :=
  let hit := mkCounter (crossing_count c) true in
  if Qltb (fst p1) (fst p) && Qltb (fst p2) (fst p) then c
  else if Qeq_bool (fst p) (fst p2) && Qeq_bool (snd p) (snd p2) then hit
  else if Qeq_bool (snd p1) (snd p) && Qeq_bool (snd p2) (snd p) then
    let minx := if Qltb (fst p2) (fst p1) then fst p2 else fst p1 in
    let maxx := if Qltb (fst p2) (fst p1) then fst p1 else fst p2 in
    if Qle_bool minx (fst p) && Qle_bool (fst p) maxx then hit else c
  else if (Qltb (snd p) (snd p1) && Qle_bool (snd p2) (snd p))
          || (Qltb (snd p) (snd p2) && Qle_bool (snd p1) (snd p)) then
    let s := orient p1 p2 p in
    if Qeq_bool s 0 then hit
    else
      let s' := if Qltb (snd p2) (snd p1) then Qopp s else s in
      if Qltb 0 s' then mkCounter (S (crossing_count c)) (on_segment c) else c
  else c.

Fixpoint count_ring (p : QPoint) (ring : list QPoint) (c : RayCrossingCounter)
  : RayCrossingCounter :=
  match ring with
  | p1 :: ((p2 :: _) as rest) => count_ring p rest (count_segment p p1 p2 c)
  | _ => c
  end.

Definition QPoint_eqb (a b : QPoint) : bool :=
  Qeq_bool (fst a) (fst b) && Qeq_bool (snd a) (snd b).

(** A shell is stored closed: the first vertex is repeated at the end when
    the caller did not do so. *)
Definition close_ring (ring : list QPoint) : list QPoint :=
  match ring with
  | [] => []
  | p0 :: _ =>
      if QPoint_eqb p0 (List.last ring p0) then ring else ring ++ [p0]
  end.

Inductive Location := INTERIOR | BOUNDARY | EXTERIOR.

(** An odd number of crossings puts the point inside. *)
Definition locate_in_ring (p : QPoint) (ring : list QPoint) : Location :=
  let c := count_ring p (close_ring ring) (mkCounter 0 false) in
  if on_segment c then BOUNDARY
  else if Nat.odd (crossing_count c) then INTERIOR else EXTERIOR.

(** Point [within] polygon: the point lies in the interior of the shell.
    A missing geometry matches nothing. The count is the library's on
    finite coordinates; for a point or a shell with a NaN or infinite
    coordinate the library's answer is not modelled (it can match such a
    shell), and [ring_within] is [false] there only to be total. *)
Definition ring_within (p : Point) (g : Geometry) : bool :=
  match g with
  | GeomNone => false
  | Polygon shell =>
      match point_to_Q p, ring_to_Q shell with
      | Some q, Some r =>
          match locate_in_ring q r with INTERIOR => true | _ => false end
      | _, _ => false
      end
  end.

(** ** The interpreter state and the effect monad *)

Inductive exn :=
| ValueError (msg : string)
| ZeroDivisionError (msg : string)
| AttributeError (msg : string)
| IndexError (msg : string)
| FileNotFoundError (msg : string)
| SystemExit (code : Z).

(** [SystemExit] derives from [BaseException] only, the others from
    [Exception]. *)
Definition is_Exception (e : exn) : bool :=
  match e with SystemExit _ => false | _ => true end.

(** [str(e)] *)
Definition exn_str (e : exn) : string :=
  match e with
  | ValueError m | ZeroDivisionError m | AttributeError m
  | IndexError m | FileNotFoundError m => m
  | SystemExit c => pretty c
  end.

(** ** Untyped frames, as built from a dict of columns *)

Inductive cell :=
| CInt (z : Z)
| CFloat (x : float64)
| CStr (s : string)
| CDate (days : Z)
| CGeom (g : Geometry).

Inductive column_data :=
| Scalar (c : cell)
| ListLike (l : list cell).

Record DataFrame := mkFrame {
  frame_columns : list (string * list cell);
  frame_len : nat
}.

(** Rows of the complaints table. Only the columns read by the join are
    kept; the remaining columns are carried through unchanged. *)
Record Complaint := mkComplaint {
  Unique_Key : Z;
  Complaint_Type : string;
  Latitude : float64;
  Longitude : float64
}.

(** Rows of the census-tract table. *)
Record Tract := mkTract {
  GEOID : string;
  NAME : string;
  population : Z;
  geometry : Geometry
}.

(** A row of the left join: the complaint with its index label and point,
    and the matched tract with its index ([None]: every right-hand column
    is NaN). *)
Record JoinedRow := mkJoined {
  left_index : nat;
  left_row : Complaint;
  left_geometry : Point;
  right_match : option (nat * Tract)
}.

Definition row_GEOID (r : JoinedRow) : option string :=
  match right_match r with
  | Some (_, t) => Some (GEOID t)
  | None => None
  end.

(** A row of the aggregated table: the tract's columns, the count (a whole
    number, held as int64 or, after the NaN fill, as float64) and the rate. *)
Record AggregatedRow := mkAggregated {
  tract : Tract;
  complaint_count : nat;
  complaint_rate : float64
}.

Inductive message :=
| Text (s : string)
| UnmatchedReport (unmatched : nat) (percent : float64).

Inductive file_data :=
| CsvFile (df : DataFrame)
| GeoJSONFile (df : DataFrame)
| JoinedCsv (rows : list JoinedRow)
| AggregatedGeoJSON (rows : list AggregatedRow).

Inductive level := INFO | ERROR.

(** What a run can observe and change: the file system, the standard
    output, the log, and the state of the module-level random generator. *)
Record world := mkWorld {
  files : gmap string file_data;
  dirs : gset string;
  stdout : list message;
  log : list (level * string);
  rng : N
}.

Definition M (A : Type) : Type := world -> (exn + A) * world.

Definition ret {A} (a : A) : M A := fun w => (inr a, w).

Definition bind {A B} (m : M A) (k : A -> M B) : M B :=
  fun w =>
    match m w with
    | (inl e, w') => (inl e, w')
    | (inr a, w') => k a w'
    end.

Definition raise {A} (e : exn) : M A := fun w => (inl e, w).

Notation "'do' x <- c1 ; c2" := (bind c1 (fun x => c2))
  (at level 10, x name, c1 at level 100, c2 at level 200).
Notation "'run' c1 ; c2" := (bind c1 (fun _ => c2))
  (at level 10, c1 at level 100, c2 at level 200).

(** [try: body except Exception as e: handler e] *)
Definition try_except {A} (body : M A) (handler : exn -> M A) : M A :=
  fun w =>
    match body w with
    | (inl e, w') => if is_Exception e then handler e w' else (inl e, w')
    | (inr a, w') => (inr a, w')
    end.

Fixpoint replicateM {A} (n : nat) (m : M A) : M (list A) :=
  match n with
  | O => ret []
  | S k => do x <- m; do xs <- replicateM k m; ret (x :: xs)
  end.

Fixpoint mapM {A B} (f : A -> M B) (l : list A) : M (list B) :=
  match l with
  | [] => ret []
  | a :: l' => do b <- f a; do bs <- mapM f l'; ret (b :: bs)
  end.

Definition print (m : message) : M unit :=
  fun w => (inr tt, mkWorld (files w) (dirs w) (stdout w ++ [m]) (log w) (rng w)).

(** [to_csv] and [to_file]: the file at [path] now holds [d]. *)
Definition write_file (path : string) (d : file_data) : M unit :=
  fun w => (inr tt, mkWorld (<[path := d]> (files w)) (dirs w) (stdout w) (log w) (rng w)).

(** [os.makedirs(path, exist_ok=True)] *)
Definition makedirs (path : string) : M unit :=
  fun w => (inr tt, mkWorld (files w) ({[path]} ∪ dirs w) (stdout w) (log w) (rng w)).

(** [os.path.exists(path)] *)
Definition path_exists (path : string) : M bool :=
  fun w => (inr (bool_decide (is_Some (files w !! path))), w).

Definition logger_log (l : level) (msg : string) : M unit :=
  fun w => (inr tt, mkWorld (files w) (dirs w) (stdout w) (log w ++ [(l, msg)]) (rng w)).

Definition get_rng : M N := fun w => (inr (rng w), w).
Definition set_rng (s : N) : M unit :=
  fun w => (inr tt, mkWorld (files w) (dirs w) (stdout w) (log w) s).

(** Python's [a / b] on two ints. *)
Definition py_truediv (a b : Z) : M float64 :=
  if Z.eqb b 0 then raise (ZeroDivisionError "division by zero")
  else ret (div (of_int a) (of_int b)).

(** ** data_processing.py: constants *)

(** [os.path.join(a, b)] for a relative [b]. *)
Definition path_join (a b : string) : string := a +:+ "/" +:+ b.

Definition DATA_DIR : string := "../data".
Definition RAW_DATA_DIR : string := path_join DATA_DIR "raw".
Definition PROCESSED_DATA_DIR : string := path_join DATA_DIR "processed".

(** ** data_processing.py: the join and the aggregation *)

Section Join.

(** The containment predicate of the geometry library. *)
Variable within : Point -> Geometry -> bool.

(** [gpd.points_from_xy(df.Longitude, df.Latitude)] *)
Definition points_from_xy (c : Complaint) : Point :=
  mkPoint (Longitude c) (Latitude c).

Fixpoint enumerate_from {A} (i : nat) (l : list A) : list (nat * A) :=
  match l with
  | [] => []
  | a :: l' => (i, a) :: enumerate_from (S i) l'
  end.

(** The tracts, with their index, whose geometry contains the point. *)
Definition matching_tracts (p : Point) (census_gdf : list Tract) : list (nat * Tract) :=
  List.filter (fun it => within p (geometry (snd it))) (enumerate_from 0 census_gdf).

(** The rows of the left join contributed by one complaint: one row per
    matching tract, or a single row with NaN on the right. *)
Definition sjoin_rows (ic : nat * Complaint) (census_gdf : list Tract) : list JoinedRow :=
  let p := points_from_xy (snd ic) in
  match matching_tracts p census_gdf with
  | [] => [mkJoined (fst ic) (snd ic) p None]
  | ms => List.map (fun m => mkJoined (fst ic) (snd ic) p (Some m)) ms
  end.

(** [gpd.sjoin(complaints_gdf, census_gdf, how="left", predicate="within")]:
    every complaint against every tract. The library finds the pairs
    through a spatial index over the points of the complaints, which gives
    these pairs when all the points are finite; a point with a NaN or
    infinite coordinate can make it miss pairs of other points, which is
    not modelled. *)
Definition sjoin_left_within (complaints_df : list Complaint) (census_gdf : list Tract)
  : list JoinedRow :=
  List.flat_map (fun ic => sjoin_rows ic census_gdf) (enumerate_from 0 complaints_df).

Definition isna {A} (o : option A) : bool :=
  match o with None => true | Some _ => false end.

(** [joined_gdf[joined_gdf['GEOID'].isna()]] *)
Definition unmatched_rows (joined_gdf : list JoinedRow) : list JoinedRow :=
  List.filter (fun r => isna (row_GEOID r)) joined_gdf.

(** [joined_gdf.dropna(subset=['GEOID'])] *)
Definition dropna_GEOID (joined_gdf : list JoinedRow) : list JoinedRow :=
  List.filter (fun r => negb (isna (row_GEOID r))) joined_gdf.

Definition joined_path : string :=
  path_join PROCESSED_DATA_DIR "flood_complaints_with_census_2019.csv".

Definition spatial_join_with_census (complaints_df : list Complaint) (census_gdf : list Tract)
  : M (list JoinedRow) :=
  run print (Text "Performing spatial join with census tracts...");
  let joined_gdf := sjoin_left_within complaints_df census_gdf in
  let unmatched := unmatched_rows joined_gdf in
  do frac <- py_truediv (Z.of_nat (length unmatched)) (Z.of_nat (length complaints_df));
  run print (UnmatchedReport (length unmatched) (mul frac (of_int 100)));
  let joined_gdf := dropna_GEOID joined_gdf in
  run write_file joined_path (JoinedCsv joined_gdf);
  ret joined_gdf.

End Join.

(** [joined_df.groupby('GEOID').size()]: the number of rows per key; rows
    with a NaN key belong to no group. *)
Definition groupby_GEOID_size (joined_df : list JoinedRow) : gmap string nat :=
  foldr (fun r m =>
           match row_GEOID r with
           | Some g => <[g := S (default 0%nat (m !! g))]> m
           | None => m
           end) ∅ joined_df.

(** [census_gdf.merge(complaint_counts, on='GEOID', how='left')]: every
    tract once, in order; [None] is the NaN of a tract without a group. *)
Definition merge_left_on_GEOID (census_gdf : list Tract) (complaint_counts : gmap string nat)
  : list (Tract * option nat) :=
  List.map (fun t => (t, complaint_counts !! GEOID t)) census_gdf.

(** [.fillna(0)] *)
Definition fillna0 (o : option nat) : nat := default 0%nat o.

(** [(complaint_count / population) * 1000] on float64 *)
Definition rate_per_1000 (count : nat) (pop : Z) : float64 :=
  mul (div (of_int (Z.of_nat count)) (of_int pop)) (of_int 1000).

Definition aggregated_path : string :=
  path_join PROCESSED_DATA_DIR "aggregated_flood_complaints_2019.geojson".

Definition aggregate_rows (joined_df : list JoinedRow) (census_gdf : list Tract)
  : list AggregatedRow :=
  let complaint_counts := groupby_GEOID_size joined_df in
  let merged := merge_left_on_GEOID census_gdf complaint_counts in
  List.map (fun tc =>
              let n := fillna0 (snd tc) in
              mkAggregated (fst tc) n (rate_per_1000 n (population (fst tc))))
           merged.

Definition aggregate_by_census_tract (joined_df : list JoinedRow) (census_gdf : list Tract)
  : M (list AggregatedRow) :=
  run print (Text "Aggregating complaints by census tract...");
  let aggregated_gdf := aggregate_rows joined_df census_gdf in
  run write_file aggregated_path (AggregatedGeoJSON aggregated_gdf);
  ret aggregated_gdf.

(** The last two steps of the script's main block. *)
Definition join_and_aggregate (within : Point -> Geometry -> bool)
    (complaints_df : list Complaint) (census_gdf : list Tract) : M (list AggregatedRow) :=
  do joined_df <- spatial_join_with_census within complaints_df census_gdf;
  aggregate_by_census_tract joined_df census_gdf.

(** ** pandas and geopandas: building and reading frames *)

Definition listlike_lengths (data : list (string * column_data)) : list nat :=
  List.flat_map (fun kv =>
                   match snd kv with
                   | ListLike l => [length l]
                   | Scalar _ => []
                   end) data.

Definition broadcast (n : nat) (c : column_data) : list cell :=
  match c with
  | Scalar v => List.repeat v n
  | ListLike l => l
  end.

(** [pd.DataFrame(data)] and [gpd.GeoDataFrame(data, crs=...)] on a dict:
    scalars are broadcast, all list-like columns must have one length. *)
Definition pd_DataFrame (data : list (string * column_data)) : M DataFrame :=
  match listlike_lengths data with
  | [] => raise (ValueError "If using all scalar values, you must pass an index")
  | n :: ns =>
      if forallb (Nat.eqb n) ns
      then ret (mkFrame (List.map (fun kv => (fst kv, broadcast n (snd kv))) data) n)
      else raise (ValueError "All arrays must be of the same length")
  end.

(** [pd.read_csv(path)] *)
Definition pd_read_csv (path : string) : M DataFrame :=
  fun w =>
    match files w !! path with
    | Some (CsvFile df) => (inr df, w)
    | Some _ => (inl (ValueError "Error tokenizing data"), w)
    | None => (inl (FileNotFoundError path), w)
    end.

(** [gpd.read_file(path)] *)
Definition gpd_read_file (path : string) : M DataFrame :=
  fun w =>
    match files w !! path with
    | Some (GeoJSONFile df) => (inr df, w)
    | Some _ => (inl (ValueError "Failed to read GeoJSON data"), w)
    | None => (inl (FileNotFoundError path), w)
    end.

(** A decimal literal [n / d] with [d] a power of ten: the binary64 nearest
    to the quotient. *)
Definition dec (n d : Z) : float64 := div (of_int n) (of_int d).

(** [s.zfill(width)] *)
Definition zfill (width : nat) (s : string) : string :=
  String.concat "" (List.repeat "0"%string (width - String.length s)) +:+ s.

(** ** data_processing.py: the sample data and the cache *)

Section Sample.

(** The generator behind the [random] module: its state is a number, and
    each call maps a state to a value and the next state. *)
Variable seed_state : Z -> N.
Variable next_random : N -> float64 * N.
Variable next_randint : Z -> Z -> N -> Z * N.
Variable next_uniform : float64 -> float64 -> N -> float64 * N.
Variable next_randbelow : nat -> N -> nat * N.

Definition draw {A} (f : N -> A * N) : M A :=
  do s <- get_rng;
  run set_rng (snd (f s));
  ret (fst (f s)).

Definition random_seed (a : Z) : M unit := set_rng (seed_state a).
Definition random_random : M float64 := draw next_random.
Definition random_randint (a b : Z) : M Z := draw (next_randint a b).
Definition random_uniform (a b : float64) : M float64 := draw (next_uniform a b).

(** [random.choice(seq)] is [seq[_randbelow(len(seq))]]. *)
Definition random_choice {A} (seq : list A) : M A :=
  do i <- draw (next_randbelow (length seq));
  match nth_error seq i with
  | Some x => ret x
  | None => raise (IndexError "list index out of range")
  end.

Definition ensure_dirs : M unit :=
  run makedirs RAW_DATA_DIR;
  makedirs PROCESSED_DATA_DIR.

Definition n_complaints : nat := Z.to_nat 100000.

Definition flood_complaint_types : list string :=
  ["Sewer Backup"; "Clogged Catch Basin"; "Flooding"; "Street Flooding";
   "Water System"; "Basement Flooding"; "Standing Water"; "Plumbing";
   "Water Leak"; "Water Conservation"; "Water Quality"]%string.

Definition other_complaint_types : list string :=
  ["Noise"; "Illegal Parking"; "Blocked Driveway"; "Dirty Conditions";
   "Rodent"; "Damaged Tree"; "Building/Use"; "Street Condition";
   "Graffiti"; "Derelict Vehicle"; "Traffic Signal Condition"]%string.

Definition statuses : list string :=
  ["Open"; "Closed"; "Pending"; "In Progress"]%string.

Definition streets : list string :=
  ["Main St"; "Broadway"; "Park Ave"; "Lexington Ave"; "Madison Ave";
   "5th Ave"; "7th Ave"; "Canal St"; "Houston St"; "Delancey St"]%string.

Definition boroughs_upper : list string :=
  ["MANHATTAN"; "BROOKLYN"; "QUEENS"; "BRONX"; "STATEN ISLAND"]%string.

(** Dates are counted in days since 1970-01-01. *)
Definition date_2019_01_01 : Z := 17897.
Definition date_2019_12_31 : Z := 18261.

Definition create_sample_311_data : M DataFrame :=
  run random_seed 42;
  let min_lat := dec 405 10 in
  let max_lat := dec 409 10 in
  let min_lon := dec (-7425) 100 in
  let max_lon := dec (-737) 10 in
  let start_date := date_2019_01_01 in
  let end_date := date_2019_12_31 in
  let days := end_date - start_date in
  do random_dates <-
    replicateM n_complaints (do k <- random_randint 0 days; ret (start_date + k));
  do complaint_types <-
    replicateM n_complaints
      (do x <- random_random;
       if ltb x (dec 25 100)
       then random_choice flood_complaint_types
       else random_choice other_complaint_types);
  do random_statuses <- replicateM n_complaints (random_choice statuses);
  do random_lats <- replicateM n_complaints (random_uniform min_lat max_lat);
  do random_lons <- replicateM n_complaints (random_uniform min_lon max_lon);
  do random_addresses <-
    replicateM n_complaints
      (do k <- random_randint 1 9999;
       do st <- random_choice streets;
       ret (pretty k +:+ " " +:+ st));
  do zip_codes <-
    replicateM n_complaints (do k <- random_randint 10001 11697; ret (pretty k));
  do closed_dates <-
    mapM (fun date => do k <- random_randint 0 30; ret (date + k)) random_dates;
  do boroughs <- replicateM n_complaints (random_choice boroughs_upper);
  pd_DataFrame
    [("Unique Key", ListLike (List.map (fun i => CInt (Z.of_nat i)) (List.seq 1 n_complaints)));
     ("Created Date", ListLike (List.map CDate random_dates));
     ("Closed Date", ListLike (List.map CDate closed_dates));
     ("Agency", Scalar (CStr "DEP"));
     ("Complaint Type", ListLike (List.map CStr complaint_types));
     ("Descriptor", ListLike (List.repeat (CStr "") n_complaints));
     ("Location Type",
       ListLike [CStr "Street"; CStr "Residential Building"; CStr "Commercial Building"]);
     ("Incident Zip", ListLike (List.map CStr zip_codes));
     ("Incident Address", ListLike (List.map CStr random_addresses));
     ("Status", ListLike (List.map CStr random_statuses));
     ("Borough", ListLike (List.map CStr boroughs));
     ("Latitude", ListLike (List.map CFloat random_lats));
     ("Longitude", ListLike (List.map CFloat random_lons))]%string.

Definition n_tracts : nat := 300.

Definition create_sample_census_data : M DataFrame :=
  run random_seed 42;
  let min_lat := dec 405 10 in
  let max_lat := dec 409 10 in
  let min_lon := dec (-7425) 100 in
  let max_lon := dec (-737) 10 in
  do geometries <-
    replicateM n_tracts
      (do center_lat <- random_uniform min_lat max_lat;
       do center_lon <- random_uniform min_lon max_lon;
       do size <- random_uniform (dec 5 1000) (dec 15 1000);
       ret (Polygon
              [mkPoint (sub center_lon size) (sub center_lat size);
               mkPoint (add center_lon size) (sub center_lat size);
               mkPoint (add center_lon size) (add center_lat size);
               mkPoint (sub center_lon size) (add center_lat size);
               mkPoint (sub center_lon size) (sub center_lat size)]));
  do tract_ids <-
    replicateM n_tracts
      (do k <- random_randint 100000 999999; ret ("36061" +:+ pretty k));
  do tract_nums <-
    replicateM n_tracts (do k <- random_randint 1 999; ret (zfill 6 (pretty k)));
  do county_fips <-
    replicateM n_tracts (random_choice ["061"; "005"; "047"; "081"; "085"]%string);
  do names <-
    replicateM n_tracts
      (do k <- random_randint 1 999; ret ("Census Tract " +:+ pretty k));
  do boroughs <-
    replicateM n_tracts
      (random_choice ["Manhattan"; "Brooklyn"; "Queens"; "Bronx"; "Staten Island"]%string);
  do median_incomes <- replicateM n_tracts (random_randint 30000 200000);
  do populations <- replicateM n_tracts (random_randint 1000 10000);
  do pct_college <- replicateM n_tracts (random_uniform (dec 1 10) (dec 9 10));
  do pct_poverty <- replicateM n_tracts (random_uniform (dec 5 100) (dec 4 10));
  do pct_owner_occupied <- replicateM n_tracts (random_uniform (dec 1 10) (dec 8 10));
  do pct_minority <- replicateM n_tracts (random_uniform (dec 1 10) (dec 9 10));
  pd_DataFrame
    [("GEOID", ListLike (List.map CStr tract_ids));
     ("TRACTCE", ListLike (List.map CStr tract_nums));
     ("COUNTYFP", ListLike (List.map CStr county_fips));
     ("NAME", ListLike (List.map CStr names));
     ("Borough", ListLike (List.map CStr boroughs));
     ("median_income", ListLike (List.map CInt median_incomes));
     ("population", ListLike (List.map CInt populations));
     ("pct_college", ListLike (List.map CFloat pct_college));
     ("pct_poverty", ListLike (List.map CFloat pct_poverty));
     ("pct_owner_occupied", ListLike (List.map CFloat pct_owner_occupied));
     ("pct_minority", ListLike (List.map CFloat pct_minority));
     ("geometry", ListLike (List.map CGeom geometries))]%string.

Definition nyc_311_path : string := path_join RAW_DATA_DIR "nyc_311_2019.csv".
Definition census_path : string := path_join RAW_DATA_DIR "nyc_census_tracts.geojson".

Definition download_and_prepare_data : M (DataFrame * DataFrame) :=
  run ensure_dirs;
  run print (Text "Downloading NYC 311 data for 2019...");
  do cached <- path_exists nyc_311_path;
  do complaints_df <-
    (if cached : bool then
       run print (Text ("Loading cached data from " +:+ nyc_311_path));
       pd_read_csv nyc_311_path
     else
       do df <- create_sample_311_data;
       run write_file nyc_311_path (CsvFile df);
       ret df);
  run print (Text "Downloading NYC census tract shapefiles...");
  do cached <- path_exists census_path;
  do census_gdf <-
    (if cached : bool then
       run print (Text ("Loading cached data from " +:+ census_path));
       gpd_read_file census_path
     else
       run print (Text "Note: In a real implementation, this would download the actual census tract data.");
       run print (Text "For demonstration purposes, we're creating a simplified dataset.");
       do gdf <- create_sample_census_data;
       run write_file census_path (GeoJSONFile gdf);
       run print (Text ("Saved census tracts to " +:+ census_path));
       ret gdf);
  ret (complaints_df, census_gdf).

End Sample.

(** ** run_analysis.py *)

(** The names bound in the namespace of the module [data_processing] once
    it is imported. *)
Definition data_processing_names : list string :=
  ["__name__"; "__doc__"; "__package__"; "__loader__"; "__spec__"; "__file__";
   "__cached__"; "__builtins__";
   "pd"; "np"; "gpd"; "os"; "Point"; "Polygon"; "random";
   "DATA_DIR"; "RAW_DATA_DIR"; "PROCESSED_DATA_DIR";
   "ensure_dirs"; "download_and_prepare_data"; "create_sample_311_data";
   "create_sample_census_data"; "filter_flood_complaints";
   "spatial_join_with_census"; "aggregate_by_census_tract"]%string.

(** [module.attr] on a module without [__getattr__]. *)
Definition module_getattr (modname : string) (names : list string) (attr : string)
  : M string :=
  if bool_decide (attr ∈ names) then ret attr
  else raise (AttributeError
                ("module '" +:+ modname +:+ "' has no attribute '" +:+ attr +:+ "'")).

Record Namespace := mkNamespace {
  year : Z;
  sample : bool;
  sample_size : Z;
  skip_processing : bool;
  skip_visualization : bool;
  skip_analysis : bool;
  resolution : Z
}.

Definition bool_repr (b : bool) : string := if b then "True" else "False".

Definition Namespace_repr (a : Namespace) : string :=
  "Namespace(year=" +:+ pretty (year a)
  +:+ ", sample=" +:+ bool_repr (sample a)
  +:+ ", sample_size=" +:+ pretty (sample_size a)
  +:+ ", skip_processing=" +:+ bool_repr (skip_processing a)
  +:+ ", skip_visualization=" +:+ bool_repr (skip_visualization a)
  +:+ ", skip_analysis=" +:+ bool_repr (skip_analysis a)
  +:+ ", resolution=" +:+ pretty (resolution a) +:+ ")".

Section RunAnalysis.

(** Python values (frames, results) handled by the driver. *)
Variable pyobj : Type.

(** [parse_arguments()]: reads [sys.argv]; may raise [SystemExit]. *)
Variable parse_arguments : M Namespace.

(** The directory two levels above the script. *)
Variable base_dir : string.

(** Calling a member of [data_processing] that was found by name. *)
Variable call_process_data : string -> M (pyobj * pyobj * pyobj).
Variable call_download : string -> Namespace -> M pyobj.

(** The other modules' entry points. *)
Variable load_data : M pyobj.
Variable visualize_data : pyobj -> pyobj -> M unit.
Variable run_analysis : M pyobj.

(** [setup_logging()]: creates the log directory; the records of both
    handlers are collected in [log]. *)
Definition setup_logging : M unit :=
  makedirs (path_join base_dir "logs").

(** Step 1; [None] stands for the [return] in the handlers. *)
Definition data_processing_step (args : Namespace) : M (option (pyobj * pyobj * pyobj)) :=
  if negb (skip_processing args) then
    run logger_log INFO "Step 1: Processing data";
    try_except
      (do f <- module_getattr "data_processing" data_processing_names "process_data";
       do r <- call_process_data f;
       run logger_log INFO "Data processing completed successfully";
       ret (Some r))
      (fun e =>
         run logger_log ERROR ("Error in data processing: " +:+ exn_str e);
         ret None)
  else
    run logger_log INFO "Skipping data processing, loading processed data";
    try_except
      (do f <- module_getattr "data_processing" data_processing_names "download_nyc_311_data";
       do flood_complaints_df <- call_download f args;
       do g <- module_getattr "data_processing" data_processing_names "download_census_tracts";
       do census_gdf <- call_download g args;
       do aggregated_gdf <- load_data;
       run logger_log INFO "Processed data loaded successfully";
       ret (Some (flood_complaints_df, census_gdf, aggregated_gdf)))
      (fun e =>
         run logger_log ERROR ("Error loading processed data: " +:+ exn_str e);
         ret None).

Definition visualization_step (args : Namespace) (flood_complaints_df aggregated_gdf : pyobj)
  : M unit :=
  if negb (skip_visualization args) then
    run logger_log INFO "Step 2: Creating visualizations";
    try_except
      (run visualize_data flood_complaints_df aggregated_gdf;
       logger_log INFO "Visualizations created successfully")
      (fun e => logger_log ERROR ("Error in visualization: " +:+ exn_str e))
  else ret tt.

Definition analysis_step (args : Namespace) : M unit :=
  if negb (skip_analysis args) then
    run logger_log INFO "Step 3: Running socioeconomic analysis";
    try_except
      (do results <- run_analysis;
       logger_log INFO "Socioeconomic analysis completed successfully")
      (fun e => logger_log ERROR ("Error in socioeconomic analysis: " +:+ exn_str e))
  else ret tt.

Definition main : M unit :=
  do args <- parse_arguments;
  run setup_logging;
  run logger_log INFO "Starting NYC flood-related 311 complaints analysis";
  run logger_log INFO ("Arguments: " +:+ Namespace_repr args);
  run makedirs (path_join base_dir "data");
  run makedirs (path_join base_dir "figures");
  run makedirs (path_join base_dir "results");
  do step1 <- data_processing_step args;
  match step1 with
  | None => ret tt
  | Some (flood_complaints_df, census_gdf, aggregated_gdf) =>
      run visualization_step args flood_complaints_df aggregated_gdf;
      run analysis_step args;
      logger_log INFO "Analysis pipeline completed"
  end.

End RunAnalysis.

(** ** data_processing.py: the keyword filter *)

(** Text is the sequence of its code points, which the 8-bit characters of
    [string] restrict to Latin-1. On that range [str.lower()] moves A-Z and
    the accented capitals (192-222 without the multiplication sign) 32
    places up and leaves every other character alone. *)
Definition chr_lower (c : Ascii.ascii) : Ascii.ascii :=
  let n := Ascii.N_of_ascii c in
  if ((65 <=? n) && (n <=? 90) || (192 <=? n) && (n <=? 222) && negb (n =? 215))%N
  then Ascii.ascii_of_N (n + 32)
  else c.

Fixpoint str_lower (s : string) : string :=
  match s with
  | EmptyString => EmptyString
  | String c s' => String (chr_lower c) (str_lower s')
  end.

(** ['|'.join(words)] *)
Definition join_bar (words : list string) : string := String.concat "|" words.

(** The branches of a regular expression that is an alternation of literal
    words: the pattern cut at every bar. *)
Fixpoint alternatives (pat : string) : list string :=
  match pat with
  | EmptyString => [EmptyString]
  | String c pat' =>
      if Ascii.eqb c "|"%char then EmptyString :: alternatives pat'
      else match alternatives pat' with
           | [] => [String c EmptyString]
           | alt :: alts => String c alt :: alts
           end
  end.

(** [needle in hay] *)
Fixpoint is_substring (needle hay : string) : bool :=
  if String.prefix needle hay then true
  else match hay with
       | EmptyString => false
       | String _ hay' => is_substring needle hay'
       end.

(** [Series.str.contains(pat, na=False)] on one string, for a pattern whose
    only special character is the bar: the search succeeds when one of the
    branches occurs in the string. *)
Definition str_contains (pat s : string) : bool :=
  existsb (fun alt => is_substring alt s) (alternatives pat).

Definition flood_keywords : list string :=
  ["flood"; "water"; "sewer"; "drain"; "basin"; "wet"; "leak"; "plumb"]%string.

Definition flood_pattern : string := join_bar flood_keywords.

Definition flood_complaints_path : string :=
  path_join PROCESSED_DATA_DIR "flood_complaints_2019.csv".

(** The columns of the complaints table that the rows keep. *)
Definition frame_of_complaints (df : list Complaint) : DataFrame :=
  mkFrame
    [("Unique Key", List.map (fun c => CInt (Unique_Key c)) df);
     ("Complaint Type", List.map (fun c => CStr (Complaint_Type c)) df);
     ("Latitude", List.map (fun c => CFloat (Latitude c)) df);
     ("Longitude", List.map (fun c => CFloat (Longitude c)) df)]%string
    (length df).

(** The boolean mask of [filter_flood_complaints]. *)
Definition flood_mask (c : Complaint) : bool :=
  str_contains flood_pattern (str_lower (Complaint_Type c)).

(** The filter on a table whose complaint types are strings. On such a
    table [.str] is defined and [na=False] has nothing to replace. A
    numeric type column, on which [.str] raises [AttributeError], cannot
    be told from the rows of an empty table; it is not represented, and
    the statements about what the filter returns are about tables with at
    least one row. *)
Definition filter_flood_complaints (complaints_df : list Complaint) : M (list Complaint) :=
  run print (Text "Filtering for flood-related complaints...");
  let flood_complaints := List.filter flood_mask complaints_df in
  run print (Text ("Found " +:+ pretty (length flood_complaints)
                   +:+ " flood-related complaints out of "
                   +:+ pretty (length complaints_df) +:+ " total complaints"));
  run write_file flood_complaints_path (CsvFile (frame_of_complaints flood_complaints));
  ret flood_complaints.

(** The last three steps of the script's main block. The join numbers the
    rows of the filtered table anew; the tables it writes carry no index
    and the aggregation reads none. *)
Definition filter_join_aggregate (within : Point -> Geometry -> bool)
    (complaints_df : list Complaint) (census_gdf : list Tract) : M (list AggregatedRow) :=
  do flood_complaints_df <- filter_flood_complaints complaints_df;
  do joined_df <- spatial_join_with_census within flood_complaints_df census_gdf;
  aggregate_by_census_tract joined_df census_gdf.

(** ** visualization.py: the pixel grid *)

(** What the computation of the grid can raise. *)
Inductive pixel_error :=
| NanToInt            (* ValueError: cannot convert float NaN to integer *)
| InfToInt            (* OverflowError: cannot convert float infinity to integer *)
| NegativeDimensions  (* ValueError: negative dimensions are not allowed *)
| IndexOutOfBounds.   (* IndexError: index is out of bounds for axis *)

Definition ebind {A B} (m : pixel_error + A) (k : A -> pixel_error + B) : pixel_error + B :=
  match m with
  | inl e => inl e
  | inr a => k a
  end.

Notation "'let*' x := c1 'in' c2" := (ebind c1 (fun x => c2))
  (at level 10, x name, c1 at level 100, c2 at level 200).

Fixpoint foldM {A B} (f : B -> A -> pixel_error + B) (l : list A) (b : B)
  : pixel_error + B :=
  match l with
  | [] => inr b
  | a :: l' => let* b' := f b a in foldM f l' b'
  end.

(** [int(x)] on a float: truncation towards zero. *)
Definition int_of_float (x : float64) : pixel_error + Z :=
  match x with
  | S754_zero _ => inr 0
  | S754_finite s m e =>
      let a := if 0 <=? e then Zpos m * 2 ^ e else Zpos m / 2 ^ (- e) in
      inr (if s then - a else a)
  | S754_infinity _ => inl InfToInt
  | S754_nan => inl NanToInt
  end.

(** The builtin [max(a, b)]: [b] when [b > a], else [a]. *)
Definition py_max (a b : float64) : float64 := if ltb a b then b else a.

(** [range(lo, hi)] *)
Definition py_range (lo hi : Z) : list Z :=
  List.map (fun k => lo + Z.of_nat k) (List.seq 0 (Z.to_nat (hi - lo))).

(** A two-dimensional array, row by row. *)
Abbreviation grid := (list (list float64)).

(** [np.zeros((n, n))] *)
Definition np_zeros (n : Z) : pixel_error + grid :=
  if n <? 0 then inl NegativeDimensions
  else inr (List.repeat (List.repeat (S754_zero false) (Z.to_nat n)) (Z.to_nat n)).

(** The position an index denotes on an axis of length [n]: negative
    indices count from the end. *)
Definition np_index (n : nat) (i : Z) : option nat :=
  if (0 <=? i) && (i <? Z.of_nat n) then Some (Z.to_nat i)
  else if (- Z.of_nat n <=? i) && (i <? 0) then Some (Z.to_nat (i + Z.of_nat n))
  else None.

(** [grid[row, col]] *)
Definition grid_get (g : grid) (row col : Z) : pixel_error + float64 :=
  match np_index (length g) row with
  | None => inl IndexOutOfBounds
  | Some r =>
      match g !! r with
      | None => inl IndexOutOfBounds
      | Some line =>
          match np_index (length line) col with
          | None => inl IndexOutOfBounds
          | Some c =>
              match line !! c with
              | None => inl IndexOutOfBounds
              | Some v => inr v
              end
          end
      end
  end.

(** [grid[row, col] = v] *)
Definition grid_set (g : grid) (row col : Z) (v : float64) : pixel_error + grid :=
  match np_index (length g) row with
  | None => inl IndexOutOfBounds
  | Some r =>
      match g !! r with
      | None => inl IndexOutOfBounds
      | Some line =>
          match np_index (length line) col with
          | None => inl IndexOutOfBounds
          | Some c => inr (<[r := <[c := v]> line]> g)
          end
      end
  end.

(** (minx, miny, maxx, maxy) *)
Definition Bounds := (float64 * float64 * float64 * float64)%type.

Section PixelMap.

(** The geometry library: [geometry.bounds] of the shell of a polygon and
    [gdf.total_bounds] of a geometry column. *)
Variable bounds : list Point -> Bounds.
Variable total_bounds : list Geometry -> Bounds.

(** The numeric column [column] of a row, read as a float. *)
Variable column : AggregatedRow -> float64.

(** The cells a polygon with the bounds [b] might intersect:
    (min_col, max_col, min_row, max_row). *)
Definition cell_span (minx miny cell_width cell_height : float64) (resolution : Z)
    (b : Bounds) : pixel_error + (Z * Z * Z * Z) :=
  let '(p_minx, p_miny, p_maxx, p_maxy) := b in
  let* c0 := int_of_float (div (sub p_minx minx) cell_width) in
  let min_col := Z.max 0 c0 in
  let* c1 := int_of_float (div (sub p_maxx minx) cell_width) in
  let max_col := Z.min (resolution - 1) c1 in
  let* r0 := int_of_float (div (sub p_miny miny) cell_height) in
  let min_row := Z.max 0 r0 in
  let* r1 := int_of_float (div (sub p_maxy miny) cell_height) in
  let max_row := Z.min (resolution - 1) r1 in
  inr (min_col, max_col, min_row, max_row).

(** [grid[row, col] = max(grid[row, col], v)] *)
Definition raise_cell (v : float64) (col : Z) (g : grid) (row : Z) : pixel_error + grid :=
  let* old := grid_get g row col in
  grid_set g row col (py_max old v).

(** The two loops over the cells of one polygon. *)
Definition raise_cells (span : Z * Z * Z * Z) (v : float64) (g : grid) : pixel_error + grid :=
  let '(min_col, max_col, min_row, max_row) := span in
  foldM (fun g col => foldM (raise_cell v col) (py_range min_row (max_row + 1)) g)
    (py_range min_col (max_col + 1)) g.

(** The grid that [create_simplified_pixel_map] hands to [imshow]; the
    message it prints and the figure it saves are left out. *)
Definition create_simplified_pixel_map (gdf : list AggregatedRow) (resolution : Z)
  : pixel_error + grid :=
  let '(minx, miny, maxx, maxy) := total_bounds (List.map (fun a => geometry (tract a)) gdf) in
  let cell_width := div (sub maxx minx) (of_int resolution) in
  let cell_height := div (sub maxy miny) (of_int resolution) in
  let* grid0 := np_zeros resolution in
  foldM (fun g row_data =>
           match geometry (tract row_data) with
           | GeomNone => inr g
           | Polygon shell =>
               let* span := cell_span minx miny cell_width cell_height resolution (bounds shell) in
               raise_cells span (column row_data) g
           end)
    gdf grid0.

End PixelMap.

(** The resolution [visualize_data] leaves to the default. *)
Definition default_resolution : Z := 50.

(** ** Vocabulary of the properties *)

Definition has_GEOID (g : string) (r : JoinedRow) : bool :=
  bool_decide (row_GEOID r = Some g).

(** Number of joined rows paired with the tract id [g]. *)
Definition count_rows (g : string) (joined : list JoinedRow) : nat :=
  length (List.filter (has_GEOID g) joined).

(** Number of joined rows that stem from the complaint with index [i] and
    are paired with the tract id [g]: what that complaint adds to the
    [complaint_count] of [g]. *)
Definition counted_in (joined : list JoinedRow) (i : nat) (g : string) : nat :=
  length (List.filter (fun r => Nat.eqb (left_index r) i && has_GEOID g r) joined).

Definition total_count (agg : list AggregatedRow) : nat :=
  sum_list (List.map complaint_count agg).

(** The aggregated rows in whose [complaint_count] complaint [i] is counted. *)
Definition regions_counting (joined : list JoinedRow) (agg : list AggregatedRow) (i : nat)
  : list AggregatedRow :=
  List.filter (fun a => Nat.ltb 0 (counted_in joined i (GEOID (tract a)))) agg.

(** *** Outcomes of a computation *)

(** [m] returns in every world, with a value satisfying [P]. *)
Definition succeeds {A} (P : A -> Prop) (m : M A) : Prop :=
  forall w, exists a w', m w = (inr a, w') /\ P a.

(** [m] raises in every world, an exception satisfying [Q]. *)
Definition fails {A} (Q : exn -> Prop) (m : M A) : Prop :=
  forall w, exists e w', m w = (inl e, w') /\ Q e.

Definition indicator (b : bool) : nat := if b then 1%nat else 0%nat.

(** Matches that carry the tract id [g]. *)
Definition count_matches (g : string) (ms : list (nat * Tract)) : nat :=
  length (List.filter (fun m => bool_decide (GEOID (snd m) = g)) ms).

(** The scenario data. *)
Definition unit_square : Geometry :=
  Polygon [mkPoint (of_int 0) (of_int 0); mkPoint (of_int 1) (of_int 0);
           mkPoint (of_int 1) (of_int 1); mkPoint (of_int 0) (of_int 1)].

Definition complaint_at (key : Z) (x y : float64) : Complaint :=
  mkComplaint key "Street Flooding" y x.

Definition empty_world : world := mkWorld ∅ ∅ [] [] 0.

(** The unmatched count of the last report printed by the join. *)
Definition last_unmatched_report (out : list message) : option nat :=
  fold_left (fun acc m =>
               match m with
               | UnmatchedReport n _ => Some n
               | _ => acc
               end) out None.

(** One tract of 2000 people on the unit square; complaints at (0.2, 0.2),
    (0.5, 0.5) and (2.0, 2.0). *)
Definition scenario_tract : Tract := mkTract "36061000100" "Census Tract 1" 2000 unit_square.

Definition scenario_complaints : list Complaint :=
  [complaint_at 1 (dec 2 10) (dec 2 10);
   complaint_at 2 (dec 5 10) (dec 5 10);
   complaint_at 3 (dec 20 10) (dec 20 10)].

(** Two tracts with distinct ids and the same boundary, and one complaint
    inside both. *)
Definition overlapping_census : list Tract :=
  [mkTract "36061000100" "Census Tract 1" 2000 unit_square;
   mkTract "36061000200" "Census Tract 2" 3000 unit_square].

Definition overlap_complaints : list Complaint :=
  [complaint_at 1 (dec 5 10) (dec 5 10)].

(** A file system in which both raw files are cached. *)
Definition cached_frame : DataFrame :=
  mkFrame [("Unique Key"%string, [CInt 1]); ("Complaint Type"%string, [CStr "Flooding"])] 1.

Definition cached_world : world :=
  mkWorld
    (<[path_join RAW_DATA_DIR "nyc_311_2019.csv" := CsvFile cached_frame]>
       (<[path_join RAW_DATA_DIR "nyc_census_tracts.geojson" := GeoJSONFile cached_frame]> ∅))
    ∅ [] [] 0.

(** A stand-in generator: every draw returns the least admissible value. *)
Definition const_random (s : N) : float64 * N := (S754_zero false, N.succ s).
Definition const_randint (a b : Z) (s : N) : Z * N := (a, N.succ s).
Definition const_uniform (a b : float64) (s : N) : float64 * N := (a, N.succ s).
Definition const_randbelow (n : nat) (s : N) : nat * N := (O, N.succ s).
Definition const_seed (a : Z) : N := Z.to_N a.

Definition default_args : Namespace := mkNamespace 2019 false 10000 false false false 100.

(** The log records and directories [main] produces up to the point where
    the data-processing step gives up. *)
Definition log_until_step1_error (args : Namespace) : list (level * string) :=
  [(INFO, "Starting NYC flood-related 311 complaints analysis");
   (INFO, "Arguments: " +:+ Namespace_repr args);
   if skip_processing args
   then (INFO, "Skipping data processing, loading processed data")
   else (INFO, "Step 1: Processing data");
   if skip_processing args
   then (ERROR, "Error loading processed data: module 'data_processing' has no attribute 'download_nyc_311_data'")
   else (ERROR, "Error in data processing: module 'data_processing' has no attribute 'process_data'")]%string.

Definition dirs_of_main (base_dir : string) (d : gset string) : gset string :=
  {[path_join base_dir "results"]} ∪
    ({[path_join base_dir "figures"]} ∪
       ({[path_join base_dir "data"]} ∪ ({[path_join base_dir "logs"]} ∪ d))).

(** *** Finite coordinates *)

(** Both coordinates are numbers: neither NaN nor infinite. *)
Definition finite_point (p : Point) : bool := is_finite (pt_x p) && is_finite (pt_y p).

Definition finite_complaint (c : Complaint) : bool := finite_point (points_from_xy c).

(** Every complaint of the table has a finite point: the tables on which
    the spatial index of the join finds every pair. *)
Definition finite_points (df : list Complaint) : bool := forallb finite_complaint df.

(** *** Degenerate and self-intersecting boundaries *)

















Definition incr (c : RayCrossingCounter) : RayCrossingCounter :=
  mkCounter (S (crossing_count c)) (on_segment c).

(** A tract without inhabitants on the unit square. *)
Definition uninhabited_tract : Tract := mkTract "36061000500" "Census Tract 5" 0 unit_square.

(** Two tracts of 2000 people and a joined table with one row, paired with
    the second tract. *)
Definition twin_census : list Tract :=
  [mkTract "36061000600" "Census Tract 6" 2000 unit_square;
   mkTract "36061000700" "Census Tract 7" 2000 unit_square].

Definition twin_joined : list JoinedRow :=
  [mkJoined 0 (complaint_at 1 (dec 5 10) (dec 5 10)) (mkPoint (dec 5 10) (dec 5 10))
     (Some (1%nat, mkTract "36061000700" "Census Tract 7" 2000 unit_square))].

(** Three joined rows of two complaints: the first lies in both twin
    tracts, the second is paired with the first tract only. *)
Definition mixed_joined : list JoinedRow :=
  [mkJoined 0 (complaint_at 1 (dec 5 10) (dec 5 10)) (mkPoint (dec 5 10) (dec 5 10))
     (Some (0%nat, mkTract "36061000600" "Census Tract 6" 2000 unit_square));
   mkJoined 0 (complaint_at 1 (dec 5 10) (dec 5 10)) (mkPoint (dec 5 10) (dec 5 10))
     (Some (1%nat, mkTract "36061000700" "Census Tract 7" 2000 unit_square));
   mkJoined 1 (complaint_at 2 (dec 2 10) (dec 2 10)) (mkPoint (dec 2 10) (dec 2 10))
     (Some (0%nat, mkTract "36061000600" "Census Tract 6" 2000 unit_square))].

(** *** Rounding to binary64 *)

(** Position of the fraction [N / D] between [N / D] and its successor. *)
Definition locate (N D : Z) : location :=
  if Z.eqb (N mod D) 0 then loc_Exact
  else loc_Inexact (Z.compare (2 * (N mod D)) D).

(** [N / D] rounded to the nearest integer, ties to even. *)
Definition rne_div (N D : Z) : Z := round_nearest_even (N / D) (locate N D).

(** The float with 53-bit mantissa [M] (or [2 ^ 53], which carries into the
    next binade) and exponent [E]; infinity when the exponent is too large. *)
Definition normal_float (M E : Z) : spec_float :=
  let M' := if Z.eqb M (2 ^ 53) then 2 ^ 52 else M in
  let E' := if Z.eqb M (2 ^ 53) then E + 1 else E in
  if Z.leb E' (emax - prec) then S754_finite false (Z.to_pos M') E'
  else S754_infinity false.

(** The value of the positive finite float with mantissa [m] and exponent [e]. *)
Definition fval (m : positive) (e : Z) : Q := (inject_Z (Zpos m) * Qpow2 e)%Q.

(** [M * 2 ^ E] is the value [v] rounded to 53 bits, ties to even. *)
Definition rounds_to (v : Q) (M E : Z) : Prop :=
  (inject_Z (2 ^ 52) * Qpow2 E <= v /\ v < inject_Z (2 ^ 53) * Qpow2 E)%Q
  /\ (inject_Z (2 * M - 1) * Qpow2 E <= 2 * v /\ 2 * v <= inject_Z (2 * M + 1) * Qpow2 E)%Q
  /\ ((2 * v == inject_Z (2 * M + 1) * Qpow2 E)%Q -> Z.even M = true)
  /\ ((2 * v == inject_Z (2 * M - 1) * Qpow2 E)%Q -> Z.even M = true).

Definition rounds_to_float (v : Q) (m : positive) (e : Z) : Prop :=
  exists M E, rounds_to v M E /\ (fval m e == inject_Z M * Qpow2 E)%Q.

Definition canonical (m : positive) : Prop := (2 ^ 52 <= Zpos m < 2 ^ 53).

(** *** The keyword filter and the pipeline *)

(** [kw] occurs in [s]. *)
Definition occurs_in (kw s : string) : Prop := exists pre post, s = pre +:+ kw +:+ post.

(** The number of tracts that carry the id [g] and contain the point of [c]. *)
Definition containing_with_id (within : Point -> Geometry -> bool) (g : string)
    (census : list Tract) (c : Complaint) : nat :=
  length (List.filter
            (fun t => bool_decide (GEOID t = g) && within (points_from_xy c) (geometry t))
            census).

(** No tract contains the point of [c]. *)
Definition uncontained (within : Point -> Geometry -> bool) (census : list Tract)
    (c : Complaint) : bool :=
  negb (existsb (fun t => within (points_from_xy c) (geometry t)) census).

(** Three complaints in Manhattan, one of them about water. *)
Definition sample_rows : list Complaint :=
  [mkComplaint 1 "Noise" (dec 407 10) (dec (-74) 1);
   mkComplaint 2 "Water Leak" (dec 407 10) (dec (-74) 1);
   mkComplaint 3 "Rodent" (dec 406 10) (dec (-739) 10)].

(** Four complaints around the unit square: noise inside it, two about
    water inside it and a flooded street outside. *)
Definition square_rows : list Complaint :=
  [mkComplaint 1 "Noise" (dec 5 10) (dec 5 10);
   mkComplaint 2 "Water Leak" (dec 2 10) (dec 2 10);
   mkComplaint 3 "Sewer Backup" (dec 5 10) (dec 5 10);
   mkComplaint 4 "Street Flooding" (of_int 2) (of_int 2)].

(** Two tracts that carry one id; only the first contains (0.5, 0.5). *)
Definition far_square : Geometry :=
  Polygon [mkPoint (of_int 5) (of_int 5); mkPoint (of_int 6) (of_int 5);
           mkPoint (of_int 6) (of_int 6); mkPoint (of_int 5) (of_int 6)].

Definition same_id_census : list Tract :=
  [mkTract "36061000800" "Census Tract 8" 2000 unit_square;
   mkTract "36061000800" "Census Tract 9" 4000 far_square].

(** *** The accuracy of the rate *)

(** The unit roundoff of binary64, [2 ^ -53]. *)
Definition unit_roundoff : Q := 1 # 9007199254740992.

(** [x] is within the relative distance [k * unit_roundoff] of [v]. *)
Definition within_roundoff (k : Q) (v x : Q) : Prop :=
  (v * (1 - k * unit_roundoff) <= x /\ x <= v * (1 + k * unit_roundoff))%Q.

(** The rate of [count] complaints among [pop] people, per thousand. *)
Definition exact_rate (count : nat) (pop : Z) : Q :=
  (inject_Z (Z.of_nat count) / inject_Z pop * 1000)%Q.

(** *** The generators and the cache *)

(** The world [w] with the generator in state [s]. *)
Definition with_rng (w : world) (s : N) : world :=
  mkWorld (files w) (dirs w) (stdout w) (log w) s.

(** [m] reads and changes nothing but the state of the generator. *)
Definition rng_only {A} (m : M A) : Prop :=
  exists f : N -> (exn + A) * N,
    forall w, m w = (fst (f (rng w)), with_rng w (snd (f (rng w)))).

(** [df[name]] *)
Definition get_column (df : DataFrame) (name : string) : option (list cell) :=
  option_map snd (List.find (fun kv => String.eqb (fst kv) name) (frame_columns df)).

Definition census_columns : list string :=
  ["GEOID"; "TRACTCE"; "COUNTYFP"; "NAME"; "Borough"; "median_income"; "population";
   "pct_college"; "pct_poverty"; "pct_owner_occupied"; "pct_minority"; "geometry"]%string.

(** A closed ring of five points that runs along a rectangle with sides
    parallel to the axes. *)
Definition rectangle_ring (c : cell) : Prop :=
  exists p0 p1 p2 p3,
    c = CGeom (Polygon [p0; p1; p2; p3; p0])
    /\ pt_y p1 = pt_y p0 /\ pt_x p2 = pt_x p1 /\ pt_y p3 = pt_y p2 /\ pt_x p3 = pt_x p0.

(** The draws stay in the range they are asked for. *)
Definition randbelow_in_range (next_randbelow : nat -> N -> nat * N) : Prop :=
  forall n s, (0 < n)%nat -> (fst (next_randbelow n s) < n)%nat.

Definition randint_in_range (next_randint : Z -> Z -> N -> Z * N) : Prop :=
  forall a b s, a <= b -> a <= fst (next_randint a b s) <= b.

(** A file system in which only the complaints are cached. *)
Definition half_cached_world : world :=
  mkWorld (<[nyc_311_path := CsvFile cached_frame]> ∅) ∅ [] [] 0.

(** The census table the stand-in generator produces. *)
Definition const_census : DataFrame :=
  match fst (create_sample_census_data const_seed const_randint const_uniform
               const_randbelow empty_world) with
  | inr gdf => gdf
  | inl _ => mkFrame [] 0
  end.

(** *** The pixel grid *)

(** A square array of side [n]. *)
Definition square (n : nat) (g : grid) : Prop :=
  length g = n /\ Forall (fun line => length line = n) g.

(** The cell in row [r] and column [c]. *)
Definition cell_at (g : grid) (r c : Z) : float64 :=
  nth (Z.to_nat c) (nth (Z.to_nat r) g []) (S754_zero false).

Definition in_span (span : Z * Z * Z * Z) (r c : Z) : bool :=
  let '(min_col, max_col, min_row, max_row) := span in
  (min_col <=? c) && (c <=? max_col) && (min_row <=? r) && (r <=? max_row).

(** The row [a] raises the cell (r, c) of a grid laid out from (minx, miny)
    with the given cell size. *)
Definition raises (bounds : list Point -> Bounds)
    (minx miny cell_width cell_height : float64) (resolution : Z)
    (a : AggregatedRow) (r c : Z) : bool :=
  match geometry (tract a) with
  | GeomNone => false
  | Polygon shell =>
      match cell_span minx miny cell_width cell_height resolution (bounds shell) with
      | inr span => in_span span r c
      | inl _ => false
      end
  end.

(** The same for the grid that [create_simplified_pixel_map] lays out over
    the table [gdf]. *)
Definition paints (bounds : list Point -> Bounds) (total_bounds : list Geometry -> Bounds)
    (gdf : list AggregatedRow) (resolution : Z) (a : AggregatedRow) (r c : Z) : bool :=
  let '(minx, miny, maxx, maxy) := total_bounds (List.map (fun a => geometry (tract a)) gdf) in
  raises bounds minx miny (div (sub maxx minx) (of_int resolution))
    (div (sub maxy miny) (of_int resolution)) resolution a r c.

(** The row has no geometry, or the cells of its polygon can be computed. *)
Definition spans (bounds : list Point -> Bounds)
    (minx miny cell_width cell_height : float64) (resolution : Z) (a : AggregatedRow) : bool :=
  match geometry (tract a) with
  | GeomNone => true
  | Polygon shell =>
      match cell_span minx miny cell_width cell_height resolution (bounds shell) with
      | inr _ => true
      | inl _ => false
      end
  end.

(** What the loop leaves in a cell that starts at [start]: every row that
    raises the cell replaces its content by the row's value if that is
    greater. *)
Definition largest_painted (column : AggregatedRow -> float64)
    (raised : AggregatedRow -> bool) (rows : list AggregatedRow) (start : float64) : float64 :=
  fold_left (fun acc a => if raised a then py_max acc (column a) else acc) rows start.

(** Zero, a positive number or positive infinity. *)
Definition nonnegative (x : float64) : bool := leb (S754_zero false) x.

(** A stand-in for the geometry library on rectangles listed from their
    lower left corner: the bounds of a shell are read off its first and
    third vertex, and a column is as wide as its first geometry. *)
Definition corner_bounds (shell : list Point) : Bounds :=
  match shell with
  | p0 :: _ :: p2 :: _ => (pt_x p0, pt_y p0, pt_x p2, pt_y p2)
  | _ => (nan, nan, nan, nan)
  end.

Definition first_bounds (geoms : list Geometry) : Bounds :=
  match geoms with
  | Polygon shell :: _ => corner_bounds shell
  | _ => (nan, nan, nan, nan)
  end.

(** The scenario tract with two complaints and the rate 1.0. *)
Definition scenario_aggregated : list AggregatedRow :=
  [mkAggregated scenario_tract 2 (of_int 1)].

(** A tract with a negative value. *)
Definition negative_aggregated : list AggregatedRow :=
  [mkAggregated scenario_tract 0 (of_int (-3))].

(** Two tracts on the unit square with the rates 1.0 and 3.0. *)
Definition twin_aggregated : list AggregatedRow :=
  [mkAggregated (mkTract "36061000600" "Census Tract 6" 2000 unit_square) 2 (of_int 1);
   mkAggregated (mkTract "36061000700" "Census Tract 7" 2000 unit_square) 6 (of_int 3)].

(** *** Points against rectangles *)

(** The counter after a segment that passes through the point. *)
Definition hit (c : RayCrossingCounter) : RayCrossingCounter :=
  mkCounter (crossing_count c) true.

(** The unit square as a closed ring of five points, the way the sample
    generator lists the corners of a tract. *)
Definition closed_unit_square : Geometry :=
  Polygon [mkPoint (of_int 0) (of_int 0); mkPoint (of_int 1) (of_int 0);
           mkPoint (of_int 1) (of_int 1); mkPoint (of_int 0) (of_int 1);
           mkPoint (of_int 0) (of_int 0)].

(** * Properties *)

(** ** The model at work *)

(** The literal 0.2 is the binary64 number 0x1.999999999999ap-3. *)
Example dec_0_2 : dec 2 10 = S754_finite false 7205759403792794 (-55).
Proof. reflexivity. Qed.

(** Containment is strict: a point on an edge or a vertex is not within. *)
Example edge_point_not_within :
  ring_within (mkPoint (of_int 1) (dec 5 10)) unit_square = false
  /\ ring_within (mkPoint (of_int 0) (of_int 0)) unit_square = false
  /\ ring_within (mkPoint (dec 5 10) (dec 5 10)) unit_square = true.
Proof. vm_compute. repeat split. Qed.

Example zfill_pads : zfill 6 (pretty 42%Z) = "000042"%string.
Proof. reflexivity. Qed.

Example default_args_repr :
  Namespace_repr default_args =
    "Namespace(year=2019, sample=False, sample_size=10000, skip_processing=False, skip_visualization=False, skip_analysis=False, resolution=100)"%string.
Proof. vm_compute. reflexivity. Qed.

(** ** Running the two steps *)

Lemma spatial_join_run within cs census w :
  cs <> [] ->
  exists pct,
    spatial_join_with_census within cs census w =
      (inr (dropna_GEOID (sjoin_left_within within cs census)),
       mkWorld
         (<[joined_path := JoinedCsv (dropna_GEOID (sjoin_left_within within cs census))]>
            (files w))
         (dirs w)
         (stdout w ++ [Text "Performing spatial join with census tracts..."]
            ++ [UnmatchedReport
                  (length (unmatched_rows (sjoin_left_within within cs census))) pct])
         (log w) (rng w)).
Proof.
  intros Hne. destruct cs as [|c cs]; [congruence|].
  eexists. unfold spatial_join_with_census, bind, print, py_truediv, write_file, ret.
  cbn [length]. rewrite Nat2Z.inj_succ.
  destruct (Z.eqb_spec (Z.succ (Z.of_nat (length cs))) 0) as [E|_]; [lia|].
  cbn. rewrite <- app_assoc. reflexivity.
Qed.

Lemma spatial_join_empty within census w :
  exists w',
    spatial_join_with_census within [] census w =
      (inl (ZeroDivisionError "division by zero"), w').
Proof. eexists. reflexivity. Qed.

Lemma spatial_join_result within cs census w :
  fst (spatial_join_with_census within cs census w) =
    match cs with
    | [] => inl (ZeroDivisionError "division by zero")
    | _ => inr (dropna_GEOID (sjoin_left_within within cs census))
    end.
Proof.
  destruct cs as [|c cs]; [reflexivity|].
  destruct (spatial_join_run within (c :: cs) census w) as [pct ->]; [congruence|].
  reflexivity.
Qed.

Lemma aggregate_run joined census w :
  aggregate_by_census_tract joined census w =
    (inr (aggregate_rows joined census),
     mkWorld
       (<[aggregated_path := AggregatedGeoJSON (aggregate_rows joined census)]> (files w))
       (dirs w)
       (stdout w ++ [Text "Aggregating complaints by census tract..."])
       (log w) (rng w)).
Proof. reflexivity. Qed.

(** ** Group sizes *)

Lemma groupby_lookup joined g :
  groupby_GEOID_size joined !! g =
    if Nat.eqb (count_rows g joined) 0 then None else Some (count_rows g joined).
Proof.
  unfold count_rows. induction joined as [|r joined IH]; [reflexivity|].
  cbn [groupby_GEOID_size foldr List.filter].
  fold (groupby_GEOID_size joined).
  remember (length (List.filter (has_GEOID g) joined)) as n eqn:Hn.
  destruct (row_GEOID r) as [g'|] eqn:Hg.
  - destruct (decide (g' = g)) as [->|Hne].
    + assert (has_GEOID g r = true) as ->
        by (unfold has_GEOID; apply bool_decide_eq_true_2; exact Hg).
      rewrite lookup_insert_eq, IH. cbn [length]. rewrite <- Hn.
      destruct n; reflexivity.
    + assert (has_GEOID g r = false) as ->
        by (unfold has_GEOID; apply bool_decide_eq_false_2; congruence).
      rewrite lookup_insert_ne by exact Hne. rewrite <- Hn. exact IH.
  - assert (has_GEOID g r = false) as ->
      by (unfold has_GEOID; apply bool_decide_eq_false_2; congruence).
    rewrite <- Hn. exact IH.
Qed.

Lemma fillna0_groupby joined g :
  fillna0 (groupby_GEOID_size joined !! g) = count_rows g joined.
Proof.
  rewrite groupby_lookup. destruct (count_rows g joined); reflexivity.
Qed.

Lemma aggregate_rows_eq joined census :
  aggregate_rows joined census =
    List.map (fun t =>
                mkAggregated t (count_rows (GEOID t) joined)
                  (rate_per_1000 (count_rows (GEOID t) joined) (population t)))
             census.
Proof.
  unfold aggregate_rows, merge_left_on_GEOID. rewrite List.map_map.
  apply List.map_ext. intros t. cbn. rewrite fillna0_groupby. reflexivity.
Qed.

Lemma aggregate_rows_tract joined census :
  List.map tract (aggregate_rows joined census) = census.
Proof.
  rewrite aggregate_rows_eq, List.map_map. cbn. apply List.map_id.
Qed.

Lemma count_rows_zero g joined :
  (forall r, In r joined -> row_GEOID r <> Some g) -> count_rows g joined = 0%nat.
Proof.
  unfold count_rows. induction joined as [|r joined IH]; intros H; [reflexivity|].
  cbn [List.filter].
  assert (has_GEOID g r = false) as ->
    by (unfold has_GEOID; apply bool_decide_eq_false_2; apply H; left; reflexivity).
  apply IH. intros r' Hr'. apply H. right. exact Hr'.
Qed.

(** C3: every tract appears in the aggregated output, once and in order,
    and a tract to which no joined row is paired has [complaint_count] 0. *)
Theorem C3_every_region_kept joined census w :
  exists agg w',
    aggregate_by_census_tract joined census w = (inr agg, w')
    /\ List.map tract agg = census
    /\ forall a, In a agg ->
         (forall r, In r joined -> row_GEOID r <> Some (GEOID (tract a))) ->
         complaint_count a = 0%nat.
Proof.
  rewrite aggregate_run. do 2 eexists. split; [reflexivity|].
  split; [apply aggregate_rows_tract|].
  intros a Ha Hno. rewrite aggregate_rows_eq in Ha.
  apply List.in_map_iff in Ha as (t & <- & _). cbn in *.
  apply count_rows_zero. exact Hno.
Qed.

(** ** Counting the rows of the join *)

Lemma filter_length_split {A} (f : A -> bool) (l : list A) :
  (length (List.filter f l) + length (List.filter (fun x => negb (f x)) l))%nat = length l.
Proof.
  induction l as [|a l IH]; [reflexivity|].
  cbn. destruct (f a); cbn; lia.
Qed.

Lemma unmatched_dropna_length joined :
  (length (unmatched_rows joined) + length (dropna_GEOID joined))%nat = length joined.
Proof. apply filter_length_split. Qed.

Lemma sum_list_map_add {A} (f g : A -> nat) (l : list A) :
  sum_list (List.map (fun x => (f x + g x)%nat) l) =
    (sum_list (List.map f l) + sum_list (List.map g l))%nat.
Proof. induction l as [|a l IH]; cbn; [reflexivity|]. rewrite IH. lia. Qed.

Lemma sum_list_map_zero {A} (f : A -> nat) (l : list A) :
  (forall x, In x l -> f x = 0%nat) -> sum_list (List.map f l) = 0%nat.
Proof.
  induction l as [|a l IH]; intros H; cbn; [reflexivity|].
  rewrite (H a) by (left; reflexivity). apply IH. intros x Hx. apply H. right. exact Hx.
Qed.

Lemma count_rows_cons g r joined :
  count_rows g (r :: joined) = (indicator (has_GEOID g r) + count_rows g joined)%nat.
Proof. unfold count_rows. cbn. destruct (has_GEOID g r); reflexivity. Qed.

(** Among tracts with distinct ids exactly one carries the id of a member. *)
Lemma one_tract_per_GEOID census t (f : Tract -> bool) :
  List.NoDup (List.map GEOID census) -> In t census ->
  length (List.filter (fun t' => bool_decide (GEOID t' = GEOID t) && f t') census) =
    indicator (f t).
Proof.
  induction census as [|t0 census IH]; intros Hnd Hin; [destruct Hin|].
  cbn [List.map] in Hnd. apply List.NoDup_cons_iff in Hnd as [Hfresh Hnd].
  cbn [List.filter]. destruct Hin as [->|Hin].
  - rewrite bool_decide_eq_true_2 by reflexivity. cbn [andb].
    assert (List.filter (fun t' => bool_decide (GEOID t' = GEOID t) && f t') census = [])
      as Hrest.
    { clear IH Hnd. induction census as [|t1 census IH]; [reflexivity|].
      cbn [List.filter]. rewrite bool_decide_eq_false_2.
      - cbn. apply IH. intros H. apply Hfresh. right. exact H.
      - intros E. apply Hfresh. left. exact E. }
    rewrite Hrest. destruct (f t); reflexivity.
  - rewrite bool_decide_eq_false_2.
    + cbn. apply IH; assumption.
    + intros E. apply Hfresh. rewrite E. apply List.in_map. exact Hin.
Qed.

Lemma sum_indicator_GEOID census t :
  List.NoDup (List.map GEOID census) -> In t census ->
  sum_list (List.map (fun t' => indicator (bool_decide (GEOID t = GEOID t'))) census) = 1%nat.
Proof.
  induction census as [|t0 census IH]; intros Hnd Hin; [destruct Hin|].
  cbn [List.map] in Hnd. apply List.NoDup_cons_iff in Hnd as [Hfresh Hnd].
  cbn [List.map sum_list sum_list_with]. destruct Hin as [->|Hin].
  - rewrite bool_decide_eq_true_2 by reflexivity. cbn [indicator].
    rewrite sum_list_map_zero; [reflexivity|].
    intros t1 Ht1. rewrite bool_decide_eq_false_2; [reflexivity|].
    intros E. apply Hfresh. rewrite E. apply List.in_map. exact Ht1.
  - rewrite bool_decide_eq_false_2.
    + cbn [indicator]. rewrite IH by assumption. reflexivity.
    + intros E. apply Hfresh. rewrite <- E. apply List.in_map. exact Hin.
Qed.

(** With distinct tract ids the counts add up to the number of rows that
    are paired with a tract of the table. *)
Lemma sum_count_rows census rows :
  List.NoDup (List.map GEOID census) ->
  (forall r, In r rows -> exists t, In t census /\ row_GEOID r = Some (GEOID t)) ->
  sum_list (List.map (fun t => count_rows (GEOID t) rows) census) = length rows.
Proof.
  intros Hnd. induction rows as [|r rows IH]; intros Hrows.
  - apply sum_list_map_zero. reflexivity.
  - erewrite List.map_ext by (intros t; apply count_rows_cons).
    rewrite sum_list_map_add, IH by (intros r' Hr'; apply Hrows; right; exact Hr').
    destruct (Hrows r) as (t & Ht & Hg); [left; reflexivity|].
    erewrite List.map_ext; [rewrite (sum_indicator_GEOID census t Hnd Ht); reflexivity|].
    intros t'. cbn. unfold has_GEOID. rewrite Hg. f_equal.
    apply bool_decide_ext. split; congruence.
Qed.

Lemma total_count_aggregate joined census :
  total_count (aggregate_rows joined census) =
    sum_list (List.map (fun t => count_rows (GEOID t) joined) census).
Proof.
  unfold total_count. rewrite aggregate_rows_eq, List.map_map. reflexivity.
Qed.

Section JoinFacts.

Variable within : Point -> Geometry -> bool.

Lemma in_enumerate_from {A} (l : list A) k i a :
  In (i, a) (enumerate_from k l) -> In a l.
Proof.
  revert k. induction l as [|b l IH]; intros k H; [destruct H|].
  cbn in H. destruct H as [H|H]; [left; congruence|right; eapply IH; exact H].
Qed.

Lemma enumerate_from_length {A} (l : list A) k :
  length (enumerate_from k l) = length l.
Proof. revert k. induction l as [|b l IH]; intros k; cbn; [reflexivity|]. now rewrite IH. Qed.

Lemma in_matching_tracts p census j t :
  In (j, t) (matching_tracts within p census) -> In t census.
Proof.
  unfold matching_tracts. intros H. apply List.filter_In in H as [H _].
  eapply in_enumerate_from. exact H.
Qed.

Lemma sjoin_rows_right ic census r :
  In r (sjoin_rows within ic census) ->
  right_match r = None \/ exists j t, right_match r = Some (j, t) /\ In t census.
Proof.
  unfold sjoin_rows. intros H.
  destruct (matching_tracts within (points_from_xy (snd ic)) census) as [|m ms] eqn:Hm.
  - destruct H as [<-|[]]. left. reflexivity.
  - apply List.in_map_iff in H as ([j t] & <- & Hin). right. exists j, t.
    split; [reflexivity|]. rewrite <- Hm in Hin. eapply in_matching_tracts. exact Hin.
Qed.

Lemma dropna_rows_paired cs census r :
  In r (dropna_GEOID (sjoin_left_within within cs census)) ->
  exists t, In t census /\ row_GEOID r = Some (GEOID t).
Proof.
  unfold dropna_GEOID, sjoin_left_within. intros H.
  apply List.filter_In in H as [H Hna].
  apply List.in_flat_map in H as (ic & _ & H).
  apply sjoin_rows_right in H as [H|(j & t & H & Ht)].
  - unfold row_GEOID in Hna. rewrite H in Hna. discriminate.
  - exists t. split; [exact Ht|]. unfold row_GEOID. rewrite H. reflexivity.
Qed.

(** The general balance: the counts and the unmatched rows add up to the
    number of rows of the left join. *)
Lemma count_balance cs census :
  List.NoDup (List.map GEOID census) ->
  (total_count (aggregate_rows (dropna_GEOID (sjoin_left_within within cs census)) census)
   + length (unmatched_rows (sjoin_left_within within cs census)))%nat
  = length (sjoin_left_within within cs census).
Proof.
  intros Hnd. rewrite total_count_aggregate, sum_count_rows.
  - rewrite Nat.add_comm. apply unmatched_dropna_length.
  - exact Hnd.
  - intros r. apply dropna_rows_paired.
Qed.

Lemma sjoin_rows_length ic census :
  length (sjoin_rows within ic census) =
    Nat.max 1 (length (matching_tracts within (points_from_xy (snd ic)) census)).
Proof.
  unfold sjoin_rows.
  destruct (matching_tracts within (points_from_xy (snd ic)) census) as [|m ms];
    [reflexivity|].
  rewrite length_map. cbn. lia.
Qed.

Lemma sjoin_length_no_overlap cs census :
  (forall c, In c cs ->
     (length (matching_tracts within (points_from_xy c) census) <= 1)%nat) ->
  length (sjoin_left_within within cs census) = length cs.
Proof.
  intros H. unfold sjoin_left_within. generalize O as k.
  induction cs as [|c cs IH]; intros k; [reflexivity|].
  cbn [enumerate_from List.flat_map]. rewrite length_app, sjoin_rows_length.
  rewrite IH by (intros c' Hc'; apply H; right; exact Hc').
  specialize (H c (or_introl eq_refl)). cbn [snd length]. lia.
Qed.

End JoinFacts.

(** ** What one complaint adds to one tract *)

Lemma counted_in_app a b i g :
  counted_in (a ++ b) i g = (counted_in a i g + counted_in b i g)%nat.
Proof. unfold counted_in. rewrite List.filter_app, length_app. reflexivity. Qed.

Lemma dropna_app a b : dropna_GEOID (a ++ b) = dropna_GEOID a ++ dropna_GEOID b.
Proof. apply List.filter_app. Qed.

Lemma counted_in_matched k c p ms i g :
  counted_in (dropna_GEOID (List.map (fun m => mkJoined k c p (Some m)) ms)) i g =
    if Nat.eqb k i then count_matches g ms else 0%nat.
Proof.
  unfold counted_in, dropna_GEOID, count_matches.
  induction ms as [|[j t] ms IH]; [destruct (Nat.eqb k i); reflexivity|].
  cbn [List.map List.filter row_GEOID right_match isna negb left_index snd].
  unfold has_GEOID at 1. cbn [row_GEOID right_match].
  destruct (Nat.eqb k i) eqn:Hk; cbn [andb].
  - destruct (decide (GEOID t = g)) as [E|E].
    + rewrite !bool_decide_eq_true_2 by congruence. cbn [length]. now rewrite IH.
    + rewrite !bool_decide_eq_false_2 by congruence. exact IH.
  - exact IH.
Qed.

Section CountedFacts.

Variable within : Point -> Geometry -> bool.

Lemma counted_in_sjoin_rows k c census i g :
  counted_in (dropna_GEOID (sjoin_rows within (k, c) census)) i g =
    if Nat.eqb k i
    then count_matches g (matching_tracts within (points_from_xy c) census)
    else 0%nat.
Proof.
  unfold sjoin_rows. cbn [fst snd].
  destruct (matching_tracts within (points_from_xy c) census) as [|m ms] eqn:Hm.
  - cbn. destruct (Nat.eqb k i); reflexivity.
  - apply counted_in_matched.
Qed.

Lemma counted_in_sjoin_from k cs census i g :
  counted_in
    (dropna_GEOID
       (List.flat_map (fun ic => sjoin_rows within ic census) (enumerate_from k cs))) i g =
    match (if Nat.leb k i then cs !! (i - k)%nat else None) with
    | Some c => count_matches g (matching_tracts within (points_from_xy c) census)
    | None => 0%nat
    end.
Proof.
  revert k. induction cs as [|c cs IH]; intros k.
  - cbn. destruct (Nat.leb k i); reflexivity.
  - cbn [enumerate_from List.flat_map].
    rewrite dropna_app, counted_in_app, counted_in_sjoin_rows, IH.
    destruct (Nat.eqb_spec k i) as [->|Hne].
    + rewrite Nat.leb_refl, Nat.sub_diag. cbn [lookup list_lookup].
      destruct (Nat.leb_spec (S i) i); [lia|]. lia.
    + destruct (Nat.leb_spec k i) as [Hle|Hgt].
      * destruct (Nat.leb_spec (S k) i); [|lia].
        replace (i - k)%nat with (S (i - S k)) by lia. reflexivity.
      * destruct (Nat.leb_spec (S k) i); [lia|]. reflexivity.
Qed.

Lemma counted_in_sjoin cs census i c g :
  cs !! i = Some c ->
  counted_in (dropna_GEOID (sjoin_left_within within cs census)) i g =
    count_matches g (matching_tracts within (points_from_xy c) census).
Proof.
  intros Hc. unfold sjoin_left_within. rewrite counted_in_sjoin_from.
  cbn [Nat.leb]. rewrite Nat.sub_0_r, Hc. reflexivity.
Qed.

Lemma count_matches_enumerate g p k census :
  count_matches g
    (List.filter (fun it => within p (geometry (snd it))) (enumerate_from k census)) =
  length (List.filter (fun t => bool_decide (GEOID t = g) && within p (geometry t)) census).
Proof.
  unfold count_matches. revert k.
  induction census as [|t census IH]; intros k; [reflexivity|].
  cbn [enumerate_from List.filter snd].
  destruct (within p (geometry t)).
  - cbn [List.filter snd]. rewrite andb_true_r.
    destruct (bool_decide (GEOID t = g)); cbn [length]; now rewrite IH.
  - rewrite andb_false_r. apply IH.
Qed.

Lemma count_matches_unique p census t :
  List.NoDup (List.map GEOID census) -> In t census ->
  count_matches (GEOID t) (matching_tracts within p census) =
    indicator (within p (geometry t)).
Proof.
  intros Hnd Hin. unfold matching_tracts. rewrite count_matches_enumerate.
  apply (one_tract_per_GEOID census t (fun t' => within p (geometry t')) Hnd Hin).
Qed.

Lemma matching_tracts_length p census :
  length (matching_tracts within p census) =
    length (List.filter (fun t => within p (geometry t)) census).
Proof.
  unfold matching_tracts. generalize O as k.
  induction census as [|t census IH]; intros k; [reflexivity|].
  cbn [enumerate_from List.filter snd].
  destruct (within p (geometry t)); cbn [length]; now rewrite IH.
Qed.

Lemma regions_counting_length cs census i c :
  List.NoDup (List.map GEOID census) -> cs !! i = Some c ->
  length (regions_counting (dropna_GEOID (sjoin_left_within within cs census))
            (aggregate_rows (dropna_GEOID (sjoin_left_within within cs census)) census) i) =
    length (matching_tracts within (points_from_xy c) census).
Proof.
  intros Hnd Hc. rewrite matching_tracts_length, aggregate_rows_eq.
  unfold regions_counting.
  set (joined := dropna_GEOID (sjoin_left_within within cs census)).
  assert (forall l, (forall t, In t l -> In t census) ->
            length (List.filter
                      (fun a => Nat.ltb 0 (counted_in joined i (GEOID (tract a))))
                      (List.map (fun t => mkAggregated t (count_rows (GEOID t) joined)
                                   (rate_per_1000 (count_rows (GEOID t) joined)
                                      (population t))) l)) =
            length (List.filter (fun t => within (points_from_xy c) (geometry t)) l)) as H.
  { induction l as [|t l IH]; intros Hl; [reflexivity|].
    cbn [List.map List.filter tract]. unfold joined at 1.
    rewrite (counted_in_sjoin cs census i c _ Hc).
    rewrite count_matches_unique by (auto; apply Hl; left; reflexivity).
    destruct (within (points_from_xy c) (geometry t));
      cbn [indicator Nat.ltb Nat.leb length]; [f_equal|];
      apply IH; intros t' Ht'; apply Hl; right; exact Ht'. }
  apply H. auto.
Qed.

End CountedFacts.

(** Every joined row stems from one complaint, so a count is the sum of
    what the complaints add to it. *)
Lemma sum_indicator_seq n x :
  (x < n)%nat ->
  sum_list (List.map (fun i => indicator (Nat.eqb x i)) (List.seq 0 n)) = 1%nat.
Proof.
  intros Hx.
  assert (forall m, sum_list (List.map (fun i => indicator (Nat.eqb x i)) (List.seq 0 m))
                    = indicator (Nat.ltb x m)) as H.
  { induction m as [|m IH]; [reflexivity|].
    rewrite List.seq_S, List.map_app, sum_list_with_app, IH. cbn [List.map sum_list_with].
    unfold id.
    destruct (Nat.ltb_spec x m), (Nat.eqb_spec x (0 + m)), (Nat.ltb_spec x (S m));
      cbn [indicator]; lia. }
  rewrite H. destruct (Nat.ltb_spec x n); [reflexivity|lia].
Qed.

Lemma count_rows_decomposition joined g n :
  (forall r, In r joined -> (left_index r < n)%nat) ->
  count_rows g joined =
    sum_list (List.map (fun i => counted_in joined i g) (List.seq 0 n)).
Proof.
  induction joined as [|r joined IH]; intros Hidx.
  - unfold counted_in. cbn. symmetry. apply sum_list_map_zero. reflexivity.
  - rewrite count_rows_cons, IH by (intros r' Hr'; apply Hidx; right; exact Hr').
    erewrite (List.map_ext (fun i => counted_in (r :: joined) i g)
                (fun i => (indicator (Nat.eqb (left_index r) i && has_GEOID g r)
                           + counted_in joined i g)%nat)).
    + rewrite sum_list_map_add. f_equal.
      destruct (has_GEOID g r).
      * erewrite List.map_ext by (intros i; rewrite andb_true_r; reflexivity).
        symmetry. apply sum_indicator_seq. apply Hidx. left. reflexivity.
      * symmetry. apply sum_list_map_zero. intros i _. now rewrite andb_false_r.
    + intros i. unfold counted_in. cbn [List.filter].
      destruct (Nat.eqb (left_index r) i && has_GEOID g r); reflexivity.
Qed.


(** ** The conservation law (C1) *)

Lemma last_unmatched_report_app out n pct :
  last_unmatched_report (out ++ [UnmatchedReport n pct]) = Some n.
Proof. unfold last_unmatched_report. rewrite fold_left_app. reflexivity. Qed.

Lemma join_then_aggregate within cs census w :
  cs <> [] ->
  exists w1 w2,
    spatial_join_with_census within cs census w =
      (inr (dropna_GEOID (sjoin_left_within within cs census)), w1)
    /\ last_unmatched_report (stdout w1) =
         Some (length (unmatched_rows (sjoin_left_within within cs census)))
    /\ aggregate_by_census_tract (dropna_GEOID (sjoin_left_within within cs census)) census w1 =
         (inr (aggregate_rows (dropna_GEOID (sjoin_left_within within cs census)) census), w2).
Proof.
  intros Hne. destruct (spatial_join_run within cs census w Hne) as [pct Hrun].
  do 2 eexists. split; [exact Hrun|]. split.
  - cbn [stdout]. rewrite app_assoc. apply last_unmatched_report_app.
  - apply aggregate_run.
Qed.

(** C1 (conservation law): when the complaints table is not empty, the
    tract ids are distinct and no complaint lies in more than one tract,
    the complaint counts of all tracts plus the reported number of
    unmatched complaints equal the number of complaints. *)
Theorem C1_conservation within cs census w :
  cs <> [] ->
  List.NoDup (List.map GEOID census) ->
  (forall c, In c cs ->
     (length (matching_tracts within (points_from_xy c) census) <= 1)%nat) ->
  exists joined w1 agg w2 unmatched,
    spatial_join_with_census within cs census w = (inr joined, w1)
    /\ last_unmatched_report (stdout w1) = Some unmatched
    /\ aggregate_by_census_tract joined census w1 = (inr agg, w2)
    /\ (total_count agg + unmatched)%nat = length cs.
Proof.
  intros Hne Hnd Hdisj.
  destruct (join_then_aggregate within cs census w Hne) as (w1 & w2 & Hj & Hu & Ha).
  do 5 eexists. split; [exact Hj|]. split; [exact Hu|]. split; [exact Ha|].
  rewrite count_balance by exact Hnd. apply sjoin_length_no_overlap. exact Hdisj.
Qed.

Lemma C1_scenario_witness :
  scenario_complaints <> []
  /\ List.NoDup (List.map GEOID [scenario_tract])
  /\ exists joined w1 agg w2 unmatched,
       spatial_join_with_census ring_within scenario_complaints [scenario_tract] empty_world
         = (inr joined, w1)
       /\ last_unmatched_report (stdout w1) = Some unmatched
       /\ aggregate_by_census_tract joined [scenario_tract] w1 = (inr agg, w2)
       /\ (total_count agg + unmatched)%nat = length scenario_complaints.
Proof.
  assert (scenario_complaints <> []) as H1 by discriminate.
  assert (List.NoDup (List.map GEOID [scenario_tract])) as H2
    by (repeat constructor; cbn; tauto).
  split; [exact H1|]. split; [exact H2|].
  apply (C1_conservation ring_within scenario_complaints [scenario_tract] empty_world H1 H2).
  intros c [<-|[<-|[<-|[]]]]; vm_compute; lia.
Defined.

(** C1 without the non-overlap condition: with two overlapping tracts one
    complaint is counted twice and the balance is off by one. *)
Lemma C1_overlap_counterexample :
  exists joined w1 agg w2 unmatched,
    spatial_join_with_census ring_within overlap_complaints overlapping_census empty_world
      = (inr joined, w1)
    /\ last_unmatched_report (stdout w1) = Some unmatched
    /\ aggregate_by_census_tract joined overlapping_census w1 = (inr agg, w2)
    /\ total_count agg = 2%nat /\ unmatched = 0%nat /\ length overlap_complaints = 1%nat
    /\ (total_count agg + unmatched)%nat <> length overlap_complaints.
Proof.
  destruct (join_then_aggregate ring_within overlap_complaints overlapping_census empty_world)
    as (w1 & w2 & Hj & Hu & Ha); [discriminate|].
  do 5 eexists. split; [exact Hj|]. split; [exact Hu|]. split; [exact Ha|].
  vm_compute. repeat split; discriminate.
Qed.

(** ** Exclusivity of assignment (C2) *)

(** C2 (exclusivity of assignment): on a table of finite points and with
    distinct tract ids, a complaint adds one to the count of every tract
    whose geometry contains its point and nothing to the others, so the
    number of tracts that count it is the number of tracts that contain
    it: at most one when the tracts do not overlap at that point. *)
Theorem C2_counted_once_per_containing_tract within cs census w :
  cs <> [] ->
  finite_points cs = true ->
  List.NoDup (List.map GEOID census) ->
  exists joined w1 agg w2,
    spatial_join_with_census within cs census w = (inr joined, w1)
    /\ aggregate_by_census_tract joined census w1 = (inr agg, w2)
    /\ (forall i c a, cs !! i = Some c -> In a agg ->
          counted_in joined i (GEOID (tract a)) =
            indicator (within (points_from_xy c) (geometry (tract a))))
    /\ (forall i c, cs !! i = Some c ->
          length (regions_counting joined agg i) =
            length (matching_tracts within (points_from_xy c) census))
    /\ (forall i c, cs !! i = Some c ->
          (length (matching_tracts within (points_from_xy c) census) <= 1)%nat ->
          (length (regions_counting joined agg i) <= 1)%nat).
Proof.
  intros Hne _ Hnd.
  destruct (join_then_aggregate within cs census w Hne) as (w1 & w2 & Hj & _ & Ha).
  do 4 eexists. split; [exact Hj|]. split; [exact Ha|].
  assert (forall i c, cs !! i = Some c ->
            length (regions_counting (dropna_GEOID (sjoin_left_within within cs census))
                      (aggregate_rows (dropna_GEOID (sjoin_left_within within cs census)) census) i)
            = length (matching_tracts within (points_from_xy c) census)) as Hlen
    by (intros i c Hc; apply regions_counting_length; assumption).
  split; [|split; [exact Hlen|]].
  - intros i c a Hc Ha'. rewrite aggregate_rows_eq in Ha'.
    apply List.in_map_iff in Ha' as (t & <- & Ht). cbn [tract].
    rewrite (counted_in_sjoin within cs census i c _ Hc).
    apply count_matches_unique; assumption.
  - intros i c Hc Hle. rewrite (Hlen i c Hc). exact Hle.
Qed.

Lemma C2_overlap_witness :
  overlap_complaints <> []
  /\ finite_points overlap_complaints = true
  /\ List.NoDup (List.map GEOID overlapping_census)
  /\ exists joined w1 agg w2,
       spatial_join_with_census ring_within overlap_complaints overlapping_census empty_world
         = (inr joined, w1)
       /\ aggregate_by_census_tract joined overlapping_census w1 = (inr agg, w2)
       /\ length (regions_counting joined agg 0) = 2%nat.
Proof.
  assert (overlap_complaints <> []) as H1 by discriminate.
  assert (List.NoDup (List.map GEOID overlapping_census)) as H2.
  { repeat constructor; cbn; [intros [H|[]]; discriminate H|tauto]. }
  split; [exact H1|]. split; [reflexivity|]. split; [exact H2|].
  destruct (C2_counted_once_per_containing_tract ring_within overlap_complaints
              overlapping_census empty_world H1 eq_refl H2)
    as (joined & w1 & agg & w2 & Hj & Ha & _ & Hlen & _).
  exists joined, w1, agg, w2. split; [exact Hj|]. split; [exact Ha|].
  rewrite (Hlen 0%nat (complaint_at 1 (dec 5 10) (dec 5 10)) eq_refl).
  vm_compute. reflexivity.
Defined.

(** C2 on overlapping tracts: a complaint inside two of them yields two
    joined rows and is counted by both; the join picks neither. *)
Lemma C2_overlap_counterexample :
  exists joined w1 agg w2,
    spatial_join_with_census ring_within overlap_complaints overlapping_census empty_world
      = (inr joined, w1)
    /\ aggregate_by_census_tract joined overlapping_census w1 = (inr agg, w2)
    /\ List.map left_index joined = [0%nat; 0%nat]
    /\ List.map complaint_count agg = [1%nat; 1%nat]
    /\ length (regions_counting joined agg 0) = 2%nat
    /\ ~ (length (regions_counting joined agg 0) <= 1)%nat.
Proof.
  destruct (join_then_aggregate ring_within overlap_complaints overlapping_census empty_world)
    as (w1 & w2 & Hj & _ & Ha); [discriminate|].
  do 4 eexists. split; [exact Hj|]. split; [exact Ha|].
  vm_compute. repeat split. lia.
Qed.

(** ** The unit-square scenario (C8) *)

(** C8: one tract of 2000 people on the unit square and complaints at
    (0.2, 0.2), (0.5, 0.5), (2.0, 2.0) give [complaint_count] 2, a
    [complaint_rate] of exactly 1.0 and one unmatched complaint. *)
Theorem C8_unit_square_scenario (w : world) :
  exists joined w1 w2,
    spatial_join_with_census ring_within scenario_complaints [scenario_tract] w
      = (inr joined, w1)
    /\ last_unmatched_report (stdout w1) = Some 1%nat
    /\ aggregate_by_census_tract joined [scenario_tract] w1
       = (inr [mkAggregated scenario_tract 2 (of_int 1)], w2)
    /\ of_int 1 = S754_finite false (2 ^ 52) (-52).
Proof.
  destruct (join_then_aggregate ring_within scenario_complaints [scenario_tract] w)
    as (w1 & w2 & Hj & Hu & Ha); [discriminate|].
  exists (dropna_GEOID (sjoin_left_within ring_within scenario_complaints [scenario_tract])), w1, w2.
  split; [exact Hj|]. split; [rewrite Hu; vm_compute; reflexivity|].
  split; [rewrite Ha; f_equal|vm_compute; reflexivity].
Qed.

(** ** Determinism (C9) *)

Lemma join_and_aggregate_result within cs census w :
  fst (join_and_aggregate within cs census w) =
    match cs with
    | [] => inl (ZeroDivisionError "division by zero")
    | _ => inr (aggregate_rows (dropna_GEOID (sjoin_left_within within cs census)) census)
    end.
Proof.
  unfold join_and_aggregate, bind. destruct cs as [|c cs]; [reflexivity|].
  destruct (spatial_join_run within (c :: cs) census w) as [pct ->]; [congruence|].
  rewrite aggregate_run. reflexivity.
Qed.

(** C9: the outcome of the join-and-aggregate step (the aggregated table,
    or the exception) depends on the two input tables only, not on the
    files, the output, the log or the random state; a second run, started
    in the world the first run leaves behind, gives the same outcome. *)
Theorem C9_join_and_aggregate_deterministic within cs census :
  (forall w w',
     fst (join_and_aggregate within cs census w) =
     fst (join_and_aggregate within cs census w'))
  /\ (forall w,
        fst (join_and_aggregate within cs census
               (snd (join_and_aggregate within cs census w))) =
        fst (join_and_aggregate within cs census w)).
Proof.
  split; intros; rewrite !join_and_aggregate_result; reflexivity.
Qed.

(** ** The sample generator and the cache (C5) *)

Lemma succeeds_ret {A} (P : A -> Prop) a : P a -> succeeds P (ret a).
Proof. intros H w. exists a, w. split; [reflexivity|exact H]. Qed.

Lemma succeeds_bind {A B} (P : A -> Prop) (Q : B -> Prop) (m : M A) (k : A -> M B) :
  succeeds P m -> (forall a, P a -> succeeds Q (k a)) -> succeeds Q (bind m k).
Proof.
  intros Hm Hk w. destruct (Hm w) as (a & w1 & E & Ha).
  destruct (Hk a Ha w1) as (b & w2 & E2 & Hb).
  exists b, w2. unfold bind. rewrite E. split; assumption.
Qed.

Lemma succeeds_weaken {A} (P Q : A -> Prop) (m : M A) :
  (forall a, P a -> Q a) -> succeeds P m -> succeeds Q m.
Proof.
  intros HPQ Hm w. destruct (Hm w) as (a & w' & E & Ha). exists a, w'. auto.
Qed.

Lemma fails_bind_always {A B} (m : M A) (k : A -> M B) :
  (forall a, fails (fun _ => True) (k a)) -> fails (fun _ => True) (bind m k).
Proof.
  intros Hk w. unfold bind. destruct (m w) as [[e|a] w1].
  - exists e, w1. split; [reflexivity|exact I].
  - apply Hk.
Qed.

Lemma fails_bind_after {A B} (P : A -> Prop) Q (m : M A) (k : A -> M B) :
  succeeds P m -> (forall a, P a -> fails Q (k a)) -> fails Q (bind m k).
Proof.
  intros Hm Hk w. destruct (Hm w) as (a & w1 & E & Ha).
  unfold bind. rewrite E. apply Hk. exact Ha.
Qed.

Lemma fails_weaken {A} (Q Q' : exn -> Prop) (m : M A) :
  (forall e, Q e -> Q' e) -> fails Q m -> fails Q' m.
Proof.
  intros HQ Hm w. destruct (Hm w) as (e & w' & E & He). exists e, w'. auto.
Qed.

Lemma succeeds_replicateM {A} (m : M A) n :
  succeeds (fun _ => True) m -> succeeds (fun l => length l = n) (replicateM n m).
Proof.
  intros Hm. induction n as [|n IH]; cbn [replicateM].
  - apply succeeds_ret. reflexivity.
  - eapply succeeds_bind; [exact Hm|]. intros x _.
    eapply succeeds_bind; [exact IH|]. intros xs Hxs.
    apply succeeds_ret. cbn. now rewrite Hxs.
Qed.

Lemma succeeds_mapM {A B} (f : A -> M B) l :
  (forall a, succeeds (fun _ => True) (f a)) ->
  succeeds (fun l' => length l' = length l) (mapM f l).
Proof.
  intros Hf. induction l as [|a l IH]; cbn [mapM].
  - apply succeeds_ret. reflexivity.
  - eapply succeeds_bind; [apply Hf|]. intros x _.
    eapply succeeds_bind; [exact IH|]. intros xs Hxs.
    apply succeeds_ret. cbn. now rewrite Hxs.
Qed.

Lemma succeeds_set_rng s : succeeds (fun _ => True) (set_rng s).
Proof. intros w. do 2 eexists. split; [reflexivity|exact I]. Qed.

(** The constructor rejects a dict whose first list-like column has a
    length that another list-like column does not share. *)
Lemma pd_DataFrame_mismatch data n ns k :
  listlike_lengths data = n :: ns -> In k ns -> k <> n ->
  fails (fun e => e = ValueError "All arrays must be of the same length") (pd_DataFrame data).
Proof.
  intros Hlen Hin Hne w. unfold pd_DataFrame. rewrite Hlen.
  destruct (forallb (Nat.eqb n) ns) eqn:Hall.
  - rewrite forallb_forall in Hall. specialize (Hall k Hin).
    apply Nat.eqb_eq in Hall. congruence.
  - do 2 eexists. split; reflexivity.
Qed.

Section SampleFacts.

Variable seed_state : Z -> N.
Variable next_random : N -> float64 * N.
Variable next_randint : Z -> Z -> N -> Z * N.
Variable next_uniform : float64 -> float64 -> N -> float64 * N.
Variable next_randbelow : nat -> N -> nat * N.

Local Abbreviation create_311 :=
  (create_sample_311_data seed_state next_random next_randint next_uniform next_randbelow).
Local Abbreviation download :=
  (download_and_prepare_data seed_state next_random next_randint next_uniform next_randbelow).

Lemma succeeds_draw {A} (f : N -> A * N) : succeeds (fun _ => True) (draw f).
Proof. intros w. do 2 eexists. split; [reflexivity|exact I]. Qed.

Lemma succeeds_random_choice {A} (seq : list A) :
  (forall n s, (0 < n)%nat -> (fst (next_randbelow n s) < n)%nat) ->
  seq <> [] ->
  succeeds (fun _ => True) (random_choice next_randbelow seq).
Proof.
  intros Hlt Hne. unfold random_choice.
  eapply succeeds_bind with (P := fun i => (i < length seq)%nat).
  - intros w. do 2 eexists. split; [reflexivity|]. apply Hlt.
    destruct seq; [congruence|cbn; lia].
  - intros i Hi. destruct (nth_error seq i) as [x|] eqn:E.
    + apply succeeds_ret. exact I.
    + apply nth_error_None in E. lia.
Qed.

(** Whatever the random columns hold, the constructor call at the end of
    [create_sample_311_data] raises: 'Unique Key' has 100000 entries and
    'Location Type' has 3. *)
Lemma sample_311_frame_rejected
    (random_dates closed_dates : list Z)
    (complaint_types random_statuses random_addresses zip_codes boroughs : list string)
    (random_lats random_lons : list float64) :
  fails (fun e => e = ValueError "All arrays must be of the same length")
    (pd_DataFrame
       [("Unique Key", ListLike (List.map (fun i => CInt (Z.of_nat i)) (List.seq 1 n_complaints)));
        ("Created Date", ListLike (List.map CDate random_dates));
        ("Closed Date", ListLike (List.map CDate closed_dates));
        ("Agency", Scalar (CStr "DEP"));
        ("Complaint Type", ListLike (List.map CStr complaint_types));
        ("Descriptor", ListLike (List.repeat (CStr "") n_complaints));
        ("Location Type",
          ListLike [CStr "Street"; CStr "Residential Building"; CStr "Commercial Building"]);
        ("Incident Zip", ListLike (List.map CStr zip_codes));
        ("Incident Address", ListLike (List.map CStr random_addresses));
        ("Status", ListLike (List.map CStr random_statuses));
        ("Borough", ListLike (List.map CStr boroughs));
        ("Latitude", ListLike (List.map CFloat random_lats));
        ("Longitude", ListLike (List.map CFloat random_lons))]%string).
Proof.
  eapply pd_DataFrame_mismatch with (k := 3%nat).
  - cbn [listlike_lengths List.flat_map snd app]. reflexivity.
  - cbn [length]. right. right. right. right. left. reflexivity.
  - rewrite length_map, length_seq. unfold n_complaints. lia.
Qed.

Lemma create_sample_311_data_raises : fails (fun _ => True) create_311.
Proof.
  unfold create_sample_311_data.
  repeat (apply fails_bind_always; intros ?).
  eapply fails_weaken; [|apply sample_311_frame_rejected]. auto.
Qed.

Lemma create_sample_311_data_ValueError :
  (forall n s, (0 < n)%nat -> (fst (next_randbelow n s) < n)%nat) ->
  fails (fun e => e = ValueError "All arrays must be of the same length") create_311.
Proof.
  intros Hlt.
  assert (forall A (seq : list A), seq <> [] ->
            succeeds (fun _ => True) (random_choice next_randbelow seq)) as Hchoice
    by (intros; apply succeeds_random_choice; assumption).
  unfold create_sample_311_data.
  eapply fails_bind_after; [apply succeeds_set_rng|]. intros _ _.
  repeat
    (eapply fails_bind_after;
     [ first
         [ eapply succeeds_weaken; [|apply succeeds_replicateM]; [intros; exact I|]
         | eapply succeeds_weaken; [|apply succeeds_mapM]; [intros; exact I|intros ?] ];
       try apply Hchoice; try discriminate;
       repeat (eapply succeeds_bind; [apply succeeds_draw|]; intros ? _);
       try (apply succeeds_ret; exact I);
       try (match goal with |- context [if ?b then _ else _] => destruct b end;
            apply Hchoice; discriminate);
       try (apply succeeds_draw);
       try (eapply succeeds_bind; [apply Hchoice; discriminate|]; intros ? _;
            apply succeeds_ret; exact I)
     | intros ? _ ]).
  apply sample_311_frame_rejected.
Qed.

(** C5: [create_sample_311_data] raises in every world, and it is the
    frame constructor's [ValueError] when the generator keeps
    [_randbelow(n)] below [n]; so [download_and_prepare_data] returns
    only if the complaints file is already cached. *)
Theorem C5_sample_311_always_raises :
  (forall w, exists e w', create_311 w = (inl e, w'))
  /\ ((forall n s, (0 < n)%nat -> (fst (next_randbelow n s) < n)%nat) ->
      forall w, exists w',
        create_311 w = (inl (ValueError "All arrays must be of the same length"), w'))
  /\ (forall w r w',
        download w = (inr r, w') -> is_Some (files w !! nyc_311_path)).
Proof.
  split; [|split].
  - intros w. destruct (create_sample_311_data_raises w) as (e & w' & E & _). eauto.
  - intros Hlt w.
    destruct (create_sample_311_data_ValueError Hlt w) as (e & w' & E & ->). eauto.
  - intros w r w'. unfold download_and_prepare_data, bind at 1 2 3 4.
    unfold ensure_dirs, bind, makedirs, print, path_exists. cbn [files].
    destruct (bool_decide (is_Some (files w !! nyc_311_path))) eqn:Hc.
    + intros _. apply bool_decide_eq_true_1 in Hc. exact Hc.
    + match goal with
      | |- context [create_311 ?w0] =>
          destruct (create_sample_311_data_raises w0) as (e & w1 & -> & _)
      end.
      discriminate.
Qed.

End SampleFacts.

Lemma C5_cached_witness :
  (forall n s, (0 < n)%nat -> (fst (const_randbelow n s) < n)%nat)
  /\ exists r w',
       download_and_prepare_data const_seed const_random const_randint const_uniform
         const_randbelow cached_world = (inr r, w')
       /\ is_Some (files cached_world !! nyc_311_path).
Proof.
  split; [intros n s H; exact H|].
  eexists (cached_frame, cached_frame), _.
  assert (download_and_prepare_data const_seed const_random const_randint const_uniform
            const_randbelow cached_world
          = (inr (cached_frame, cached_frame),
             snd (download_and_prepare_data const_seed const_random const_randint
                    const_uniform const_randbelow cached_world))) as E
    by (vm_compute; reflexivity).
  split; [exact E|].
  exact (proj2 (proj2 (C5_sample_311_always_raises const_seed const_random const_randint
                         const_uniform const_randbelow)) _ _ _ E).
Defined.


(** ** The driver (C6) *)

Lemma data_processing_lacks_entry_points :
  ("process_data"%string ∉ data_processing_names)
  /\ ("download_nyc_311_data"%string ∉ data_processing_names)
  /\ ("download_census_tracts"%string ∉ data_processing_names).
Proof.
  repeat split; apply (bool_decide_eq_false_1 _); vm_compute; reflexivity.
Qed.

Lemma module_getattr_missing modname names attr w :
  attr ∉ names ->
  module_getattr modname names attr w =
    (inl (AttributeError
            ("module '" +:+ modname +:+ "' has no attribute '" +:+ attr +:+ "'")), w).
Proof.
  intros H. unfold module_getattr. rewrite bool_decide_eq_false_2 by exact H. reflexivity.
Qed.

Section RunFacts.

Variable pyobj : Type.
Variable parse_arguments : M Namespace.
Variable base_dir : string.
Variable call_process_data : string -> M (pyobj * pyobj * pyobj).
Variable call_download : string -> Namespace -> M pyobj.
Variable load_data : M pyobj.
Variable visualize_data : pyobj -> pyobj -> M unit.
Variable run_analysis : M pyobj.

Local Abbreviation step1 :=
  (data_processing_step pyobj call_process_data call_download load_data).
Local Abbreviation main' :=
  (main pyobj parse_arguments base_dir call_process_data call_download load_data
     visualize_data run_analysis).

(** The data-processing step never returns frames: the attribute lookup
    raises, the handler logs the error and [main] returns. *)
Lemma data_processing_step_gives_up args w :
  step1 args w =
    (inr None,
     mkWorld (files w) (dirs w) (stdout w)
       (log w ++ [if skip_processing args
                  then (INFO, "Skipping data processing, loading processed data")
                  else (INFO, "Step 1: Processing data");
                  if skip_processing args
                  then (ERROR, "Error loading processed data: module 'data_processing' has no attribute 'download_nyc_311_data'")
                  else (ERROR, "Error in data processing: module 'data_processing' has no attribute 'process_data'")]%string)
       (rng w)).
Proof.
  destruct data_processing_lacks_entry_points as (H1 & H2 & _).
  unfold data_processing_step.
  destruct (skip_processing args); cbn [negb];
    unfold bind at 1, logger_log at 1, try_except, bind at 1;
    rewrite module_getattr_missing by assumption;
    cbn; rewrite <- app_assoc; reflexivity.
Qed.

(** C6: both entry points that [main] asks of [data_processing] are
    missing, so the lookup raises [AttributeError]; the data-processing
    step catches it, logs the error and hands back nothing; and once the
    arguments are parsed, [main] ends normally right there: neither the
    visualization nor the analysis step is started. *)
Theorem C6_main_stops_after_data_processing :
  (forall attr w,
     attr = "process_data"%string \/ attr = "download_nyc_311_data"%string ->
     module_getattr "data_processing" data_processing_names attr w =
       (inl (AttributeError
               ("module 'data_processing' has no attribute '" +:+ attr +:+ "'")), w))
  /\ (forall args w, exists w', step1 args w = (inr None, w'))
  /\ (forall w args w0,
        parse_arguments w = (inr args, w0) ->
        main' w =
          (inr tt,
           mkWorld (files w0) (dirs_of_main base_dir (dirs w0)) (stdout w0)
             (log w0 ++ log_until_step1_error args) (rng w0))).
Proof.
  split; [|split].
  - destruct data_processing_lacks_entry_points as (H1 & H2 & _).
    intros attr w [-> | ->]; apply module_getattr_missing; assumption.
  - intros args w. rewrite data_processing_step_gives_up. eauto.
  - intros w args w0 Hparse. unfold main. unfold bind at 1. rewrite Hparse.
    unfold setup_logging, bind at 1 2 3 4 5 6 7, makedirs, logger_log.
    cbn [files dirs stdout log rng]. rewrite data_processing_step_gives_up.
    cbn [files dirs stdout log rng ret]. unfold ret, dirs_of_main, log_until_step1_error.
    rewrite <- !app_assoc. reflexivity.
Qed.

End RunFacts.

Lemma C6_default_args_witness :
  main unit (ret default_args) "/repo" (fun _ => ret (tt, tt, tt)) (fun _ _ => ret tt)
    (ret tt) (fun _ _ => ret tt) (ret tt) empty_world =
    (inr tt,
     mkWorld (files empty_world) (dirs_of_main "/repo" (dirs empty_world)) (stdout empty_world)
       (log empty_world ++ log_until_step1_error default_args) (rng empty_world)).
Proof.
  apply (proj2 (proj2 (C6_main_stops_after_data_processing unit (ret default_args) "/repo"
                         (fun _ => ret (tt, tt, tt)) (fun _ _ => ret tt) (ret tt)
                         (fun _ _ => ret tt) (ret tt)))
           empty_world default_args empty_world).
  reflexivity.
Defined.

(** ** Degenerate boundaries (C7) *)

Lemma Qltb_spec (x y : Q) : reflect (x < y)%Q (Qltb x y).
Proof.
  unfold Qltb. destruct (Qle_bool y x) eqn:E; constructor.
  - apply Qle_bool_iff in E. lra.
  - destruct (Qlt_le_dec x y) as [H|H]; [exact H|].
    apply Qle_bool_iff in H. congruence.
Qed.

Lemma Qle_bool_spec (x y : Q) : reflect (x <= y)%Q (Qle_bool x y).
Proof.
  destruct (Qle_bool x y) eqn:E; constructor.
  - apply Qle_bool_iff. exact E.
  - intros H. apply Qle_bool_iff in H. congruence.
Qed.

Lemma Qeq_bool_spec (x y : Q) : reflect (x == y)%Q (Qeq_bool x y).
Proof.
  destruct (Qeq_bool x y) eqn:E; constructor.
  - apply Qeq_bool_iff. exact E.
  - intros H. apply Qeq_bool_iff in H. congruence.
Qed.

Ltac qcases :=
  repeat match goal with
    | |- context [Qltb ?x ?y] => destruct (Qltb_spec x y)
    | |- context [Qle_bool ?x ?y] => destruct (Qle_bool_spec x y)
    | |- context [Qeq_bool ?x ?y] => destruct (Qeq_bool_spec x y)
    end.

Section RayCrossing.

Local Open Scope Q_scope.

Variables a b c : Q.
Hypothesis proper_line : ~ (a == 0 /\ b == 0).







End RayCrossing.

Section LeftOfPoint.

Local Open Scope Q_scope.

Variables a b c : Q.
Hypothesis proper_line : ~ (a == 0 /\ b == 0).

End LeftOfPoint.

Section OffLine.

Local Open Scope Q_scope.

Variables a b c : Q.
Hypothesis proper_line : ~ (a == 0 /\ b == 0).




End OffLine.

Section CollinearRing.

Local Open Scope Q_scope.

Variables a b c : Q.
Hypothesis proper_line : ~ (a == 0 /\ b == 0).


End CollinearRing.






Section Spikes.

Local Open Scope Q_scope.








End Spikes.


Section ZeroArea.

Local Open Scope Q_scope.



Variables a b c : Q.
Hypothesis proper_line : ~ (a == 0 /\ b == 0).




End ZeroArea.











(** ** Binary64 rounding (C4, C10) *)

Lemma digits2_pos_bounds p :
  2 ^ (Zpos (digits2_pos p) - 1) <= Zpos p < 2 ^ Zpos (digits2_pos p).
Proof.
  induction p as [p IH|p IH|]; cbn [digits2_pos].
  - rewrite Pos2Z.inj_succ.
    replace (Z.succ (Zpos (digits2_pos p)) - 1) with (Z.succ (Zpos (digits2_pos p) - 1)) by lia.
    rewrite !Z.pow_succ_r by lia. lia.
  - rewrite Pos2Z.inj_succ.
    replace (Z.succ (Zpos (digits2_pos p)) - 1) with (Z.succ (Zpos (digits2_pos p) - 1)) by lia.
    rewrite !Z.pow_succ_r by lia. lia.
  - cbn. lia.
Qed.

Lemma Zdigits2_bounds m :
  0 < m -> 2 ^ (Zdigits2 m - 1) <= m < 2 ^ Zdigits2 m.
Proof. destruct m as [|p|p]; try lia. intros _. apply digits2_pos_bounds. Qed.

Lemma Zdigits2_pos m : 0 < m -> 0 < Zdigits2 m.
Proof. destruct m; cbn; lia. Qed.

(** The number of digits is determined by the binade. *)
Lemma Zdigits2_unique m d :
  0 < d -> 2 ^ (d - 1) <= m < 2 ^ d -> Zdigits2 m = d.
Proof.
  intros Hd [Hlo Hhi].
  assert (0 < m) as Hm by (pose proof (Z.pow_pos_nonneg 2 (d - 1)); lia).
  pose proof (Zdigits2_bounds m Hm) as [Hlo' Hhi'].
  pose proof (Zdigits2_pos m Hm) as Hd'.
  destruct (Z.lt_trichotomy (Zdigits2 m) d) as [H|[H|H]]; [|exact H|].
  - assert (2 ^ Zdigits2 m <= 2 ^ (d - 1)) by (apply Z.pow_le_mono_r; lia). lia.
  - assert (2 ^ d <= 2 ^ (Zdigits2 m - 1)) by (apply Z.pow_le_mono_r; lia). lia.
Qed.

Lemma iter_pos_nat {A} (f : A -> A) p x :
  SpecFloat.iter_pos f p x = Nat.iter (Pos.to_nat p) f x.
Proof.
  revert x. induction p as [p IH|p IH|]; intros x; cbn [SpecFloat.iter_pos].
  - rewrite !IH, Pos2Nat.inj_xI.
    replace (S (2 * Pos.to_nat p)) with (Pos.to_nat p + (Pos.to_nat p + 1))%nat by lia.
    rewrite !Nat.iter_add. reflexivity.
  - rewrite !IH, Pos2Nat.inj_xO.
    replace (2 * Pos.to_nat p)%nat with (Pos.to_nat p + Pos.to_nat p)%nat by lia.
    rewrite Nat.iter_add. reflexivity.
  - reflexivity.
Qed.

Lemma shr_record_of_loc_inv m l :
  loc_of_shr_record (shr_record_of_loc m l) = l /\ shr_m (shr_record_of_loc m l) = m.
Proof. destruct l as [|[]]; split; reflexivity. Qed.

(** One right shift halves the mantissa and doubles the denominator. *)
Lemma shr_1_locate N D :
  0 <= N -> 0 < D ->
  shr_1 (shr_record_of_loc (N / D) (locate N D)) =
    shr_record_of_loc (N / (2 * D)) (locate N (2 * D)).
Proof.
  intros HN HD.
  pose proof (Z.div_mod N D ltac:(lia)) as Hdm.
  pose proof (Z.mod_pos_bound N D HD) as Hr.
  pose proof (Z.div_pos N D HN HD) as Hq.
  unfold locate.
  remember (N / D) as q eqn:Eq. remember (N mod D) as r eqn:Er. clear Eq Er.
  pose proof (Z.div_mod q 2 ltac:(lia)) as Hq2.
  pose proof (Z.mod_pos_bound q 2 ltac:(lia)) as Hb.
  assert (N / (2 * D) = q / 2 /\ N mod (2 * D) = (q mod 2) * D + r) as [Hq' Hr'].
  { assert (N = (2 * D) * (q / 2) + ((q mod 2) * D + r)) as E by nia.
    assert (0 <= (q mod 2) * D + r < 2 * D) as Hb' by nia.
    split; symmetry.
    - apply (Z.div_unique_pos N (2 * D) (q / 2) ((q mod 2) * D + r)); assumption.
    - apply (Z.mod_unique_pos N (2 * D) (q / 2) ((q mod 2) * D + r)); assumption. }
  rewrite Hq', Hr'.
  assert (q mod 2 = 0 \/ q mod 2 = 1) as [Hb0|Hb1] by lia.
  - rewrite Hb0, Z.mul_0_l, Z.add_0_l.
    assert (exists q', q = 2 * q' /\ 0 <= q') as (q' & -> & Hq'0) by (exists (q / 2); lia).
    replace (2 * q' / 2) with q' by (rewrite Z.mul_comm, Z.div_mul; lia).
    destruct (Z.eqb_spec r 0) as [Hr0|Hr0].
    + destruct q'; try lia; reflexivity.
    + assert ((2 * r ?= 2 * D) = Lt) as -> by (apply Z.compare_lt_iff; lia).
      destruct (2 * r ?= D); destruct q'; try lia; reflexivity.
  - rewrite Hb1, Z.mul_1_l.
    assert (exists q', q = 2 * q' + 1 /\ 0 <= q') as (q' & -> & Hq'0) by (exists (q / 2); lia).
    replace ((2 * q' + 1) / 2) with q'
      by (apply (Z.div_unique_pos (2 * q' + 1) 2 q' 1); lia).
    destruct (Z.eqb_spec (D + r) 0); [lia|].
    destruct (Z.eqb_spec r 0) as [Hr0|Hr0].
    + assert ((2 * (D + r) ?= 2 * D) = Eq) as -> by (apply Z.compare_eq_iff; lia).
      destruct q'; try lia; reflexivity.
    + assert ((2 * (D + r) ?= 2 * D) = Gt) as -> by (apply Z.compare_gt_iff; lia).
      destruct (2 * r ?= D); destruct q'; try lia; reflexivity.
Qed.

Lemma shr_iter_locate N D k :
  0 <= N -> 0 < D ->
  Nat.iter k shr_1 (shr_record_of_loc (N / D) (locate N D)) =
    shr_record_of_loc (N / (D * 2 ^ Z.of_nat k)) (locate N (D * 2 ^ Z.of_nat k)).
Proof.
  intros HN HD. induction k as [|k IH].
  - change (Z.of_nat 0) with 0. rewrite Z.pow_0_r, Z.mul_1_r. reflexivity.
  - rewrite Nat.iter_succ, IH, shr_1_locate by (try lia; apply Z.mul_pos_pos; lia).
    rewrite Nat2Z.inj_succ, Z.pow_succ_r by lia.
    replace (2 * (D * 2 ^ Z.of_nat k)) with (D * (2 * 2 ^ Z.of_nat k)) by lia.
    reflexivity.
Qed.

(** [shr] by [n] bits. *)
Lemma shr_locate N D e n :
  0 <= N -> 0 < D -> 0 <= n ->
  shr (shr_record_of_loc (N / D) (locate N D)) e n =
    (shr_record_of_loc (N / (D * 2 ^ n)) (locate N (D * 2 ^ n)), e + n).
Proof.
  intros HN HD Hn. destruct n as [|p|p]; [| |lia].
  - cbn [shr]. rewrite Z.pow_0_r, Z.mul_1_r, Z.add_0_r. reflexivity.
  - cbn [shr]. rewrite iter_pos_nat, shr_iter_locate by assumption.
    rewrite positive_nat_Z. reflexivity.
Qed.

(** ** Rounding a fraction to the nearest integer *)

Lemma rne_div_cases N D :
  rne_div N D = N / D \/ rne_div N D = N / D + 1.
Proof.
  unfold rne_div, round_nearest_even.
  destruct (locate N D) as [|[]]; auto. destruct (Z.even (N / D)); auto.
Qed.

Lemma rne_div_spec N D :
  0 <= N -> 0 < D ->
  (2 * rne_div N D - 1) * D <= 2 * N <= (2 * rne_div N D + 1) * D
  /\ (2 * N = (2 * rne_div N D + 1) * D -> Z.even (rne_div N D) = true)
  /\ (2 * N = (2 * rne_div N D - 1) * D -> Z.even (rne_div N D) = true).
Proof.
  intros HN HD.
  pose proof (Z.div_mod N D ltac:(lia)) as Hdm.
  pose proof (Z.mod_pos_bound N D HD) as Hr.
  unfold rne_div, locate, round_nearest_even.
  remember (N / D) as q eqn:Eq. remember (N mod D) as r eqn:Er. clear Eq Er.
  destruct (Z.eqb_spec r 0) as [Hr0|Hr0].
  - subst r. repeat split; nia.
  - destruct (Z.compare_spec (2 * r) D) as [Hc|Hc|Hc].
    + destruct (Z.even q) eqn:Hev.
      * repeat split; try nia. intros _. exact Hev.
      * repeat split; try nia. intros _.
        rewrite Z.even_add, Hev. reflexivity.
    + repeat split; nia.
    + repeat split; nia.
Qed.

(** ** The rounding step of every operation *)

Lemma fexp_normal x : -1074 <= x - 53 -> fexp prec emax x = x - 53.
Proof. unfold fexp, emin, prec, emax. lia. Qed.

Lemma locate_one N : locate N 1 = loc_Exact.
Proof. unfold locate. rewrite Z.mod_1_r. reflexivity. Qed.

Lemma div_pow2_digits m n :
  0 <= n -> 53 + n = Zdigits2 m -> 0 < m -> 2 ^ 52 <= m / 2 ^ n < 2 ^ 53.
Proof.
  intros Hn Hd Hm. pose proof (Zdigits2_bounds m Hm) as [Hlo Hhi].
  rewrite <- Hd in Hlo, Hhi.
  replace (53 + n - 1) with (52 + n) in Hlo by lia.
  rewrite Z.pow_add_r in Hlo, Hhi by lia.
  assert (0 < 2 ^ n) by (apply Z.pow_pos_nonneg; lia).
  split.
  - apply Z.div_le_lower_bound; lia.
  - apply Z.div_lt_upper_bound; lia.
Qed.

Lemma binary_round_aux_correct N D e :
  0 < N -> 0 < D ->
  53 <= Zdigits2 (N / D) ->
  -1074 <= e + Zdigits2 (N / D) - 53 ->
  binary_round_aux prec emax false (N / D) e (locate N D) =
    normal_float (rne_div N (D * 2 ^ (Zdigits2 (N / D) - 53))) (e + (Zdigits2 (N / D) - 53)).
Proof.
  intros HN HD Hdig Hmin.
  assert (0 < N / D) as Hm.
  { pose proof (Z.div_pos N D ltac:(lia) HD). destruct (N / D); cbn in Hdig; lia. }
  remember (Zdigits2 (N / D) - 53) as n eqn:En.
  unfold binary_round_aux, shr_fexp.
  rewrite fexp_normal by lia.
  replace (Zdigits2 (N / D) + e - 53 - e) with n by lia.
  rewrite shr_locate by lia.
  destruct (shr_record_of_loc_inv (N / (D * 2 ^ n)) (locate N (D * 2 ^ n))) as [-> ->].
  fold (rne_div N (D * 2 ^ n)).
  assert (2 ^ 52 <= N / (D * 2 ^ n) < 2 ^ 53) as Hm'.
  { rewrite <- Z.div_div by (try lia; apply Z.pow_pos_nonneg; lia).
    apply div_pow2_digits; lia. }
  pose proof (rne_div_cases N (D * 2 ^ n)) as HM.
  remember (rne_div N (D * 2 ^ n)) as M eqn:EM. clear EM.
  assert (2 ^ 52 <= M <= 2 ^ 53) as HMr by lia.
  unfold normal_float.
  destruct (Z.eqb_spec M (2 ^ 53)) as [->|Hne].
  - change (Zdigits2 (2 ^ 53)) with 54.
    rewrite fexp_normal by lia.
    replace (54 + (e + n) - 53 - (e + n)) with 1 by lia.
    cbn [shr SpecFloat.iter_pos shr_record_of_loc].
    change (2 ^ 53) with 9007199254740992. cbn [shr_1 shr_m].
    change (emax - prec) with 971.
    destruct (e + n + 1 <=? 971); reflexivity.
  - assert (Zdigits2 M = 53) as HdM by (apply Zdigits2_unique; lia).
    rewrite HdM, fexp_normal by lia.
    replace (53 + (e + n) - 53 - (e + n)) with 0 by lia.
    cbn [shr shr_record_of_loc shr_m].
    destruct M as [|pM|pM]; try lia.
    reflexivity.
Qed.

(** *** Values *)

Local Open Scope Q_scope.

Lemma Qpow2_pos e : 0 < Qpow2 e.
Proof. unfold Qpow2. apply Qpower_0_lt. reflexivity. Qed.

Lemma Qpow2_add a b : Qpow2 (a + b) == Qpow2 a * Qpow2 b.
Proof. unfold Qpow2. apply Qpower_plus. discriminate. Qed.

Lemma Qpow2_Z n : (0 <= n)%Z -> Qpow2 n == inject_Z (2 ^ n).
Proof. intros H. unfold Qpow2. rewrite Zpower_Qpower by exact H. reflexivity. Qed.

Lemma Qpow2_succ a : Qpow2 (a + 1) == 2 * Qpow2 a.
Proof. rewrite Qpow2_add. change (Qpow2 1) with 2. ring. Qed.

Lemma Qpow2_le a b : (a <= b)%Z -> Qpow2 a <= Qpow2 b.
Proof.
  intros H. replace b with (a + (b - a))%Z by lia.
  rewrite Qpow2_add, (Qpow2_Z (b - a)) by lia.
  assert (1 <= inject_Z (2 ^ (b - a))).
  { change 1 with (inject_Z 1). rewrite <- Zle_Qle.
    pose proof (Z.pow_pos_nonneg 2 (b - a)). lia. }
  pose proof (Qpow2_pos a). nra.
Qed.

Lemma inject_Z_le_mult a b w : (a <= b)%Z -> 0 <= w -> inject_Z a * w <= inject_Z b * w.
Proof. intros H Hw. rewrite Zle_Qle in H. nra. Qed.

Lemma inject_Z_lt_inv a b w : 0 < w -> inject_Z a * w < inject_Z b * w -> (a < b)%Z.
Proof. intros Hw H. rewrite Zlt_Qlt. nra. Qed.

Lemma inject_Z_le_inv a b w : 0 < w -> inject_Z a * w <= inject_Z b * w -> (a <= b)%Z.
Proof. intros Hw H. rewrite Zle_Qle. nra. Qed.

Lemma rounds_to_bounds v M E : rounds_to v M E -> (2 ^ 52 <= M <= 2 ^ 53)%Z.
Proof.
  intros ((Hlo & Hhi) & (Hl & Hu) & _). pose proof (Qpow2_pos E) as Hw.
  assert (inject_Z (2 * 2 ^ 52) * Qpow2 E <= inject_Z (2 * M + 1) * Qpow2 E) as H1.
  { rewrite inject_Z_mult. change (inject_Z 2) with 2. nra. }
  assert (inject_Z (2 * M - 1) * Qpow2 E < inject_Z (2 * 2 ^ 53) * Qpow2 E) as H2.
  { rewrite (inject_Z_mult 2 (2 ^ 53)). change (inject_Z 2) with 2. nra. }
  apply inject_Z_le_inv in H1; [|exact Hw]. apply inject_Z_lt_inv in H2; [|exact Hw].
  lia.
Qed.

(** Rounding is monotone. *)
Lemma rounds_to_mono v1 M1 E1 v2 M2 E2 :
  rounds_to v1 M1 E1 -> rounds_to v2 M2 E2 -> v1 <= v2 ->
  inject_Z M1 * Qpow2 E1 <= inject_Z M2 * Qpow2 E2.
Proof.
  intros R1 R2 Hv.
  pose proof (rounds_to_bounds _ _ _ R1) as B1.
  pose proof (rounds_to_bounds _ _ _ R2) as B2.
  destruct R1 as ((Hlo1 & Hhi1) & (Hl1 & Hu1) & Tu1 & Tl1).
  destruct R2 as ((Hlo2 & Hhi2) & (Hl2 & Hu2) & Tu2 & Tl2).
  pose proof (Qpow2_pos E1) as Hw1. pose proof (Qpow2_pos E2) as Hw2.
  destruct (Z.lt_trichotomy E1 E2) as [Hlt|[Heq|Hgt]].
  - (* a lower binade *)
    assert (2 * Qpow2 E1 <= Qpow2 E2) as Hstep
      by (rewrite <- Qpow2_succ; apply Qpow2_le; lia).
    assert (inject_Z M1 <= inject_Z (2 ^ 53)) by (rewrite <- Zle_Qle; lia).
    assert (inject_Z (2 ^ 52) <= inject_Z M2) by (rewrite <- Zle_Qle; lia).
    change (inject_Z (2 ^ 53)) with (2 * inject_Z (2 ^ 52)) in *.
    assert (0 < inject_Z (2 ^ 52)) by reflexivity.
    nra.
  - (* the same binade *)
    subst E2. apply inject_Z_le_mult; [|lra].
    destruct (Z_le_gt_dec M1 M2) as [Hle|Hgt]; [exact Hle|exfalso].
    assert (inject_Z (2 * M2 + 1) * Qpow2 E1 <= inject_Z (2 * M1 - 1) * Qpow2 E1) as Hmid
      by (apply inject_Z_le_mult; [lia|lra]).
    assert (2 * v1 == inject_Z (2 * M1 - 1) * Qpow2 E1) as T1 by lra.
    assert (2 * v2 == inject_Z (2 * M2 + 1) * Qpow2 E1) as T2 by lra.
    specialize (Tl1 T1). specialize (Tu2 T2).
    assert (inject_Z (2 * M1 - 1) * Qpow2 E1 <= inject_Z (2 * M2 + 1) * Qpow2 E1) as Hmid'
      by lra.
    apply inject_Z_le_inv in Hmid'; [|exact Hw1].
    assert (M1 = M2 + 1)%Z as -> by lia.
    rewrite Z.even_add, Tu2 in Tl1. discriminate.
  - (* a higher binade is impossible *)
    exfalso.
    assert (2 * Qpow2 E2 <= Qpow2 E1) as Hstep
      by (rewrite <- Qpow2_succ; apply Qpow2_le; lia).
    change (inject_Z (2 ^ 53)) with (2 * inject_Z (2 ^ 52)) in *.
    assert (0 < inject_Z (2 ^ 52)) by reflexivity.
    nra.
Qed.

Section Transfer.

Variables (v : Q) (N D e n : Z).
Hypothesis HD : (0 < D)%Z.
Hypothesis Hn : (0 <= n)%Z.
Hypothesis Hv : v * inject_Z D == inject_Z N * Qpow2 e.

Lemma scaled_value a b :
  inject_Z b * v * inject_Z D - inject_Z a * Qpow2 (e + n) * inject_Z D ==
    (inject_Z (b * N) - inject_Z (a * (D * 2 ^ n))) * Qpow2 e.
Proof.
  rewrite Qpow2_add, (Qpow2_Z n Hn), !inject_Z_mult.
  assert (inject_Z b * v * inject_Z D == inject_Z b * (v * inject_Z D)) as -> by ring.
  rewrite Hv. ring.
Qed.

Lemma transfer_le a b :
  (a * (D * 2 ^ n) <= b * N)%Z -> inject_Z a * Qpow2 (e + n) <= inject_Z b * v.
Proof.
  intros H. rewrite Zle_Qle in H. pose proof (scaled_value a b) as S.
  pose proof (Qpow2_pos e). assert (0 < inject_Z D) by (rewrite Zlt_Qlt in HD; exact HD).
  nra.
Qed.

Lemma transfer_ge a b :
  (b * N <= a * (D * 2 ^ n))%Z -> inject_Z b * v <= inject_Z a * Qpow2 (e + n).
Proof.
  intros H. rewrite Zle_Qle in H. pose proof (scaled_value a b) as S.
  pose proof (Qpow2_pos e). assert (0 < inject_Z D) by (rewrite Zlt_Qlt in HD; exact HD).
  nra.
Qed.

Lemma transfer_gt a b :
  (b * N < a * (D * 2 ^ n))%Z -> inject_Z b * v < inject_Z a * Qpow2 (e + n).
Proof.
  intros H. rewrite Zlt_Qlt in H. pose proof (scaled_value a b) as S.
  pose proof (Qpow2_pos e). assert (0 < inject_Z D) by (rewrite Zlt_Qlt in HD; exact HD).
  nra.
Qed.

Lemma transfer_eq a b :
  inject_Z b * v == inject_Z a * Qpow2 (e + n) -> (b * N = a * (D * 2 ^ n))%Z.
Proof.
  intros H. pose proof (scaled_value a b) as S.
  pose proof (Qpow2_pos e) as Hw.
  assert (inject_Z b * v * inject_Z D == inject_Z a * Qpow2 (e + n) * inject_Z D) as H'
    by (rewrite H; reflexivity).
  assert ((inject_Z (b * N) - inject_Z (a * (D * 2 ^ n))) * Qpow2 e == 0) as Z0 by lra.
  apply Qmult_integral in Z0 as [Z0|Z0]; [|lra].
  apply inject_Z_injective. lra.
Qed.

(** The integer rounding of [N / (D 2^n)] is the rounding of [v]. *)
Lemma rounds_to_of_rne :
  (0 < N)%Z ->
  (2 ^ 52 <= N / (D * 2 ^ n) < 2 ^ 53)%Z ->
  rounds_to v (rne_div N (D * 2 ^ n)) (e + n).
Proof.
  intros HN Hq.
  assert (0 < D * 2 ^ n)%Z as HD' by (apply Z.mul_pos_pos; [lia|apply Z.pow_pos_nonneg; lia]).
  pose proof (Z.div_mod N (D * 2 ^ n) ltac:(lia)) as Hdm.
  pose proof (Z.mod_pos_bound N (D * 2 ^ n) HD') as Hr.
  destruct (rne_div_spec N (D * 2 ^ n) ltac:(lia) HD') as ((Hl & Hu) & Tu & Tl).
  assert (1 * v == v) as One by ring.
  assert (inject_Z 2 * v == 2 * v) as Two by reflexivity.
  repeat split.
  - rewrite <- One. apply transfer_le. nia.
  - rewrite <- One. apply transfer_gt. nia.
  - rewrite <- Two. apply transfer_le. lia.
  - rewrite <- Two. apply transfer_ge. lia.
  - intros T. apply Tu. rewrite <- Two in T. apply transfer_eq in T. lia.
  - intros T. apply Tl. rewrite <- Two in T. apply transfer_eq in T. lia.
Qed.

End Transfer.

Lemma rounds_to_float_mono v1 m1 e1 v2 m2 e2 :
  rounds_to_float v1 m1 e1 -> rounds_to_float v2 m2 e2 -> v1 <= v2 ->
  fval m1 e1 <= fval m2 e2.
Proof.
  intros (M1 & E1 & R1 & V1) (M2 & E2 & R2 & V2) Hv.
  rewrite V1, V2. eapply rounds_to_mono; eauto.
Qed.

Lemma normal_float_spec M E :
  (2 ^ 52 <= M <= 2 ^ 53)%Z -> (E < 971)%Z ->
  exists m e,
    normal_float M E = S754_finite false m e
    /\ canonical m /\ (E <= e <= E + 1)%Z
    /\ fval m e == inject_Z M * Qpow2 E.
Proof.
  intros HM HE. unfold normal_float. change (emax - prec)%Z with 971%Z.
  destruct (Z.eqb_spec M (2 ^ 53)) as [->|Hne].
  - destruct (Z.leb_spec (E + 1) 971); [|lia].
    exists (Z.to_pos (2 ^ 52)), (E + 1)%Z. split; [reflexivity|].
    split; [unfold canonical; cbn; lia|]. split; [lia|].
    unfold fval. rewrite Qpow2_succ.
    change (inject_Z (2 ^ 53)) with (2 * inject_Z (2 ^ 52)).
    change (inject_Z (Zpos (Z.to_pos (2 ^ 52)))) with (inject_Z (2 ^ 52)). ring.
  - destruct (Z.leb_spec E 971); [|lia].
    exists (Z.to_pos M), E. split; [reflexivity|].
    assert (0 < M)%Z by lia.
    split; [unfold canonical; rewrite Z2Pos.id by lia; lia|]. split; [lia|].
    unfold fval. rewrite Z2Pos.id by lia. reflexivity.
Qed.

(** On canonical mantissas the float order is the order of the values. *)
Lemma leb_of_fval m1 e1 m2 e2 :
  canonical m1 -> canonical m2 -> fval m1 e1 <= fval m2 e2 ->
  leb (S754_finite false m1 e1) (S754_finite false m2 e2) = true.
Proof.
  unfold canonical, fval, leb, SFleb, SFcompare. intros C1 C2 Hv.
  pose proof (Qpow2_pos e1) as Hw1. pose proof (Qpow2_pos e2) as Hw2.
  assert (inject_Z (2 ^ 52) <= inject_Z (Zpos m1) /\ inject_Z (Zpos m1) < 2 * inject_Z (2 ^ 52))
    as [L1 U1] by (change (2 * inject_Z (2 ^ 52)) with (inject_Z (2 ^ 53));
                   rewrite <- Zle_Qle, <- Zlt_Qlt; lia).
  assert (inject_Z (2 ^ 52) <= inject_Z (Zpos m2) /\ inject_Z (Zpos m2) < 2 * inject_Z (2 ^ 52))
    as [L2 U2] by (change (2 * inject_Z (2 ^ 52)) with (inject_Z (2 ^ 53));
                   rewrite <- Zle_Qle, <- Zlt_Qlt; lia).
  assert (0 < inject_Z (2 ^ 52)) as H52 by reflexivity.
  destruct (Z.compare_spec e1 e2) as [Heq|Hlt|Hgt]; [|reflexivity|exfalso].
  - subst e2. apply inject_Z_le_inv in Hv; [|exact Hw1].
    fold (Pos.compare m1 m2). destruct (Pos.compare_spec m1 m2); try reflexivity. lia.
  - assert (2 * Qpow2 e2 <= Qpow2 e1) as Hstep
      by (rewrite <- Qpow2_succ; apply Qpow2_le; lia).
    nra.
Qed.

(** ** The operations *)

(** Rounding a positive fraction with at least 53 quotient bits, in the
    normal range: the result is the canonical float nearest to the value. *)
Lemma round_aux_float N D e v :
  (0 < N)%Z -> (0 < D)%Z ->
  (53 <= Zdigits2 (N / D))%Z ->
  (-1074 <= e + Zdigits2 (N / D) - 53)%Z ->
  (e + Zdigits2 (N / D) - 53 < 971)%Z ->
  v * inject_Z D == inject_Z N * Qpow2 e ->
  exists m e',
    binary_round_aux prec emax false (N / D) e (locate N D) = S754_finite false m e'
    /\ canonical m
    /\ (e + Zdigits2 (N / D) - 53 <= e' <= e + Zdigits2 (N / D) - 52)%Z
    /\ rounds_to_float v m e'.
Proof.
  intros HN HD Hdig Hmin Hmax Hv.
  rewrite binary_round_aux_correct by assumption.
  assert (0 < N / D)%Z as Hm.
  { pose proof (Z.div_pos N D ltac:(lia) HD). destruct (N / D)%Z; cbn in Hdig; lia. }
  remember (Zdigits2 (N / D) - 53)%Z as n eqn:En.
  assert (0 <= n)%Z as Hn by lia.
  assert (2 ^ 52 <= N / (D * 2 ^ n) < 2 ^ 53)%Z as Hq.
  { rewrite <- Z.div_div by (try lia; apply Z.pow_pos_nonneg; lia).
    apply div_pow2_digits; lia. }
  pose proof (rounds_to_of_rne v N D e n HD Hn Hv HN Hq) as R.
  pose proof (rounds_to_bounds _ _ _ R) as B.
  destruct (normal_float_spec (rne_div N (D * 2 ^ n)) (e + n) B ltac:(lia))
    as (m & e' & -> & Hc & He' & Hval).
  exists m, e'. split; [reflexivity|]. split; [exact Hc|]. split; [lia|].
  exists (rne_div N (D * 2 ^ n)), (e + n)%Z. split; assumption.
Qed.

Lemma Pos_iter_xO mx k : Zpos (Pos.iter xO mx k) = (Zpos mx * 2 ^ Zpos k)%Z.
Proof.
  induction k as [|k IH] using Pos.peano_ind.
  - cbn [Pos.iter]. rewrite Pos2Z.inj_xO. change (2 ^ 1)%Z with 2%Z. lia.
  - rewrite Pos.iter_succ, Pos2Z.inj_xO, IH, Pos2Z.inj_succ, Z.pow_succ_r by lia. lia.
Qed.

Lemma shl_align_spec mx ex ex' :
  exists k,
    (0 <= k)%Z /\ k = Z.max 0 (ex - ex')
    /\ Zpos (fst (shl_align mx ex ex')) = (Zpos mx * 2 ^ k)%Z
    /\ snd (shl_align mx ex ex') = (ex - k)%Z.
Proof.
  unfold shl_align. destruct (ex' - ex)%Z as [|d|d] eqn:Ed.
  - exists 0%Z. cbn [fst snd]. rewrite Z.pow_0_r. lia.
  - exists 0%Z. cbn [fst snd]. rewrite Z.pow_0_r. lia.
  - exists (Zpos d). cbn [fst snd]. rewrite Pos_iter_xO. lia.
Qed.

Lemma Zdigits2_shift m k :
  (0 < m)%Z -> (0 <= k)%Z -> Zdigits2 (m * 2 ^ k) = (Zdigits2 m + k)%Z.
Proof.
  intros Hm Hk. pose proof (Zdigits2_bounds m Hm) as [Hlo Hhi].
  pose proof (Zdigits2_pos m Hm) as Hd.
  assert (0 < 2 ^ k)%Z by (apply Z.pow_pos_nonneg; lia).
  apply Zdigits2_unique; [lia|].
  replace (Zdigits2 m + k - 1)%Z with ((Zdigits2 m - 1) + k)%Z by lia.
  rewrite !Z.pow_add_r by lia. nia.
Qed.

(** Normalising a positive mantissa and exponent. *)
Lemma binary_round_float mx ex v :
  (-1074 <= Zdigits2 (Zpos mx) + ex - 53)%Z ->
  (Zdigits2 (Zpos mx) + ex - 53 < 971)%Z ->
  v == fval mx ex ->
  exists m e,
    binary_round prec emax false mx ex = S754_finite false m e
    /\ canonical m
    /\ (Zdigits2 (Zpos mx) + ex - 53 <= e <= Zdigits2 (Zpos mx) + ex - 52)%Z
    /\ rounds_to_float v m e.
Proof.
  intros Hmin Hmax Hv. unfold binary_round.
  change (Zpos (digits2_pos mx)) with (Zdigits2 (Zpos mx)).
  rewrite fexp_normal by lia.
  destruct (shl_align_spec mx ex (Zdigits2 (Zpos mx) + ex - 53)) as (k & Hk & Ek & Hmz & Hez).
  destruct (shl_align mx ex (Zdigits2 (Zpos mx) + ex - 53)) as [mz ez]. cbn [fst snd] in *.
  assert (Zdigits2 (Zpos mz) = Zdigits2 (Zpos mx) + k)%Z as Hdz
    by (rewrite Hmz; apply Zdigits2_shift; lia).
  pose proof (Zdigits2_pos (Zpos mx) ltac:(lia)) as Hdpos.
  pose proof (round_aux_float (Zpos mz) 1 ez v) as H.
  rewrite Z.div_1_r, locate_one in H.
  destruct H as (m & e & -> & Hc & He & R); try lia.
  - unfold fval in Hv. rewrite Hv, Hmz, Hez, inject_Z_mult.
    replace ex with ((ex - k) + k)%Z at 1 by lia.
    rewrite Qpow2_add, (Qpow2_Z k Hk). change (inject_Z 1) with 1. ring.
  - exists m, e. split; [reflexivity|]. split; [exact Hc|]. split; [lia|exact R].
Qed.

Lemma of_int_float z :
  (0 < z < 2 ^ 63)%Z ->
  exists m e,
    of_int z = S754_finite false m e
    /\ canonical m /\ (-52 <= e <= 11)%Z
    /\ rounds_to_float (inject_Z z) m e.
Proof.
  intros [Hz Hz']. destruct z as [|p|p]; try lia.
  unfold of_int, binary_normalize.
  pose proof (Zdigits2_bounds (Zpos p) ltac:(lia)) as [Hlo Hhi].
  pose proof (Zdigits2_pos (Zpos p) ltac:(lia)) as Hd.
  assert (Zdigits2 (Zpos p) <= 63)%Z as Hd'.
  { destruct (Z_le_gt_dec (Zdigits2 (Zpos p)) 63) as [H|H]; [exact H|].
    assert (2 ^ 63 <= 2 ^ (Zdigits2 (Zpos p) - 1))%Z by (apply Z.pow_le_mono_r; lia). lia. }
  destruct (binary_round_float p 0 (inject_Z (Zpos p))) as (m & e & E & Hc & He & R); try lia.
  - unfold fval. change (Qpow2 0) with 1. ring.
  - exists m, e. split; [exact E|]. split; [exact Hc|]. split; [lia|exact R].
Qed.

Lemma new_location_locate N D :
  (0 < D)%Z -> new_location D (N mod D) = locate N D.
Proof.
  intros HD. unfold new_location, new_location_even, new_location_odd, locate.
  remember (N mod D)%Z as r eqn:Er. clear Er.
  change (IntDef.Z.eqb r 0) with (Z.eqb r 0).
  change (IntDef.Z.even D) with (Z.even D).
  destruct (Z.even D) eqn:Ev; cbv beta; [reflexivity|].
  destruct (Z.eqb r 0); [reflexivity|].
  assert (Z.odd D = true) as Hodd by (rewrite <- Z.negb_even, Ev; reflexivity).
  apply Z.odd_spec in Hodd as [j Hj]. f_equal.
  change (IntDef.Z.compare (IntDef.Z.add (IntDef.Z.mul 2 r) 1) D) with (Z.compare (2 * r + 1) D).
  destruct (Z.compare_spec (2 * r + 1) D), (Z.compare_spec (2 * r) D); try reflexivity; lia.
Qed.

Lemma div_float mx ex my ey v :
  canonical mx -> canonical my ->
  (-1000 <= ex - ey <= 1000)%Z ->
  v * fval my ey == fval mx ex ->
  exists m e,
    div (S754_finite false mx ex) (S754_finite false my ey) = S754_finite false m e
    /\ canonical m /\ (ex - ey - 53 <= e <= ex - ey - 51)%Z
    /\ rounds_to_float v m e.
Proof.
  unfold canonical. intros Cx Cy He Hv.
  assert (Zdigits2 (Zpos mx) = 53)%Z as Hdx by (apply Zdigits2_unique; lia).
  assert (Zdigits2 (Zpos my) = 53)%Z as Hdy by (apply Zdigits2_unique; lia).
  unfold div, SFdiv, SFdiv_core_binary. rewrite Hdx, Hdy.
  replace (53 + ex - (53 + ey))%Z with (ex - ey)%Z by lia.
  rewrite fexp_normal by lia.
  replace (Z.min (ex - ey - 53) (ex - ey)) with (ex - ey - 53)%Z by lia.
  replace (ex - ey - (ex - ey - 53))%Z with 53%Z by lia.
  rewrite Z.shiftl_mul_pow2 by lia.
  remember (Zpos mx * 2 ^ 53)%Z as N eqn:EN.
  assert (Z.div_eucl N (Zpos my) = (N / Zpos my, N mod Zpos my)%Z) as ->
    by (unfold Z.div, Z.modulo; destruct (Z.div_eucl N (Zpos my)); reflexivity).
  rewrite new_location_locate by lia. cbn [xorb].
  assert (2 ^ 52 <= N / Zpos my < 2 ^ 54)%Z as Hq.
  { split.
    - apply Z.div_le_lower_bound; lia.
    - apply Z.div_lt_upper_bound; lia. }
  assert (53 <= Zdigits2 (N / Zpos my) <= 54)%Z as Hdq.
  { destruct (Z_lt_ge_dec (N / Zpos my) (2 ^ 53)) as [H|H].
    - rewrite (Zdigits2_unique (N / Zpos my) 53); lia.
    - rewrite (Zdigits2_unique (N / Zpos my) 54); lia. }
  destruct (round_aux_float N (Zpos my) (ex - ey - 53) v) as (m & e & -> & Hc & He' & R);
    try lia.
  - unfold fval in Hv. rewrite EN, inject_Z_mult.
    assert (Qpow2 ex == Qpow2 (ex - ey - 53) * inject_Z (2 ^ 53) * Qpow2 ey) as Hex.
    { rewrite <- (Qpow2_Z 53) by lia. rewrite <- !Qpow2_add. f_equiv. lia. }
    pose proof (Qpow2_pos ey) as Hwy.
    assert (v * inject_Z (Zpos my) * Qpow2 ey
            == inject_Z (Zpos mx) * inject_Z (2 ^ 53) * Qpow2 (ex - ey - 53) * Qpow2 ey) as Hs.
    { rewrite <- Qmult_assoc, Hv, Hex. ring. }
    apply Qmult_inj_r in Hs; [exact Hs|lra].
  - exists m, e. split; [reflexivity|]. split; [exact Hc|]. split; [lia|exact R].
Qed.

Lemma mul_float mx ex my ey v :
  canonical mx -> canonical my ->
  (-1000 <= ex + ey <= 800)%Z ->
  v == fval mx ex * fval my ey ->
  exists m e,
    mul (S754_finite false mx ex) (S754_finite false my ey) = S754_finite false m e
    /\ canonical m /\ (ex + ey + 52 <= e <= ex + ey + 54)%Z
    /\ rounds_to_float v m e.
Proof.
  unfold canonical. intros Cx Cy He Hv.
  unfold mul, SFmul. cbn [xorb].
  assert (2 ^ 104 <= Zpos (mx * my) < 2 ^ 106)%Z as Hp.
  { rewrite Pos2Z.inj_mul. change (2 ^ 104)%Z with (2 ^ 52 * 2 ^ 52)%Z.
    change (2 ^ 106)%Z with (2 ^ 53 * 2 ^ 53)%Z. nia. }
  assert (105 <= Zdigits2 (Zpos (mx * my)) <= 106)%Z as Hd.
  { destruct (Z_lt_ge_dec (Zpos (mx * my)) (2 ^ 105)) as [H|H].
    - rewrite (Zdigits2_unique (Zpos (mx * my)) 105); lia.
    - rewrite (Zdigits2_unique (Zpos (mx * my)) 106); lia. }
  pose proof (round_aux_float (Zpos (mx * my)) 1 (ex + ey) v) as H.
  rewrite Z.div_1_r, locate_one in H.
  destruct H as (m & e & -> & Hc & He' & R); try lia.
  - rewrite Hv. unfold fval. rewrite Pos2Z.inj_mul, inject_Z_mult, Qpow2_add.
    change (inject_Z 1) with 1. ring.
  - exists m, e. split; [reflexivity|]. split; [exact Hc|]. split; [lia|exact R].
Qed.

(** ** The complaint rate *)

Lemma fval_pos m e : 0 < fval m e.
Proof.
  unfold fval. pose proof (Qpow2_pos e).
  assert (0 < inject_Z (Zpos m)) by reflexivity. nra.
Qed.

Lemma of_int_1000 :
  of_int 1000 = S754_finite false 8796093022208000 (-43) /\ canonical 8796093022208000.
Proof. split; [reflexivity|]. unfold canonical. cbn. lia. Qed.

(** The three roundings behind the rate of a positive count. *)
Lemma rate_chain (c : nat) (pop : Z) mp ep :
  of_int pop = S754_finite false mp ep -> canonical mp -> (-52 <= ep <= 11)%Z ->
  (0 < Z.of_nat c < 2 ^ 63)%Z ->
  exists mc ec mq eq mr er,
    rounds_to_float (inject_Z (Z.of_nat c)) mc ec
    /\ rounds_to_float (fval mc ec / fval mp ep) mq eq
    /\ rounds_to_float (fval mq eq * fval 8796093022208000 (-43)) mr er
    /\ canonical mr
    /\ rate_per_1000 c pop = S754_finite false mr er.
Proof.
  intros Hp Cp Hep Hc. unfold rate_per_1000. rewrite Hp.
  destruct (of_int_float (Z.of_nat c) Hc) as (mc & ec & -> & Cc & Hec & Rc).
  destruct (div_float mc ec mp ep (fval mc ec / fval mp ep) Cc Cp) as (mq & eq & -> & Cq & Heq & Rq);
    [lia| |].
  { pose proof (fval_pos mp ep). field. lra. }
  destruct of_int_1000 as [-> Ck].
  destruct (mul_float mq eq 8796093022208000 (-43) (fval mq eq * fval 8796093022208000 (-43))
              Cq Ck) as (mr & er & -> & Cr & Her & Rr); [lia|reflexivity|].
  exists mc, ec, mq, eq, mr, er.
  split; [exact Rc|]. split; [exact Rq|]. split; [exact Rr|]. split; [exact Cr|reflexivity].
Qed.

Lemma rate_zero_count pop mp ep :
  of_int pop = S754_finite false mp ep -> rate_per_1000 0 pop = S754_zero false.
Proof. intros Hp. unfold rate_per_1000. rewrite Hp. reflexivity. Qed.

(** For a fixed positive population the rate is non-decreasing in the count. *)
Lemma rate_per_1000_monotone (c1 c2 : nat) (pop : Z) :
  (0 < pop < 2 ^ 63)%Z -> (c1 <= c2)%nat -> (Z.of_nat c2 < 2 ^ 63)%Z ->
  leb (rate_per_1000 c1 pop) (rate_per_1000 c2 pop) = true.
Proof.
  intros Hpop Hle Hc2.
  destruct (of_int_float pop Hpop) as (mp & ep & Hp & Cp & Hep & _).
  destruct c2 as [|c2].
  - assert (c1 = 0)%nat as -> by lia. rewrite (rate_zero_count pop mp ep Hp). reflexivity.
  - destruct (rate_chain (S c2) pop mp ep Hp Cp Hep ltac:(lia))
      as (mc2 & ec2 & mq2 & eq2 & mr2 & er2 & Rc2 & Rq2 & Rr2 & Cr2 & ->).
    destruct c1 as [|c1].
    + rewrite (rate_zero_count pop mp ep Hp). reflexivity.
    + destruct (rate_chain (S c1) pop mp ep Hp Cp Hep ltac:(lia))
        as (mc1 & ec1 & mq1 & eq1 & mr1 & er1 & Rc1 & Rq1 & Rr1 & Cr1 & ->).
      apply leb_of_fval; [exact Cr1|exact Cr2|].
      assert (fval mc1 ec1 <= fval mc2 ec2) as H1.
      { eapply rounds_to_float_mono; [exact Rc1|exact Rc2|]. rewrite <- Zle_Qle. lia. }
      assert (fval mq1 eq1 <= fval mq2 eq2) as H2.
      { eapply rounds_to_float_mono; [exact Rq1|exact Rq2|].
        pose proof (fval_pos mp ep) as Hpos.
        apply Qmult_le_r with (z := fval mp ep); [exact Hpos|].
        assert (fval mc1 ec1 / fval mp ep * fval mp ep == fval mc1 ec1) as -> by (field; lra).
        assert (fval mc2 ec2 / fval mp ep * fval mp ep == fval mc2 ec2) as -> by (field; lra).
        exact H1. }
      eapply rounds_to_float_mono; [exact Rr1|exact Rr2|].
      pose proof (fval_pos 8796093022208000 (-43)). nra.
Qed.

(** Conversion of a positive integer never gives a zero or a NaN. *)
Lemma of_int_positive_shape z :
  (0 < z)%Z ->
  (exists m e, of_int z = S754_finite false m e) \/ of_int z = S754_infinity false.
Proof.
  intros Hz. destruct z as [|p|p]; try lia.
  unfold of_int, binary_normalize, binary_round.
  change (Zpos (digits2_pos p)) with (Zdigits2 (Zpos p)).
  pose proof (Zdigits2_pos (Zpos p) ltac:(lia)) as Hd.
  rewrite Z.add_0_r, fexp_normal by lia.
  destruct (shl_align_spec p 0 (Zdigits2 (Zpos p) - 53)) as (k & Hk & Ek & Hmz & Hez).
  destruct (shl_align p 0 (Zdigits2 (Zpos p) - 53)) as [mz ez]. cbn [fst snd] in *.
  assert (Zdigits2 (Zpos mz) = Zdigits2 (Zpos p) + k)%Z as Hdz
    by (rewrite Hmz; apply Zdigits2_shift; lia).
  pose proof (binary_round_aux_correct (Zpos mz) 1 ez) as H.
  rewrite Z.div_1_r, locate_one in H. rewrite H by lia. clear H.
  unfold normal_float.
  destruct (_ <=? _)%Z; [left; eauto|right; reflexivity].
Qed.

Lemma rate_zero_population (c : nat) :
  rate_per_1000 c 0 = if Nat.eqb c 0 then nan else pos_inf.
Proof.
  destruct c as [|c]; [reflexivity|]. cbn [Nat.eqb]. unfold rate_per_1000.
  destruct (of_int_positive_shape (Z.of_nat (S c)) ltac:(lia)) as [(m & e & ->)| ->];
    reflexivity.
Qed.

(** ** Zero population (C4) *)

(** C4 (zero population): the aggregation never raises, and for a tract
    with population 0 the rate is not a number when the tract has no
    complaint and positive infinity when it has at least one; it is never
    zero and never finite. *)
Theorem C4_zero_population_rate joined census w :
  exists agg w',
    aggregate_by_census_tract joined census w = (inr agg, w')
    /\ forall a, In a agg -> population (tract a) = 0%Z ->
         complaint_rate a = (if Nat.eqb (complaint_count a) 0 then nan else pos_inf)
         /\ is_zero (complaint_rate a) = false
         /\ is_finite (complaint_rate a) = false.
Proof.
  rewrite aggregate_run. do 2 eexists. split; [reflexivity|].
  intros a Ha Hpop. rewrite aggregate_rows_eq in Ha.
  apply List.in_map_iff in Ha as (t & <- & _). cbn [tract complaint_count complaint_rate] in *.
  rewrite Hpop, rate_zero_population.
  destruct (Nat.eqb (count_rows (GEOID t) joined) 0); repeat split; reflexivity.
Qed.

(** C4 with a matched complaint: a tract with population 0 and one matched
    complaint gets [complaint_count] 1 and the rate +infinity, which is not
    a NaN. *)
Lemma C4_infinite_rate_counterexample :
  exists joined w1 agg w2,
    spatial_join_with_census ring_within overlap_complaints [uninhabited_tract] empty_world
      = (inr joined, w1)
    /\ aggregate_by_census_tract joined [uninhabited_tract] w1 = (inr agg, w2)
    /\ List.map complaint_count agg = [1%nat]
    /\ List.map complaint_rate agg = [S754_infinity false]
    /\ List.map (fun a => is_nan (complaint_rate a)) agg = [false].
Proof.
  destruct (join_then_aggregate ring_within overlap_complaints [uninhabited_tract] empty_world)
    as (w1 & w2 & Hj & _ & Ha); [discriminate|].
  do 4 eexists. split; [exact Hj|]. split; [exact Ha|].
  vm_compute. repeat split.
Qed.

(** ** Monotonicity of the rate (C10) *)

(** C10: among the aggregated rows, for one and the same positive [int64]
    population, a row with a greater or equal [complaint_count] has a
    greater or equal [complaint_rate], in the order of binary64. *)
Theorem C10_rate_monotone joined census w agg w' a1 a2 :
  aggregate_by_census_tract joined census w = (inr agg, w') ->
  In a1 agg -> In a2 agg ->
  population (tract a1) = population (tract a2) ->
  (0 < population (tract a1) < 2 ^ 63)%Z ->
  (complaint_count a1 <= complaint_count a2)%nat ->
  (Z.of_nat (complaint_count a2) < 2 ^ 63)%Z ->
  leb (complaint_rate a1) (complaint_rate a2) = true.
Proof.
  rewrite aggregate_run. intros Hrun H1 H2 Hpop Hrange Hle Hbound.
  injection Hrun as <- _. rewrite aggregate_rows_eq in H1, H2.
  apply List.in_map_iff in H1 as (t1 & <- & _).
  apply List.in_map_iff in H2 as (t2 & <- & _).
  cbn [tract complaint_count complaint_rate] in *.
  rewrite <- Hpop. apply rate_per_1000_monotone; assumption.
Qed.

Lemma C10_twin_tracts_witness :
  (0 < 2000 < 2 ^ 63)%Z
  /\ List.map complaint_count (aggregate_rows twin_joined twin_census) = [0%nat; 1%nat]
  /\ leb (rate_per_1000 0 2000) (rate_per_1000 1 2000) = true.
Proof.
  split; [lia|]. split; [vm_compute; reflexivity|].
  refine (C10_rate_monotone twin_joined twin_census empty_world
            (aggregate_rows twin_joined twin_census) _
            (mkAggregated (mkTract "36061000600" "Census Tract 6" 2000 unit_square) 0
               (rate_per_1000 0 2000))
            (mkAggregated (mkTract "36061000700" "Census Tract 7" 2000 unit_square) 1
               (rate_per_1000 1 2000))
            (aggregate_run twin_joined twin_census empty_world) _ _ _ _ _ _).
  - left. vm_compute. reflexivity.
  - right. left. vm_compute. reflexivity.
  - reflexivity.
  - cbn. lia.
  - cbn. lia.
  - cbn. lia.
Defined.

(** * Further properties of the code *)

Local Open Scope Z_scope.

(** ** The keyword filter *)

Example flood_pattern_text :
  flood_pattern = "flood|water|sewer|drain|basin|wet|leak|plumb"%string
  /\ alternatives flood_pattern = flood_keywords.
Proof. split; reflexivity. Qed.

Example lower_mixed_case : str_lower "Street FLOODING" = "street flooding"%string.
Proof. reflexivity. Qed.

Lemma append_cons a s t : String a s +:+ t = String a (s +:+ t).
Proof. reflexivity. Qed.

Lemma prefix_occurs needle hay :
  String.prefix needle hay = true <-> exists post, hay = needle +:+ post.
Proof.
  revert hay. induction needle as [|a needle IH]; intros hay.
  - split; [intros _; exists hay; reflexivity | intros _; destruct hay; reflexivity].
  - destruct hay as [|b hay]; cbn.
    + split; [discriminate | intros [post H]; rewrite append_cons in H; discriminate].
    + destruct (Ascii.ascii_dec a b) as [->|Hne].
      * rewrite IH. split; intros [post H]; exists post; rewrite append_cons in *; congruence.
      * split; [discriminate | intros [post H]; rewrite append_cons in H; congruence].
Qed.

Lemma is_substring_occurs needle hay :
  is_substring needle hay = true <-> occurs_in needle hay.
Proof.
  unfold occurs_in. induction hay as [|b hay IH]; cbn [is_substring].
  - destruct (String.prefix needle EmptyString) eqn:E.
    + split; [intros _|reflexivity].
      apply prefix_occurs in E as [post E]. exists EmptyString, post. exact E.
    + split; [discriminate|]. intros (pre & post & H).
      destruct pre as [|a pre]; [|rewrite append_cons in H; discriminate H].
      assert (String.prefix needle EmptyString = true) by (apply prefix_occurs; eauto).
      congruence.
  - destruct (String.prefix needle (String b hay)) eqn:E.
    + split; [intros _|reflexivity].
      apply prefix_occurs in E as [post E]. exists EmptyString, post. exact E.
    + rewrite IH. split.
      * intros (pre & post & ->). exists (String b pre), post. reflexivity.
      * intros (pre & post & H). destruct pre as [|a pre]; [|rewrite append_cons in H].
        -- assert (String.prefix needle (String b hay) = true) by (apply prefix_occurs; eauto).
           congruence.
        -- injection H as -> ->. eauto.
Qed.

Lemma flood_mask_spec c :
  flood_mask c = true <->
  exists kw, In kw flood_keywords /\ occurs_in kw (str_lower (Complaint_Type c)).
Proof.
  unfold flood_mask, str_contains.
  replace (alternatives flood_pattern) with flood_keywords by reflexivity.
  rewrite existsb_exists. split; intros (kw & Hin & H); exists kw; split; auto;
    now apply is_substring_occurs.
Qed.

Lemma filter_run df w :
  filter_flood_complaints df w =
    (inr (List.filter flood_mask df),
     mkWorld
       (<[flood_complaints_path := CsvFile (frame_of_complaints (List.filter flood_mask df))]>
          (files w))
       (dirs w)
       (stdout w ++ [Text "Filtering for flood-related complaints...";
                     Text ("Found " +:+ pretty (length (List.filter flood_mask df))
                           +:+ " flood-related complaints out of "
                           +:+ pretty (length df) +:+ " total complaints")])
       (log w) (rng w)).
Proof.
  unfold filter_flood_complaints, bind, print, write_file, ret. cbn.
  rewrite <- app_assoc. reflexivity.
Qed.

Lemma filter_sublist {A} (f : A -> bool) (l : list A) : sublist (List.filter f l) l.
Proof.
  induction l as [|a l IH]; cbn; [constructor|].
  destruct (f a); now constructor.
Qed.

(** X1: on a table with at least one row, whose complaint types are
    strings, [filter_flood_complaints] does not raise. It returns, in
    their order, the rows whose complaint type, put in lower case, contains
    one of the eight keywords somewhere, and no other row; the same table
    is what it stores under [flood_complaints_2019.csv]. *)
Theorem filter_keeps_the_keyword_rows complaints_df w :
  complaints_df <> [] ->
  exists flood w',
    filter_flood_complaints complaints_df w = (inr flood, w')
    /\ sublist flood complaints_df
    /\ (forall c, In c flood <->
          In c complaints_df
          /\ exists kw, In kw flood_keywords /\ occurs_in kw (str_lower (Complaint_Type c)))
    /\ files w' !! flood_complaints_path = Some (CsvFile (frame_of_complaints flood)).
Proof.
  intros _. rewrite filter_run. do 2 eexists. split; [reflexivity|].
  split; [apply filter_sublist|]. split.
  - intros c. rewrite filter_In, flood_mask_spec. reflexivity.
  - cbn. apply lookup_insert_eq.
Qed.

Lemma filter_keeps_the_keyword_rows_witness :
  sample_rows <> []
  /\ exists w',
       filter_flood_complaints sample_rows empty_world =
         (inr [mkComplaint 2 "Water Leak" (dec 407 10) (dec (-74) 1)], w').
Proof.
  assert (H : sample_rows <> []) by discriminate.
  split; [exact H|].
  destruct (filter_keeps_the_keyword_rows sample_rows empty_world H)
    as (flood & w' & E & _).
  exists w'. rewrite E. do 2 f_equal.
  rewrite filter_run in E. injection E as <- _. vm_compute. reflexivity.
Defined.

Lemma sample_types_masked :
  Forall (fun s => str_contains flood_pattern (str_lower s) =
                   bool_decide (s ∈ flood_complaint_types))
         (flood_complaint_types ++ other_complaint_types).
Proof. repeat constructor. Qed.

(** X2: on a table whose complaint types all come from the two lists of
    the sample generator, the filter keeps exactly the rows whose type was
    taken from [flood_complaint_types]: each of those eleven types matches
    a keyword and none of the eleven [other_complaint_types] does. *)
Theorem filter_separates_the_sample_types complaints_df w :
  Forall (fun c => In (Complaint_Type c) (flood_complaint_types ++ other_complaint_types))
         complaints_df ->
  fst (filter_flood_complaints complaints_df w) =
    inr (List.filter (fun c => bool_decide (Complaint_Type c ∈ flood_complaint_types))
           complaints_df).
Proof.
  intros H. rewrite filter_run. cbn [fst]. f_equal.
  apply List.filter_ext_in. intros c Hc.
  rewrite List.Forall_forall in H. specialize (H c Hc).
  pose proof sample_types_masked as HM. rewrite List.Forall_forall in HM.
  exact (HM _ H).
Qed.

Lemma filter_separates_the_sample_types_witness :
  Forall (fun c => In (Complaint_Type c) (flood_complaint_types ++ other_complaint_types))
         sample_rows
  /\ fst (filter_flood_complaints sample_rows empty_world) =
       inr [mkComplaint 2 "Water Leak" (dec 407 10) (dec (-74) 1)].
Proof.
  assert (H : Forall (fun c => In (Complaint_Type c)
                                  (flood_complaint_types ++ other_complaint_types))
                     sample_rows).
  { unfold sample_rows.
    repeat (apply List.Forall_cons;
            [cbv beta; cbn [Complaint_Type]; vm_compute;
             repeat (first [left; reflexivity | right])|]).
    apply List.Forall_nil. }
  split; [exact H|].
  rewrite (filter_separates_the_sample_types sample_rows empty_world H).
  vm_compute. reflexivity.
Defined.

(** ** The three steps of the main block *)

Lemma count_rows_app g a b :
  count_rows g (a ++ b) = (count_rows g a + count_rows g b)%nat.
Proof. unfold count_rows. now rewrite List.filter_app, List.length_app. Qed.

Lemma count_rows_matched g k c p ms :
  count_rows g (dropna_GEOID (List.map (fun m => mkJoined k c p (Some m)) ms)) =
    count_matches g ms.
Proof.
  unfold count_rows, count_matches, dropna_GEOID.
  induction ms as [|[j t] ms IH]; [reflexivity|].
  cbn [List.map List.filter row_GEOID right_match isna negb has_GEOID snd].
  unfold has_GEOID at 1. cbn [row_GEOID right_match].
  destruct (decide (GEOID t = g)) as [E|E].
  - rewrite !bool_decide_eq_true_2 by congruence. cbn [length]. f_equal. exact IH.
  - rewrite !bool_decide_eq_false_2 by congruence. exact IH.
Qed.

Lemma count_rows_sjoin_rows within g k c census :
  count_rows g (dropna_GEOID (sjoin_rows within (k, c) census)) =
    containing_with_id within g census c.
Proof.
  unfold containing_with_id. rewrite <- count_matches_enumerate with (k := 0%nat).
  fold (matching_tracts within (points_from_xy c) census).
  unfold sjoin_rows. cbn [fst snd].
  destruct (matching_tracts within (points_from_xy c) census) as [|m ms] eqn:E.
  - reflexivity.
  - apply count_rows_matched.
Qed.

Lemma count_rows_sjoin_from within g census cs k :
  count_rows g
    (dropna_GEOID
       (List.flat_map (fun ic => sjoin_rows within ic census) (enumerate_from k cs))) =
    sum_list (List.map (containing_with_id within g census) cs).
Proof.
  revert k. induction cs as [|c cs IH]; intros k; [reflexivity|].
  cbn [enumerate_from List.flat_map List.map sum_list sum_list_with].
  rewrite dropna_app, count_rows_app, count_rows_sjoin_rows, IH. reflexivity.
Qed.

Lemma count_rows_sjoin within g census cs :
  count_rows g (dropna_GEOID (sjoin_left_within within cs census)) =
    sum_list (List.map (containing_with_id within g census) cs).
Proof. apply count_rows_sjoin_from. Qed.

Lemma spatial_join_empty_run within census w :
  spatial_join_with_census within [] census w =
    (inl (ZeroDivisionError "division by zero"),
     mkWorld (files w) (dirs w)
       (stdout w ++ [Text "Performing spatial join with census tracts..."]) (log w) (rng w)).
Proof. reflexivity. Qed.

Lemma filter_join_aggregate_run within cs census w :
  List.filter flood_mask cs <> [] ->
  exists w',
    filter_join_aggregate within cs census w =
      (inr (aggregate_rows
              (dropna_GEOID (sjoin_left_within within (List.filter flood_mask cs) census))
              census), w').
Proof.
  intros Hne. unfold filter_join_aggregate, bind. rewrite filter_run.
  match goal with |- context [spatial_join_with_census _ _ _ ?w1] =>
    destruct (spatial_join_run within (List.filter flood_mask cs) census w1 Hne) as [pct ->]
  end.
  rewrite aggregate_run. eexists. reflexivity.
Qed.

(** X3: when at least one complaint is flood-related and the flood-related
    complaints have finite points, filtering, joining and aggregating
    succeed and return every tract, in order, with as [complaint_count]
    the number of pairs of a flood-related complaint and a tract that
    carries the same id and contains the complaint's point, and with the
    rate computed from that count. *)
Theorem pipeline_counts_flood_complaints within complaints_df census_gdf w :
  (exists c, In c complaints_df /\ flood_mask c = true) ->
  finite_points (List.filter flood_mask complaints_df) = true ->
  exists w',
    filter_join_aggregate within complaints_df census_gdf w =
      (inr (List.map
              (fun t =>
                 let n := sum_list
                            (List.map (containing_with_id within (GEOID t) census_gdf)
                               (List.filter flood_mask complaints_df)) in
                 mkAggregated t n (rate_per_1000 n (population t)))
              census_gdf), w').
Proof.
  intros (c & Hc & Hm) _.
  assert (Hne : List.filter flood_mask complaints_df <> []).
  { intros E. assert (Hin : In c (List.filter flood_mask complaints_df))
      by (apply filter_In; auto).
    rewrite E in Hin. destruct Hin. }
  destruct (filter_join_aggregate_run within complaints_df census_gdf w Hne) as [w' ->].
  exists w'. f_equal. f_equal. rewrite aggregate_rows_eq.
  apply List.map_ext. intros t. cbn zeta. now rewrite count_rows_sjoin.
Qed.

Lemma pipeline_counts_flood_complaints_witness :
  (exists c, In c square_rows /\ flood_mask c = true)
  /\ finite_points (List.filter flood_mask square_rows) = true
  /\ exists w',
       filter_join_aggregate ring_within square_rows [scenario_tract] empty_world =
         (inr [mkAggregated scenario_tract 2 (of_int 1)], w').
Proof.
  assert (H : exists c, In c square_rows /\ flood_mask c = true).
  { exists (mkComplaint 2 "Water Leak" (dec 2 10) (dec 2 10)).
    split; [cbn; tauto | reflexivity]. }
  assert (F : finite_points (List.filter flood_mask square_rows) = true)
    by (vm_compute; reflexivity).
  split; [exact H|]. split; [exact F|].
  destruct (pipeline_counts_flood_complaints ring_within square_rows [scenario_tract]
              empty_world H F) as [w' E].
  exists w'. rewrite E. reflexivity.
Defined.

(** X4: when the table has rows, all with a string as complaint type, and
    none of them is flood-related, the filter writes an empty table and
    the join then raises [ZeroDivisionError] while printing its
    percentage: the main block stops there, and of the three files only
    the filtered one is written. *)
Theorem pipeline_stops_without_flood_complaints within complaints_df census_gdf w :
  complaints_df <> [] ->
  (forall c, In c complaints_df -> flood_mask c = false) ->
  exists w',
    filter_join_aggregate within complaints_df census_gdf w =
      (inl (ZeroDivisionError "division by zero"), w')
    /\ files w' = <[flood_complaints_path := CsvFile (frame_of_complaints [])]> (files w).
Proof.
  intros _ H.
  assert (E : List.filter flood_mask complaints_df = []).
  { clear w. induction complaints_df as [|c l IH]; [reflexivity|].
    cbn [List.filter]. rewrite (H c) by (left; reflexivity). apply IH.
    intros c' Hc'. apply H. now right. }
  unfold filter_join_aggregate, bind. rewrite filter_run, E, spatial_join_empty_run.
  eexists. split; reflexivity.
Qed.

Lemma pipeline_stops_without_flood_complaints_witness :
  [mkComplaint 1 "Noise" (dec 407 10) (dec (-74) 1)] <> []
  /\ (forall c, In c [mkComplaint 1 "Noise" (dec 407 10) (dec (-74) 1)] ->
                flood_mask c = false)
  /\ fst (filter_join_aggregate ring_within
            [mkComplaint 1 "Noise" (dec 407 10) (dec (-74) 1)] [scenario_tract] empty_world) =
       inl (ZeroDivisionError "division by zero").
Proof.
  assert (H : forall c, In c [mkComplaint 1 "Noise" (dec 407 10) (dec (-74) 1)] ->
                        flood_mask c = false).
  { intros c [<-|[]]. reflexivity. }
  assert (N : [mkComplaint 1 "Noise" (dec 407 10) (dec (-74) 1)] <> []) by discriminate.
  split; [exact N|]. split; [exact H|].
  destruct (pipeline_stops_without_flood_complaints ring_within _ [scenario_tract]
              empty_world N H) as (w' & E & _).
  rewrite E. reflexivity.
Defined.

(** X5: whether they succeed or raise, the three steps change no file
    other than [flood_complaints_2019.csv],
    [flood_complaints_with_census_2019.csv] and
    [aggregated_flood_complaints_2019.geojson], make no directory, write no
    log record and draw no random number. *)
Theorem processing_touches_three_files within complaints_df census_gdf w p :
  p <> flood_complaints_path -> p <> joined_path -> p <> aggregated_path ->
  files (snd (filter_join_aggregate within complaints_df census_gdf w)) !! p = files w !! p
  /\ dirs (snd (filter_join_aggregate within complaints_df census_gdf w)) = dirs w
  /\ log (snd (filter_join_aggregate within complaints_df census_gdf w)) = log w
  /\ rng (snd (filter_join_aggregate within complaints_df census_gdf w)) = rng w.
Proof.
  intros H1 H2 H3. unfold filter_join_aggregate, bind. rewrite filter_run.
  destruct (List.filter flood_mask complaints_df) as [|c cs] eqn:E.
  - rewrite spatial_join_empty_run. cbn [snd files dirs log rng].
    rewrite lookup_insert_ne by congruence. auto.
  - match goal with |- context [spatial_join_with_census _ ?l _ ?w1] =>
      destruct (spatial_join_run within l census_gdf w1 ltac:(discriminate)) as [pct ->]
    end.
    rewrite aggregate_run. cbn [snd files dirs log rng].
    rewrite !lookup_insert_ne by congruence. auto.
Qed.

Lemma processing_touches_three_files_witness :
  nyc_311_path <> flood_complaints_path
  /\ nyc_311_path <> joined_path
  /\ nyc_311_path <> aggregated_path
  /\ files (snd (filter_join_aggregate ring_within sample_rows [scenario_tract] cached_world))
       !! nyc_311_path = files cached_world !! nyc_311_path.
Proof.
  assert (H1 : nyc_311_path <> flood_complaints_path)
    by (intros H; vm_compute in H; discriminate H).
  assert (H2 : nyc_311_path <> joined_path) by (intros H; vm_compute in H; discriminate H).
  assert (H3 : nyc_311_path <> aggregated_path)
    by (intros H; vm_compute in H; discriminate H).
  split; [exact H1|]. split; [exact H2|]. split; [exact H3|].
  exact (proj1 (processing_touches_three_files ring_within sample_rows [scenario_tract]
                  cached_world nyc_311_path H1 H2 H3)).
Defined.

(** ** What the join keeps and what it reports *)

Section JoinDrops.

Variable within : Point -> Geometry -> bool.

Lemma matching_tracts_nil p census :
  matching_tracts within p census = [] <->
  existsb (fun t => within p (geometry t)) census = false.
Proof.
  unfold matching_tracts. generalize 0%nat as k.
  induction census as [|t census IH]; intros k; cbn [enumerate_from List.filter existsb snd].
  - tauto.
  - destruct (within p (geometry t)); cbn [orb].
    + split; discriminate.
    + apply IH.
Qed.

Lemma sjoin_rows_uncontained ic census :
  uncontained within census (snd ic) = true ->
  sjoin_rows within ic census = [mkJoined (fst ic) (snd ic) (points_from_xy (snd ic)) None].
Proof.
  unfold uncontained, sjoin_rows. intros H. apply negb_true_iff in H.
  apply matching_tracts_nil in H. now rewrite H.
Qed.

Lemma sjoin_rows_contained ic census :
  uncontained within census (snd ic) = false ->
  exists m ms,
    sjoin_rows within ic census =
      List.map (fun m => mkJoined (fst ic) (snd ic) (points_from_xy (snd ic)) (Some m))
        (m :: ms).
Proof.
  unfold uncontained, sjoin_rows. intros H. apply negb_false_iff in H.
  destruct (matching_tracts within (points_from_xy (snd ic)) census) as [|m ms] eqn:E.
  - apply matching_tracts_nil in E. congruence.
  - exists m, ms. reflexivity.
Qed.

Lemma unmatched_all_matched k c p ms :
  unmatched_rows (List.map (fun m => mkJoined k c p (Some m)) ms) = [].
Proof. induction ms as [|[j t] ms IH]; [reflexivity|exact IH]. Qed.

Lemma dropna_all_matched k c p ms :
  dropna_GEOID (List.map (fun m => mkJoined k c p (Some m)) ms) =
    List.map (fun m => mkJoined k c p (Some m)) ms.
Proof.
  induction ms as [|[j t] ms IH]; [reflexivity|].
  cbn [List.map]. unfold dropna_GEOID in *. cbn [List.filter row_GEOID right_match isna negb].
  now rewrite IH.
Qed.

Lemma unmatched_app a b : unmatched_rows (a ++ b) = unmatched_rows a ++ unmatched_rows b.
Proof. apply List.filter_app. Qed.

Lemma unmatched_sjoin_from census cs k :
  length (unmatched_rows
            (List.flat_map (fun ic => sjoin_rows within ic census) (enumerate_from k cs))) =
    length (List.filter (uncontained within census) cs).
Proof.
  revert k. induction cs as [|c cs IH]; intros k; [reflexivity|].
  cbn [enumerate_from List.flat_map List.filter].
  rewrite unmatched_app, List.length_app, IH.
  destruct (uncontained within census c) eqn:E.
  - rewrite (sjoin_rows_uncontained (k, c) census E). reflexivity.
  - destruct (sjoin_rows_contained (k, c) census E) as (m & ms & ->).
    now rewrite unmatched_all_matched.
Qed.

Lemma kept_sjoin_from census cs k c :
  In c (List.map left_row
          (dropna_GEOID
             (List.flat_map (fun ic => sjoin_rows within ic census) (enumerate_from k cs))))
  <-> In c cs /\ uncontained within census c = false.
Proof.
  revert k. induction cs as [|c0 cs IH]; intros k.
  - cbn. tauto.
  - cbn [enumerate_from List.flat_map].
    rewrite dropna_app, List.map_app, List.in_app_iff, IH. cbn [In].
    destruct (uncontained within census c0) eqn:E.
    + rewrite (sjoin_rows_uncontained (k, c0) census E). cbn.
      split; [intros [[]|H]; tauto|].
      intros [[->|H] Hu]; [congruence|tauto].
    + destruct (sjoin_rows_contained (k, c0) census E) as (m & ms & ->).
      rewrite dropna_all_matched. cbn [fst snd List.map In left_row].
      split.
      * intros [[<-|H]|H]; [tauto| |tauto].
        apply List.in_map_iff in H as (r & <- & Hr).
        apply List.in_map_iff in Hr as (m' & <- & _). cbn. tauto.
      * intros [[->|H] Hu]; [left; left; reflexivity|tauto].
Qed.

(** X6: on a non-empty table of finite points the join reports as
    unmatched exactly the complaints whose point no tract contains, and the
    table it returns holds a complaint if and only if some tract contains
    its point: no complaint is assigned to a tract by default. *)
Theorem join_drops_exactly_the_uncontained complaints_df census_gdf w :
  complaints_df <> [] ->
  finite_points complaints_df = true ->
  exists joined w',
    spatial_join_with_census within complaints_df census_gdf w = (inr joined, w')
    /\ last_unmatched_report (stdout w') =
         Some (length (List.filter (uncontained within census_gdf) complaints_df))
    /\ (forall c, In c (List.map left_row joined) <->
                  In c complaints_df /\ uncontained within census_gdf c = false).
Proof.
  intros Hne _.
  destruct (spatial_join_run within complaints_df census_gdf w Hne) as [pct ->].
  do 2 eexists. split; [reflexivity|]. cbn [stdout]. split.
  - rewrite app_assoc, last_unmatched_report_app. f_equal. apply unmatched_sjoin_from.
  - intros c. apply kept_sjoin_from.
Qed.

End JoinDrops.

Lemma join_drops_exactly_the_uncontained_witness :
  scenario_complaints <> []
  /\ finite_points scenario_complaints = true
  /\ List.map (uncontained ring_within [scenario_tract]) scenario_complaints
       = [false; false; true]
  /\ exists joined w',
       spatial_join_with_census ring_within scenario_complaints [scenario_tract] empty_world
         = (inr joined, w')
       /\ last_unmatched_report (stdout w') = Some 1%nat.
Proof.
  assert (H : scenario_complaints <> []) by discriminate.
  split; [exact H|]. split; [reflexivity|]. split; [vm_compute; reflexivity|].
  destruct (join_drops_exactly_the_uncontained ring_within scenario_complaints
              [scenario_tract] empty_world H eq_refl) as (joined & w' & E & Hr & _).
  exists joined, w'. split; [exact E|].
  rewrite Hr. vm_compute. reflexivity.
Defined.

(** ** The aggregation as a function of the joined rows *)

Lemma count_rows_Permutation g j j' :
  Permutation j j' -> count_rows g j = count_rows g j'.
Proof.
  induction 1 as [|r j j' _ IH|r r' j|j j' j'' _ IH1 _ IH2].
  - reflexivity.
  - now rewrite !count_rows_cons, IH.
  - rewrite !count_rows_cons. lia.
  - congruence.
Qed.

Lemma count_rows_le g joined : (count_rows g joined <= length joined)%nat.
Proof.
  unfold count_rows. induction joined as [|r joined IH]; cbn; [lia|].
  destruct (has_GEOID g r); cbn; lia.
Qed.

(** X7: the aggregated table does not depend on the order of the joined
    rows. *)
Theorem aggregate_ignores_row_order joined joined' census :
  Permutation joined joined' ->
  aggregate_rows joined census = aggregate_rows joined' census.
Proof.
  intros HP. rewrite !aggregate_rows_eq. apply List.map_ext. intros t.
  now rewrite (count_rows_Permutation (GEOID t) joined joined' HP).
Qed.

Lemma aggregate_ignores_row_order_witness :
  Permutation mixed_joined (List.rev mixed_joined)
  /\ List.map left_index mixed_joined <> List.map left_index (List.rev mixed_joined)
  /\ aggregate_rows mixed_joined twin_census =
       aggregate_rows (List.rev mixed_joined) twin_census
  /\ List.map complaint_count (aggregate_rows mixed_joined twin_census) = [2%nat; 1%nat].
Proof.
  assert (H : Permutation mixed_joined (List.rev mixed_joined)) by apply Permutation_rev.
  split; [exact H|]. split; [discriminate|]. split.
  - exact (aggregate_ignores_row_order _ _ twin_census H).
  - vm_compute. reflexivity.
Defined.

(** X8: aggregating two batches of joined rows together gives, tract by
    tract, the sum of the counts of the batches aggregated apart. *)
Theorem aggregate_counts_add joined1 joined2 census :
  List.map complaint_count (aggregate_rows (joined1 ++ joined2) census) =
    List.map (fun aa => (complaint_count (fst aa) + complaint_count (snd aa))%nat)
      (List.combine (aggregate_rows joined1 census) (aggregate_rows joined2 census)).
Proof.
  rewrite !aggregate_rows_eq. induction census as [|t census IH]; [reflexivity|].
  cbn [List.map List.combine fst snd complaint_count]. rewrite IH, count_rows_app.
  reflexivity.
Qed.

(** X9: the count is grouped by id, not by tract: a tract's
    [complaint_count] is the number of joined rows that carry its id, so
    two tracts that carry the same id both get the count of the two
    together. *)
Theorem tracts_sharing_an_id_share_the_count joined census a1 a2 :
  In a1 (aggregate_rows joined census) ->
  In a2 (aggregate_rows joined census) ->
  GEOID (tract a1) = GEOID (tract a2) ->
  complaint_count a1 = count_rows (GEOID (tract a1)) joined
  /\ complaint_count a2 = complaint_count a1.
Proof.
  rewrite aggregate_rows_eq. intros H1 H2 E.
  apply List.in_map_iff in H1 as (t1 & <- & _).
  apply List.in_map_iff in H2 as (t2 & <- & _).
  cbn in *. now rewrite E.
Qed.

Lemma tracts_sharing_an_id_share_the_count_witness :
  let joined := dropna_GEOID (sjoin_left_within ring_within overlap_complaints same_id_census) in
  let a1 := mkAggregated (mkTract "36061000800" "Census Tract 8" 2000 unit_square) 1
              (rate_per_1000 1 2000) in
  let a2 := mkAggregated (mkTract "36061000800" "Census Tract 9" 4000 far_square) 1
              (rate_per_1000 1 4000) in
  List.map (fun r => option_map (fun m => NAME (snd m)) (right_match r)) joined
    = [Some "Census Tract 8"%string]
  /\ In a1 (aggregate_rows joined same_id_census)
  /\ In a2 (aggregate_rows joined same_id_census)
  /\ complaint_count a1 = 1%nat
  /\ complaint_count a2 = complaint_count a1.
Proof.
  intros joined a1 a2.
  assert (H1 : In a1 (aggregate_rows joined same_id_census)) by (left; reflexivity).
  assert (H2 : In a2 (aggregate_rows joined same_id_census)) by (right; left; reflexivity).
  split; [reflexivity|]. split; [exact H1|]. split; [exact H2|].
  destruct (tracts_sharing_an_id_share_the_count joined same_id_census a1 a2 H1 H2 eq_refl)
    as [E1 E2].
  split; [exact E1|exact E2].
Defined.

(** ** The accuracy of the rate *)

Section Roundoff.

Local Open Scope Q_scope.

Lemma rounds_to_roundoff v M E :
  rounds_to v M E -> within_roundoff 1 v (inject_Z M * Qpow2 E).
Proof.
  intros ((Hlo & _) & (Hl & Hu) & _).
  pose proof (Qpow2_pos E) as Hw.
  assert (HK : inject_Z (2 ^ 52) == 4503599627370496) by reflexivity.
  assert (H1 : inject_Z (2 * M - 1) == 2 * inject_Z M - 1)
    by (unfold Qeq; cbn; lia).
  assert (H2 : inject_Z (2 * M + 1) == 2 * inject_Z M + 1)
    by (unfold Qeq; cbn; lia).
  rewrite HK in Hlo. rewrite H1 in Hl. rewrite H2 in Hu.
  unfold within_roundoff, unit_roundoff.
  remember (Qpow2 E) as w eqn:Ew. remember (inject_Z M) as m eqn:Em.
  split; nra.
Qed.

Lemma rounds_to_float_roundoff v m e :
  rounds_to_float v m e -> within_roundoff 1 v (fval m e).
Proof.
  intros (M & E & R & Hf). apply rounds_to_roundoff in R.
  unfold within_roundoff in *. rewrite Hf. exact R.
Qed.

Section Chain.

(** Four roundings in a row: of the count, of the population, of their
    quotient and of its product with 1000. *)
Variable u : Q.
Hypothesis u_pos : 0 < u.
Hypothesis u_small : u <= 1 # 100.

Variables c p fc fp fq fr : Q.
Hypothesis c_pos : 0 < c.
Hypothesis p_pos : 0 < p.
Hypothesis fp_pos : 0 < fp.
Hypothesis Hc : c * (1 - u) <= fc /\ fc <= c * (1 + u).
Hypothesis Hp : p * (1 - u) <= fp /\ fp <= p * (1 + u).
Hypothesis Hq : fc / fp * (1 - u) <= fq /\ fq <= fc / fp * (1 + u).
Hypothesis Hr : fq * 1000 * (1 - u) <= fr /\ fr <= fq * 1000 * (1 + u).

Lemma chain_bounds :
  c / p * 1000 * (1 - 5 * u) <= fr /\ fr <= c / p * 1000 * (1 + 5 * u).
Proof.
  remember (fc / fp) as q eqn:Eq.
  assert (Hqfp : q * fp == fc) by (subst q; field; lra).
  remember (c / p) as x eqn:Ex.
  assert (Hxp : x * p == c) by (subst x; field; lra).
  assert (Hx : 0 < x).
  { subst x. apply Qlt_shift_div_l; lra. }
  assert (Hfc : 0 < fc) by nra.
  assert (Hq0 : 0 < q).
  { subst q. apply Qlt_shift_div_l; lra. }
  assert (Hqu : q * (1 - u) <= x * (1 + u)).
  { apply Qmult_le_r with (z := p); [exact p_pos|].
    assert (q * (1 - u) * p == q * (p * (1 - u))) as -> by ring.
    assert (x * (1 + u) * p == x * p * (1 + u)) as -> by ring.
    rewrite Hxp. apply Qle_trans with (y := q * fp); [|rewrite Hqfp; tauto].
    apply Qmult_le_l; [exact Hq0|tauto]. }
  assert (Hql : x * (1 - u) <= q * (1 + u)).
  { apply Qmult_le_r with (z := p); [exact p_pos|].
    assert (q * (1 + u) * p == q * (p * (1 + u))) as -> by ring.
    assert (x * (1 - u) * p == x * p * (1 - u)) as -> by ring.
    rewrite Hxp. apply Qle_trans with (y := q * fp); [rewrite Hqfp; tauto|].
    apply Qmult_le_l; [exact Hq0|tauto]. }
  destruct Hq as [Hq1 Hq2], Hr as [Hr1 Hr2].
  assert (Hu1 : 0 <= 1 - u) by lra.
  assert (Hu2 : 0 <= 1 + u) by lra.
  assert (Hk1 : 0 <= 1000 * (1 - u) * (1 + u))
    by (repeat apply Qmult_le_0_compat; lra).
  assert (Hk2 : 0 <= 1000 * (1 - u) * (1 - u))
    by (repeat apply Qmult_le_0_compat; lra).
  assert (Hk3 : 0 <= 1000 * (1 + u) * (1 + u))
    by (repeat apply Qmult_le_0_compat; lra).
  split.
  - apply Qmult_le_r with (z := 1 + u); [lra|].
    assert (P1 : 0 <= (fr - fq * 1000 * (1 - u)) * (1 + u))
      by (apply Qmult_le_0_compat; lra).
    assert (P2 : 0 <= (fq - q * (1 - u)) * (1000 * (1 - u) * (1 + u)))
      by (apply Qmult_le_0_compat; lra).
    assert (P3 : 0 <= (q * (1 + u) - x * (1 - u)) * (1000 * (1 - u) * (1 - u)))
      by (apply Qmult_le_0_compat; lra).
    assert (P4 : 0 <= x * 1000 * u * (1 + 8 * u - u * u)).
    { repeat apply Qmult_le_0_compat; try lra; nra. }
    lra.
  - apply Qmult_le_r with (z := 1 - u); [lra|].
    assert (Q1 : 0 <= (fq * 1000 * (1 + u) - fr) * (1 - u))
      by (apply Qmult_le_0_compat; lra).
    assert (Q2 : 0 <= (q * (1 + u) - fq) * (1000 * (1 + u) * (1 - u))).
    { apply Qmult_le_0_compat; [lra|]. repeat apply Qmult_le_0_compat; lra. }
    assert (Q3 : 0 <= (x * (1 + u) - q * (1 - u)) * (1000 * (1 + u) * (1 + u)))
      by (apply Qmult_le_0_compat; lra).
    assert (Q4 : 0 <= x * 1000 * u * (1 - 8 * u - u * u)).
    { repeat apply Qmult_le_0_compat; try lra; nra. }
    lra.
Qed.

End Chain.

Lemma fval_1000 : fval 8796093022208000 (-43) == 1000.
Proof. reflexivity. Qed.

Lemma rate_roundoff (c : nat) (pop : Z) :
  (0 < pop < 2 ^ 63)%Z -> (Z.of_nat c < 2 ^ 63)%Z ->
  exists q,
    to_Q (rate_per_1000 c pop) = Some q /\ within_roundoff 5 (exact_rate c pop) q.
Proof.
  intros Hpop Hc.
  destruct (of_int_float pop Hpop) as (mp & ep & Hp & Cp & Hep & Rp).
  destruct c as [|c].
  - rewrite (rate_zero_count pop mp ep Hp). exists 0. split; [reflexivity|].
    unfold within_roundoff, exact_rate.
    assert (inject_Z (Z.of_nat 0) / inject_Z pop * 1000 == 0) as ->
      by (unfold Qdiv; cbn [Z.of_nat]; ring).
    lra.
  - destruct (rate_chain (S c) pop mp ep Hp Cp Hep ltac:(lia))
      as (mc & ec & mq & eq & mr & er & Rc & Rq & Rr & _ & ->).
    exists (fval mr er). split; [reflexivity|].
    apply rounds_to_float_roundoff in Rp, Rc, Rq, Rr.
    unfold within_roundoff in *. rewrite fval_1000 in Rr.
    rewrite !Qmult_1_l in Rp, Rc, Rq, Rr.
    unfold exact_rate.
    apply (chain_bounds unit_roundoff ltac:(reflexivity) ltac:(discriminate)
             (inject_Z (Z.of_nat (S c))) (inject_Z pop) (fval mc ec) (fval mp ep)
             (fval mq eq) (fval mr er)).
    + change 0 with (inject_Z 0). rewrite <- Zlt_Qlt. lia.
    + change 0 with (inject_Z 0). rewrite <- Zlt_Qlt. lia.
    + apply fval_pos.
    + exact Rc.
    + exact Rp.
    + exact Rq.
    + exact Rr.
Qed.

End Roundoff.

(** X10: for a tract with a positive [int64] population the computed
    [complaint_rate] is a finite number within the relative distance
    [5 * 2 ^ -53] of the exact quotient count / population * 1000 (and
    exactly 0 when the count is 0): the three float operations lose at most
    a few units in the last place. *)
Theorem complaint_rate_is_accurate joined census a :
  In a (aggregate_rows joined census) ->
  0 < population (tract a) < 2 ^ 63 ->
  Z.of_nat (length joined) < 2 ^ 63 ->
  (exists q,
     to_Q (complaint_rate a) = Some q
     /\ within_roundoff 5 (exact_rate (complaint_count a) (population (tract a))) q)
  /\ (complaint_count a = 0%nat -> complaint_rate a = S754_zero false).
Proof.
  rewrite aggregate_rows_eq. intros Ha Hpop Hlen.
  apply List.in_map_iff in Ha as (t & <- & _). cbn [tract complaint_rate complaint_count] in *.
  pose proof (count_rows_le (GEOID t) joined) as Hle.
  split.
  - apply rate_roundoff; [exact Hpop|lia].
  - intros ->. destruct (of_int_float (population t) Hpop) as (mp & ep & Hp & _).
    exact (rate_zero_count _ mp ep Hp).
Qed.

Lemma complaint_rate_is_accurate_witness :
  In (mkAggregated scenario_tract 2 (of_int 1))
     (aggregate_rows
        (dropna_GEOID (sjoin_left_within ring_within scenario_complaints [scenario_tract]))
        [scenario_tract])
  /\ exists q,
       to_Q (of_int 1) = Some q /\ within_roundoff 5 (exact_rate 2 2000) q.
Proof.
  assert (H : In (mkAggregated scenario_tract 2 (of_int 1))
                (aggregate_rows
                   (dropna_GEOID
                      (sjoin_left_within ring_within scenario_complaints [scenario_tract]))
                   [scenario_tract])) by (left; reflexivity).
  split; [exact H|].
  exact (proj1 (complaint_rate_is_accurate _ _ _ H ltac:(cbn; lia)
                  ltac:(vm_compute; reflexivity))).
Defined.

(** ** The generators and the cache *)

Lemma rng_only_ret {A} (a : A) : rng_only (ret a).
Proof. exists (fun s => (inr a, s)). intros [f d o l s]. reflexivity. Qed.

Lemma rng_only_raise {A} e : rng_only (@raise A e).
Proof. exists (fun s => (inl e, s)). intros [f d o l s]. reflexivity. Qed.

Lemma rng_only_bind {A B} (m : M A) (k : A -> M B) :
  rng_only m -> (forall a, rng_only (k a)) -> rng_only (bind m k).
Proof.
  intros [f Hf] Hk.
  assert (exists g : A -> N -> (exn + B) * N,
             forall a w, k a w = (fst (g a (rng w)), with_rng w (snd (g a (rng w)))))
    as [g Hg].
  { exists (fun a s => let r := k a (mkWorld ∅ ∅ [] [] s) in (fst r, rng (snd r))).
    intros a w. destruct (Hk a) as [h Hh].
    rewrite (Hh w), (Hh (mkWorld ∅ ∅ [] [] (rng w))). reflexivity. }
  exists (fun s => match fst (f s) with
                   | inl e => (inl e, snd (f s))
                   | inr a => g a (snd (f s))
                   end).
  intros w. unfold bind. rewrite (Hf w).
  destruct (fst (f (rng w))) as [e|a]; [reflexivity|].
  rewrite Hg. reflexivity.
Qed.

Lemma rng_only_set_rng s : rng_only (set_rng s).
Proof. exists (fun _ => (inr tt, s)). intros w. reflexivity. Qed.

Lemma rng_only_get_rng : rng_only get_rng.
Proof. exists (fun s => (inr s, s)). intros [f d o l s]. reflexivity. Qed.

Lemma rng_only_draw {A} (f : N -> A * N) : rng_only (draw f).
Proof.
  unfold draw. apply rng_only_bind; [apply rng_only_get_rng|]. intros s.
  apply rng_only_bind; [apply rng_only_set_rng|]. intros _. apply rng_only_ret.
Qed.

Lemma rng_only_replicateM {A} (m : M A) n : rng_only m -> rng_only (replicateM n m).
Proof.
  intros Hm. induction n as [|n IH]; cbn [replicateM]; [apply rng_only_ret|].
  apply rng_only_bind; [exact Hm|]. intros x.
  apply rng_only_bind; [exact IH|]. intros xs. apply rng_only_ret.
Qed.

Lemma rng_only_mapM {A B} (f : A -> M B) l :
  (forall a, rng_only (f a)) -> rng_only (mapM f l).
Proof.
  intros Hf. induction l as [|a l IH]; cbn [mapM]; [apply rng_only_ret|].
  apply rng_only_bind; [apply Hf|]. intros x.
  apply rng_only_bind; [exact IH|]. intros xs. apply rng_only_ret.
Qed.

Lemma rng_only_pd_DataFrame data : rng_only (pd_DataFrame data).
Proof.
  unfold pd_DataFrame. destruct (listlike_lengths data) as [|n ns]; [apply rng_only_raise|].
  destruct (forallb _ _); [apply rng_only_ret|apply rng_only_raise].
Qed.

Lemma succeeds_replicateM_Forall {A} (P : A -> Prop) (m : M A) n :
  succeeds P m -> succeeds (fun l => length l = n /\ Forall P l) (replicateM n m).
Proof.
  intros Hm. induction n as [|n IH]; cbn [replicateM].
  - apply succeeds_ret. split; [reflexivity|constructor].
  - eapply succeeds_bind; [exact Hm|]. intros x Hx.
    eapply succeeds_bind; [exact IH|]. intros xs [Hl Hxs].
    apply succeeds_ret. split; [cbn; lia|now constructor].
Qed.

Lemma pd_DataFrame_same_length data n ns :
  listlike_lengths data = n :: ns -> Forall (eq n) ns ->
  pd_DataFrame data =
    ret (mkFrame (List.map (fun kv => (fst kv, broadcast n (snd kv))) data) n).
Proof.
  intros E H. unfold pd_DataFrame. rewrite E.
  replace (forallb (Nat.eqb n) ns) with true; [reflexivity|].
  symmetry. apply forallb_forall. intros k Hk. rewrite List.Forall_forall in H.
  rewrite <- (H k Hk). apply Nat.eqb_refl.
Qed.

Lemma raw_paths_differ : census_path <> nyc_311_path.
Proof. intros H. vm_compute in H. discriminate H. Qed.

Section GeneratorFacts.

Variable seed_state : Z -> N.
Variable next_random : N -> float64 * N.
Variable next_randint : Z -> Z -> N -> Z * N.
Variable next_uniform : float64 -> float64 -> N -> float64 * N.
Variable next_randbelow : nat -> N -> nat * N.

Local Abbreviation create_311 :=
  (create_sample_311_data seed_state next_random next_randint next_uniform next_randbelow).
Local Abbreviation create_census :=
  (create_sample_census_data seed_state next_randint next_uniform next_randbelow).
Local Abbreviation download :=
  (download_and_prepare_data seed_state next_random next_randint next_uniform next_randbelow).

Lemma rng_only_random_choice {A} (seq : list A) : rng_only (random_choice next_randbelow seq).
Proof.
  unfold random_choice. apply rng_only_bind; [apply rng_only_draw|]. intros i.
  destruct (nth_error seq i); [apply rng_only_ret|apply rng_only_raise].
Qed.

Ltac rng_only_step :=
  lazymatch goal with
  | |- rng_only (bind _ _) => apply rng_only_bind; [|intros ?]
  | |- rng_only (ret _) => apply rng_only_ret
  | |- rng_only (replicateM _ _) => apply rng_only_replicateM
  | |- rng_only (mapM _ _) => apply rng_only_mapM; intros ?
  | |- rng_only (draw _) => apply rng_only_draw
  | |- rng_only (set_rng _) => apply rng_only_set_rng
  | |- rng_only (random_choice _ _) => apply rng_only_random_choice
  | |- rng_only (pd_DataFrame _) => apply rng_only_pd_DataFrame
  | |- rng_only (if ?b then _ else _) => destruct b
  end.

Lemma rng_only_create_census : rng_only create_census.
Proof.
  unfold create_sample_census_data, random_seed, random_randint, random_uniform.
  repeat rng_only_step.
Qed.

Lemma rng_only_create_311 : rng_only create_311.
Proof.
  unfold create_sample_311_data, random_seed, random_random, random_randint, random_uniform.
  repeat rng_only_step.
Qed.

Lemma create_311_outcome w :
  exists e s, create_311 w = (inl e, with_rng w s).
Proof.
  destruct rng_only_create_311 as [f Hf].
  destruct (create_sample_311_data_raises seed_state next_random next_randint next_uniform
              next_randbelow w) as (e & w' & E & _).
  rewrite Hf in E. exists e, (snd (f (rng w))). rewrite Hf.
  injection E as E _. now rewrite E.
Qed.

Lemma create_census_outcome w :
  exists r s, create_census w = (r, with_rng w s).
Proof.
  destruct rng_only_create_census as [f Hf]. rewrite Hf. eauto.
Qed.

(** X11: [create_sample_census_data] reseeds the generator before its
    first draw, so whatever the world it is called in, it gives the same
    outcome and leaves the generator in the same state; it prints nothing
    and touches no file or directory. *)
Theorem sample_census_is_reproducible :
  exists r s, forall w, create_sample_census_data seed_state next_randint next_uniform next_randbelow w = (r, with_rng w s).
Proof.
  unfold create_sample_census_data.
  match goal with |- context [bind (random_seed _ 42) ?k] =>
    assert (Hk : rng_only (k tt))
  end.
  { unfold random_seed, random_randint, random_uniform. repeat rng_only_step. }
  destruct Hk as [f Hf].
  exists (fst (f (seed_state 42))), (snd (f (seed_state 42))).
  intros w. unfold bind at 1. unfold random_seed at 1, set_rng at 1.
  rewrite Hf. reflexivity.
Qed.

Lemma succeeds_randint (P : Z -> Prop) a b :
  (forall s, P (fst (next_randint a b s))) -> succeeds P (random_randint next_randint a b).
Proof.
  intros H w. unfold random_randint, draw, bind, get_rng, set_rng, ret.
  do 2 eexists. split; [reflexivity|apply H].
Qed.

Ltac rewrite_lengths :=
  repeat match goal with
    | H : length ?l = _ |- context [length ?l] => rewrite H
    end.

Ltac element_succeeds :=
  repeat lazymatch goal with
    | |- succeeds _ (ret _) => apply succeeds_ret; exact I
    | |- succeeds _ (draw _) => apply succeeds_draw
    | |- succeeds _ (random_choice _ _) =>
        apply succeeds_random_choice; [assumption|discriminate]
    | |- succeeds _ (bind _ _) => eapply succeeds_bind; [|intros ? _]
    end.

(** X12: with a generator whose [_randbelow(n)] stays below [n], the
    census generator returns a table of 300 rows and the twelve columns
    GEOID, ..., geometry, each of 300 cells, and every geometry is a closed
    ring of five points along a rectangle with sides parallel to the axes. *)
Theorem sample_census_shape :
  randbelow_in_range next_randbelow ->
  succeeds
    (fun gdf =>
       frame_len gdf = 300%nat
       /\ List.map fst (frame_columns gdf) = census_columns
       /\ Forall (fun col => length (snd col) = 300%nat) (frame_columns gdf)
       /\ exists cells, get_column gdf "geometry" = Some cells /\ Forall rectangle_ring cells)
    (create_sample_census_data seed_state next_randint next_uniform next_randbelow).
Proof.
  intros Hrb. unfold randbelow_in_range in Hrb.
  unfold create_sample_census_data, random_seed, random_randint, random_uniform.
  eapply succeeds_bind; [apply succeeds_set_rng|]. intros _ _.
  eapply succeeds_bind.
  { apply succeeds_replicateM_Forall with (P := fun g => rectangle_ring (CGeom g)).
    eapply succeeds_bind; [apply succeeds_draw|]. intros lat _.
    eapply succeeds_bind; [apply succeeds_draw|]. intros lon _.
    eapply succeeds_bind; [apply succeeds_draw|]. intros size _.
    apply succeeds_ret. do 4 eexists. split; [reflexivity|]. cbn. tauto. }
  intros geometries [Hg Hrect].
  do 11 (eapply succeeds_bind; [apply succeeds_replicateM; element_succeeds|]; intros ? ?).
  cbv beta in *.
  erewrite pd_DataFrame_same_length with (n := n_tracts);
    [|cbn [listlike_lengths List.flat_map snd app]; rewrite !length_map; rewrite_lengths;
      reflexivity
     |repeat constructor].
  apply succeeds_ret. cbn [frame_len frame_columns List.map fst snd broadcast].
  split; [reflexivity|]. split; [reflexivity|]. split.
  - repeat (constructor; [cbn [snd]; rewrite length_map; rewrite_lengths; reflexivity|]).
    constructor.
  - eexists. split; [reflexivity|]. apply List.Forall_map. exact Hrect.
Qed.

(** X13: if moreover [randint(a, b)] stays between [a] and [b], every
    sample tract has a population between 1000 and 10000: no sample tract
    is empty, so no rate on the sample census divides by zero. *)
Theorem sample_census_is_populated :
  randbelow_in_range next_randbelow -> randint_in_range next_randint ->
  succeeds
    (fun gdf =>
       exists cells,
         get_column gdf "population" = Some cells
         /\ length cells = 300%nat
         /\ Forall (fun c => exists p, c = CInt p /\ 1000 <= p <= 10000) cells)
    (create_sample_census_data seed_state next_randint next_uniform next_randbelow).
Proof.
  intros Hrb Hri. unfold randbelow_in_range in Hrb.
  unfold create_sample_census_data, random_seed, random_uniform.
  eapply succeeds_bind; [apply succeeds_set_rng|]. intros _ _.
  do 7 (eapply succeeds_bind;
        [apply succeeds_replicateM; unfold random_randint; element_succeeds|]; intros ? ?).
  eapply succeeds_bind.
  { apply succeeds_replicateM_Forall with (P := fun p => 1000 <= p <= 10000).
    apply succeeds_randint. intros s. apply Hri. lia. }
  intros populations [Hl Hp].
  do 4 (eapply succeeds_bind; [apply succeeds_replicateM; element_succeeds|]; intros ? ?).
  cbv beta in *.
  erewrite pd_DataFrame_same_length with (n := n_tracts);
    [|cbn [listlike_lengths List.flat_map snd app]; rewrite !length_map; rewrite_lengths;
      reflexivity
     |repeat constructor].
  apply succeeds_ret. cbn [frame_len frame_columns List.map fst snd broadcast].
  eexists. split; [reflexivity|]. cbn [snd].
  rewrite length_map. split; [exact Hl|].
  apply List.Forall_map. eapply List.Forall_impl; [|exact Hp].
  intros p Hp'. exists p. split; [reflexivity|exact Hp'].
Qed.

(** The world after the directories are made and the messages [out] are
    printed. *)
Local Abbreviation prepared w out s :=
  (mkWorld (files w) ({[PROCESSED_DATA_DIR]} ∪ ({[RAW_DATA_DIR]} ∪ dirs w))
     (stdout w ++ out) (log w) s).

Ltac world_step :=
  cbn [files dirs stdout log rng fst snd];
  repeat match goal with
    | H : files ?w !! ?p = _ |- context [files ?w !! ?p] => rewrite H
    end;
  rewrite ?bool_decide_eq_true_2 by eauto;
  rewrite ?bool_decide_eq_false_2 by (intros [? ?]; discriminate).

Lemma download_both_cached w df g :
  files w !! nyc_311_path = Some (CsvFile df) ->
  files w !! census_path = Some (GeoJSONFile g) ->
  download w =
    (inr (df, g),
     prepared w
       [Text "Downloading NYC 311 data for 2019...";
        Text ("Loading cached data from " +:+ nyc_311_path);
        Text "Downloading NYC census tract shapefiles...";
        Text ("Loading cached data from " +:+ census_path)] (rng w)).
Proof.
  intros H1 H2.
  unfold download_and_prepare_data, ensure_dirs, bind, makedirs, print, path_exists,
    pd_read_csv, gpd_read_file, ret.
  repeat world_step.
  rewrite <- !app_assoc. reflexivity.
Qed.

Lemma download_outcome w r w1 :
  download w = (r, w1) ->
  dirs w1 = {[PROCESSED_DATA_DIR]} ∪ ({[RAW_DATA_DIR]} ∪ dirs w)
  /\ log w1 = log w
  /\ ((files w1 = files w /\
        forall c g, r = inr (c, g) ->
          files w !! nyc_311_path = Some (CsvFile c)
          /\ files w !! census_path = Some (GeoJSONFile g))
      \/ (exists c g,
            r = inr (c, g)
            /\ files w !! nyc_311_path = Some (CsvFile c)
            /\ files w !! census_path = None
            /\ files w1 = <[census_path := GeoJSONFile g]> (files w))).
Proof.
  unfold download_and_prepare_data, ensure_dirs, bind, makedirs, print, path_exists,
    pd_read_csv, gpd_read_file, write_file, ret.
  destruct (files w !! nyc_311_path) as [[df|df|rows|rows]|] eqn:H1; repeat world_step.
  2-4: intros [= <- <-]; cbn [dirs log files]; split; [reflexivity|]; split; [reflexivity|];
       left; split; [reflexivity|discriminate].
  2:{ match goal with |- context [create_311 ?w0] =>
        destruct (create_311_outcome w0) as (e & s & ->) end.
      cbn iota. intros [= <- <-]. cbn [dirs log files with_rng]. split; [reflexivity|].
      split; [reflexivity|]. left. split; [reflexivity|discriminate]. }
  destruct (files w !! census_path) as [[g|g|rows|rows]|] eqn:H2; repeat world_step.
  2: intros [= <- <-]; cbn [dirs log files]; split; [reflexivity|]; split; [reflexivity|];
     left; split; [reflexivity|]; intros c g' [= -> ->]; auto.
  1-3: intros [= <- <-]; cbn [dirs log files]; split; [reflexivity|]; split; [reflexivity|];
       left; split; [reflexivity|discriminate].
  match goal with |- context [create_census ?w0] =>
    destruct (create_census_outcome w0) as (r' & s & ->) end.
  destruct r' as [e|gdf]; cbn iota; intros [= <- <-]; cbn [dirs log files with_rng];
    (split; [reflexivity|]); (split; [reflexivity|]).
  - left. split; [reflexivity|discriminate].
  - right. exists df, gdf. auto.
Qed.

(** X14: what [download_and_prepare_data] returns it has cached: a second
    call in the world a successful call leaves returns the same two tables
    and only prints; it rewrites no file, makes no directory and draws no
    random number. *)
Theorem download_reads_back_its_cache w c g w1 :
  download_and_prepare_data seed_state next_random next_randint next_uniform next_randbelow w
    = (inr (c, g), w1) ->
  exists out,
    download_and_prepare_data seed_state next_random next_randint next_uniform next_randbelow
      w1 =
      (inr (c, g), mkWorld (files w1) (dirs w1) (stdout w1 ++ out) (log w1) (rng w1)).
Proof.
  intros E. destruct (download_outcome w _ _ E) as (Hd & _ & Hf).
  assert (files w1 !! nyc_311_path = Some (CsvFile c)
          /\ files w1 !! census_path = Some (GeoJSONFile g)) as [H1 H2].
  { destruct Hf as [[Hf Hc]|(c' & g' & [= <- <-] & H1 & H2 & Hf)].
    - rewrite Hf. apply Hc. reflexivity.
    - rewrite Hf. split.
      + rewrite lookup_insert_ne by apply raw_paths_differ. exact H1.
      + apply lookup_insert_eq. }
  rewrite (download_both_cached w1 c g H1 H2). eexists. f_equal. f_equal.
  rewrite Hd. apply set_eq. intros x. rewrite !elem_of_union. tauto.
Qed.

(** X15: whether it succeeds or raises, [download_and_prepare_data] only
    adds: every file that exists keeps its content, the one file that can
    appear is [nyc_census_tracts.geojson] (the complaints file is never
    written), the two data directories are made and nothing is logged. *)
Theorem download_only_adds w :
  let w1 := snd (download_and_prepare_data seed_state next_random next_randint next_uniform
                   next_randbelow w) in
  (forall p d, files w !! p = Some d -> files w1 !! p = Some d)
  /\ (forall p, p <> census_path -> files w1 !! p = files w !! p)
  /\ dirs w1 = {[PROCESSED_DATA_DIR]} ∪ ({[RAW_DATA_DIR]} ∪ dirs w)
  /\ log w1 = log w.
Proof.
  destruct (download w) as [r w1] eqn:E. cbn [snd]. cbv zeta.
  destruct (download_outcome w _ _ E) as (Hd & Hl & Hf).
  assert (Hfiles : forall p, p <> census_path \/ is_Some (files w !! census_path) ->
                             files w1 !! p = files w !! p).
  { intros p Hp. destruct Hf as [[-> _]|(c & g & _ & _ & Hn & ->)]; [reflexivity|].
    destruct Hp as [Hp|[d Hd']]; [|congruence].
    apply lookup_insert_ne. congruence. }
  split; [|split; [|split]].
  - intros p d Hp. rewrite Hfiles; [exact Hp|].
    destruct (decide (p = census_path)) as [->|Hne]; [right; eauto|left; exact Hne].
  - intros p Hp. apply Hfiles. left. exact Hp.
  - exact Hd.
  - exact Hl.
Qed.

End GeneratorFacts.

Lemma sample_census_shape_witness :
  randbelow_in_range const_randbelow
  /\ exists gdf w',
       create_sample_census_data const_seed const_randint const_uniform const_randbelow
         empty_world = (inr gdf, w')
       /\ frame_len gdf = 300%nat
       /\ List.map fst (frame_columns gdf) = census_columns
       /\ Forall (fun col => length (snd col) = 300%nat) (frame_columns gdf)
       /\ exists cells, get_column gdf "geometry" = Some cells /\ Forall rectangle_ring cells.
Proof.
  assert (H : randbelow_in_range const_randbelow) by (intros n s Hn; exact Hn).
  split; [exact H|].
  exact (sample_census_shape const_seed const_randint const_uniform const_randbelow H
           empty_world).
Defined.

Lemma sample_census_is_populated_witness :
  randbelow_in_range const_randbelow /\ randint_in_range const_randint
  /\ exists gdf w',
       create_sample_census_data const_seed const_randint const_uniform const_randbelow
         empty_world = (inr gdf, w')
       /\ exists cells,
            get_column gdf "population" = Some cells
            /\ length cells = 300%nat
            /\ Forall (fun c => exists p, c = CInt p /\ 1000 <= p <= 10000) cells.
Proof.
  assert (H1 : randbelow_in_range const_randbelow) by (intros n s Hn; exact Hn).
  assert (H2 : randint_in_range const_randint) by (intros a b s Hab; cbn; lia).
  split; [exact H1|]. split; [exact H2|].
  exact (sample_census_is_populated const_seed const_randint const_uniform const_randbelow
           H1 H2 empty_world).
Defined.

Lemma download_reads_back_its_cache_witness :
  let w1 := snd (download_and_prepare_data const_seed const_random const_randint
                   const_uniform const_randbelow half_cached_world) in
  frame_len const_census = 300%nat
  /\ files w1 !! census_path = Some (GeoJSONFile const_census)
  /\ exists out,
       download_and_prepare_data const_seed const_random const_randint const_uniform
         const_randbelow w1 =
         (inr (cached_frame, const_census),
          mkWorld (files w1) (dirs w1) (stdout w1 ++ out) (log w1) (rng w1)).
Proof.
  intros w1.
  assert (E : download_and_prepare_data const_seed const_random const_randint const_uniform
                const_randbelow half_cached_world = (inr (cached_frame, const_census), w1))
    by (vm_compute; reflexivity).
  split; [vm_compute; reflexivity|]. split; [vm_compute; reflexivity|].
  exact (download_reads_back_its_cache const_seed const_random const_randint
           const_uniform const_randbelow half_cached_world cached_frame const_census w1 E).
Defined.

(** ** The pixel grid *)


Lemma np_index_inside n i :
  0 <= i < Z.of_nat n -> np_index n i = Some (Z.to_nat i).
Proof.
  intros H. unfold np_index.
  destruct (Z.leb_spec 0 i); [|lia]. destruct (Z.ltb_spec i (Z.of_nat n)); [|lia].
  reflexivity.
Qed.

Lemma cell_at_lookup g r c :
  cell_at g r c =
    default (S754_zero false) (default [] (g !! Z.to_nat r) !! Z.to_nat c).
Proof. unfold cell_at. now rewrite !nth_lookup. Qed.

Lemma raise_cell_inside n v col g row :
  square n g -> 0 <= row < Z.of_nat n -> 0 <= col < Z.of_nat n ->
  exists g',
    raise_cell v col g row = inr g'
    /\ square n g'
    /\ forall r c, 0 <= r -> 0 <= c ->
         cell_at g' r c =
           if (r =? row) && (c =? col) then py_max (cell_at g r c) v else cell_at g r c.
Proof.
  intros [Hlen Hlines] Hrow Hcol. unfold float64 in *.
  destruct (lookup_lt_is_Some_2 g (Z.to_nat row) ltac:(lia)) as [line Hline].
  assert (Hll : length line = n).
  { exact (Forall_lookup_1 _ _ _ _ Hlines Hline). }
  destruct (lookup_lt_is_Some_2 line (Z.to_nat col) ltac:(lia)) as [old Hold].
  exists (<[Z.to_nat row := <[Z.to_nat col := py_max old v]> line]> g). split.
  { unfold raise_cell, grid_get, grid_set, ebind, float64.
    rewrite Hlen, (np_index_inside n row Hrow). cbv beta iota.
    rewrite Hline. cbv beta iota. rewrite Hll, (np_index_inside n col Hcol). cbv beta iota.
    rewrite Hold. reflexivity. }
  split.
  - split; [now rewrite length_insert|].
    apply Forall_insert; [exact Hlines|]. now rewrite length_insert.
  - intros r c Hr Hc. rewrite !cell_at_lookup. unfold float64 in *.
    destruct (Z.eqb_spec r row) as [->|Hne]; cbn [andb].
    + rewrite list_lookup_insert_eq by lia. rewrite Hline. cbn [default from_option id].
      destruct (Z.eqb_spec c col) as [->|Hnc].
      * rewrite list_lookup_insert_eq by lia. now rewrite Hold.
      * rewrite list_lookup_insert_ne by lia. reflexivity.
    + rewrite list_lookup_insert_ne by lia. reflexivity.
Qed.

Lemma py_range_nil lo hi : hi <= lo -> py_range lo hi = [].
Proof. intros H. unfold py_range. replace (Z.to_nat (hi - lo)) with 0%nat by lia. reflexivity. Qed.

Lemma py_range_cons lo hi : lo < hi -> py_range lo hi = lo :: py_range (lo + 1) hi.
Proof.
  intros H. unfold py_range.
  replace (Z.to_nat (hi - lo)) with (S (Z.to_nat (hi - (lo + 1)))) by lia.
  cbn [List.seq List.map]. f_equal; [lia|].
  rewrite <- List.seq_shift, List.map_map. apply List.map_ext. intros k. lia.
Qed.

Lemma foldM_range {B} (P : Z -> B -> Prop) (f : B -> Z -> pixel_error + B) lo hi b :
  lo <= hi -> P lo b ->
  (forall k b, lo <= k < hi -> P k b -> exists b', f b k = inr b' /\ P (k + 1) b') ->
  exists b', foldM f (py_range lo hi) b = inr b' /\ P hi b'.
Proof.
  intros Hle H0 Hstep.
  remember (Z.to_nat (hi - lo)) as d eqn:Hd. revert lo b Hle H0 Hstep Hd.
  induction d as [|d IH]; intros lo b Hle H0 Hstep Hd.
  - assert (lo = hi) as -> by lia. rewrite py_range_nil by lia. exists b. auto.
  - rewrite py_range_cons by lia. cbn [foldM].
    destruct (Hstep lo b ltac:(lia) H0) as (b1 & -> & H1). cbn [ebind].
    apply IH; [lia|exact H1| |lia].
    intros k b' Hk. apply Hstep. lia.
Qed.

Lemma raise_cells_inside n span v g :
  square n g ->
  (let '(min_col, max_col, min_row, max_row) := span in
   0 <= min_col /\ max_col < Z.of_nat n /\ 0 <= min_row /\ max_row < Z.of_nat n) ->
  exists g',
    raise_cells span v g = inr g'
    /\ square n g'
    /\ forall r c, 0 <= r -> 0 <= c ->
         cell_at g' r c = if in_span span r c then py_max (cell_at g r c) v else cell_at g r c.
Proof.
  destruct span as [[[min_col max_col] min_row] max_row]. intros Hsq (Hc0 & Hc1 & Hr0 & Hr1).
  unfold raise_cells, in_span.
  destruct (Z.le_gt_cases min_col (max_col + 1)) as [Hc|Hc].
  2:{ rewrite (py_range_nil min_col (max_col + 1)) by lia.
      exists g. split; [reflexivity|]. split; [exact Hsq|].
      intros r c _ _. destruct (Z.leb_spec min_col c), (Z.leb_spec c max_col); cbn; try reflexivity.
      lia. }
  destruct (foldM_range
              (fun k g' =>
                 square n g' /\
                 forall r c, 0 <= r -> 0 <= c ->
                   cell_at g' r c =
                     if (min_col <=? c) && (c <? k) && (min_row <=? r) && (r <=? max_row)
                     then py_max (cell_at g r c) v else cell_at g r c)
              (fun g col => foldM (raise_cell v col) (py_range min_row (max_row + 1)) g)
              min_col (max_col + 1) g Hc) as (g' & E & Hsq' & Hcells).
  - split; [exact Hsq|]. intros r c _ _.
    destruct (Z.leb_spec min_col c), (Z.ltb_spec c min_col); cbn; try reflexivity. lia.
  - intros col g1 Hcol [Hsq1 H1].
    destruct (Z.le_gt_cases min_row (max_row + 1)) as [Hr|Hr].
    2:{ rewrite (py_range_nil min_row (max_row + 1)) by lia. exists g1. split; [reflexivity|]. split; [exact Hsq1|].
        intros r c Hr' Hc'. rewrite (H1 r c Hr' Hc').
        destruct (Z.leb_spec min_row r), (Z.leb_spec r max_row); try lia;
          cbn; rewrite ?andb_false_r; reflexivity. }
    destruct (foldM_range
                (fun k g' =>
                   square n g' /\
                   forall r c, 0 <= r -> 0 <= c ->
                     cell_at g' r c =
                       if (c =? col) && (min_row <=? r) && (r <? k)
                       then py_max (cell_at g1 r c) v else cell_at g1 r c)
                (raise_cell v col) min_row (max_row + 1) g1 Hr) as (g2 & E2 & Hsq2 & H2).
    + split; [exact Hsq1|]. intros r c _ _.
      destruct (Z.leb_spec min_row r), (Z.ltb_spec r min_row); try lia;
        cbn; rewrite ?andb_false_r; reflexivity.
    + intros row g2 Hrow [Hsq2 H2].
      destruct (raise_cell_inside n v col g2 row Hsq2 ltac:(lia) ltac:(lia))
        as (g3 & -> & Hsq3 & H3).
      exists g3. split; [reflexivity|]. split; [exact Hsq3|].
      intros r c Hr' Hc'. rewrite (H3 r c Hr' Hc'), (H2 r c Hr' Hc').
      destruct (Z.eqb_spec r row), (Z.eqb_spec c col), (Z.leb_spec min_row r),
        (Z.ltb_spec r row), (Z.ltb_spec r (row + 1)); try lia; reflexivity.
    + exists g2. split; [exact E2|]. split; [exact Hsq2|].
      intros r c Hr' Hc'. rewrite (H2 r c Hr' Hc'), (H1 r c Hr' Hc').
      destruct (Z.eqb_spec c col), (Z.leb_spec min_col c), (Z.ltb_spec c col),
        (Z.ltb_spec c (col + 1)), (Z.leb_spec min_row r), (Z.ltb_spec r (max_row + 1)),
        (Z.leb_spec r max_row); try lia; reflexivity.
  - exists g'. split; [exact E|]. split; [exact Hsq'|].
    intros r c Hr' Hc'. rewrite (Hcells r c Hr' Hc').
    destruct (Z.leb_spec min_col c), (Z.ltb_spec c (max_col + 1)), (Z.leb_spec c max_col);
      try lia; reflexivity.
Qed.

Lemma int_of_float_error x e :
  int_of_float x = inl e -> e = NanToInt \/ e = InfToInt.
Proof. destruct x; cbn; intros [= <-]; auto. Qed.

Lemma cell_span_result minx miny cw ch resolution b :
  match cell_span minx miny cw ch resolution b with
  | inr (min_col, max_col, min_row, max_row) =>
      0 <= min_col /\ max_col < resolution /\ 0 <= min_row /\ max_row < resolution
  | inl e => e = NanToInt \/ e = InfToInt
  end.
Proof.
  destruct b as [[[p_minx p_miny] p_maxx] p_maxy]. unfold cell_span, ebind.
  repeat match goal with
         | |- context [int_of_float ?x] =>
             let E := fresh "E" in
             destruct (int_of_float x) eqn:E;
             [apply int_of_float_error in E; exact E|]
         end.
  lia.
Qed.

Lemma cell_at_zeros k r c :
  cell_at (List.repeat (List.repeat (S754_zero false) k) k) r c = S754_zero false.
Proof.
  unfold cell_at. generalize (Z.to_nat r) as i. generalize k at 2 as m.
  induction m as [|m IH]; intros i.
  - destruct i; cbn; now destruct (Z.to_nat c).
  - destruct i; cbn [List.repeat nth]; [apply List.nth_repeat|apply IH].
Qed.

Lemma square_zeros k : square k (List.repeat (List.repeat (S754_zero false) k) k).
Proof.
  split; [apply List.repeat_length|].
  apply List.Forall_forall. intros line Hin. apply List.repeat_spec in Hin.
  subst. apply List.repeat_length.
Qed.

Section PixelFacts.

Variable bounds : list Point -> Bounds.
Variable column : AggregatedRow -> float64.
Variables minx miny cw ch : float64.
Variable resolution : Z.

Local Abbreviation step :=
  (fun (g : grid) row_data =>
     match geometry (tract row_data) with
     | GeomNone => inr g
     | Polygon shell =>
         let* span := cell_span minx miny cw ch resolution (bounds shell) in
         raise_cells span (column row_data) g
     end).

Lemma rows_fold rows g :
  square (Z.to_nat resolution) g ->
  match foldM step rows g with
  | inr g' =>
      square (Z.to_nat resolution) g'
      /\ forall r c, 0 <= r -> 0 <= c ->
           cell_at g' r c =
             largest_painted column
               (fun a => raises bounds minx miny cw ch resolution a r c) rows (cell_at g r c)
  | inl e => e = NanToInt \/ e = InfToInt
  end.
Proof.
  revert g. induction rows as [|a rows IH]; intros g Hsq; cbn [foldM].
  - split; [exact Hsq|]. reflexivity.
  - unfold largest_painted. cbn [fold_left]. unfold raises at 2.
    destruct (geometry (tract a)) as [|shell]; cbn [ebind].
    + apply IH. exact Hsq.
    + pose proof (cell_span_result minx miny cw ch resolution (bounds shell)) as Hspan.
      destruct (cell_span minx miny cw ch resolution (bounds shell))
        as [e|[[[min_col max_col] min_row] max_row]] eqn:Espan; cbn [ebind]; [exact Hspan|].
      destruct (raise_cells_inside (Z.to_nat resolution) (min_col, max_col, min_row, max_row)
                  (column a) g Hsq ltac:(cbv beta iota; lia)) as (g1 & -> & Hsq1 & H1).
      cbn [ebind]. specialize (IH g1 Hsq1).
      destruct (foldM step rows g1) as [e|g2]; [exact IH|].
      destruct IH as [Hsq2 H2]. split; [exact Hsq2|].
      intros r c Hr Hc. rewrite (H2 r c Hr Hc), (H1 r c Hr Hc). reflexivity.
Qed.

End PixelFacts.

Lemma pixel_map_result bounds total_bounds column gdf resolution :
  if resolution <? 0
  then create_simplified_pixel_map bounds total_bounds column gdf resolution =
         inl NegativeDimensions
  else match create_simplified_pixel_map bounds total_bounds column gdf resolution with
       | inr g =>
           square (Z.to_nat resolution) g
           /\ forall r c, 0 <= r -> 0 <= c ->
                cell_at g r c =
                  largest_painted column
                    (fun a => paints bounds total_bounds gdf resolution a r c) gdf
                    (S754_zero false)
       | inl e => e = NanToInt \/ e = InfToInt
       end.
Proof.
  unfold create_simplified_pixel_map, paints.
  destruct (total_bounds (List.map (fun a => geometry (tract a)) gdf))
    as [[[minx miny] maxx] maxy].
  unfold np_zeros. destruct (resolution <? 0); cbn [ebind]; [reflexivity|].
  pose proof (rows_fold bounds column minx miny
                (div (sub maxx minx) (of_int resolution))
                (div (sub maxy miny) (of_int resolution)) resolution gdf _
                (square_zeros (Z.to_nat resolution))) as H.
  match type of H with
  | match ?m with _ => _ end =>
      match goal with |- match ?m' with _ => _ end => change m' with m end;
      destruct m as [e|g]
  end.
  - exact H.
  - destruct H as [Hsq H]. split; [exact Hsq|].
    intros r c Hr Hc. rewrite (H r c Hr Hc), cell_at_zeros. reflexivity.
Qed.

(** X16: the grid computation never indexes outside the array (it raises
    no [IndexError] and no index wraps around): with a negative resolution
    it stops at [np.zeros]; otherwise it either returns a square array of
    side [resolution] or stops at an [int()] of a NaN or an infinity. *)
Theorem pixel_map_stays_inside_the_grid bounds total_bounds column gdf resolution :
  (resolution < 0 ->
   create_simplified_pixel_map bounds total_bounds column gdf resolution =
     inl NegativeDimensions)
  /\ (0 <= resolution ->
      match create_simplified_pixel_map bounds total_bounds column gdf resolution with
      | inr g => square (Z.to_nat resolution) g
      | inl e => e = NanToInt \/ e = InfToInt
      end).
Proof.
  pose proof (pixel_map_result bounds total_bounds column gdf resolution) as H.
  destruct (Z.ltb_spec resolution 0) as [Hneg|Hpos].
  - split; [intros _; exact H|lia].
  - split; [lia|intros _].
    destruct (create_simplified_pixel_map bounds total_bounds column gdf resolution) as [e|g];
      [exact H|exact (proj1 H)].
Qed.

Lemma pixel_map_stays_inside_the_grid_witness :
  0 <= default_resolution
  /\ match create_simplified_pixel_map corner_bounds first_bounds complaint_rate
             scenario_aggregated default_resolution with
     | inr g => square 50 g
     | inl e => e = NanToInt \/ e = InfToInt
     end.
Proof.
  assert (H : 0 <= default_resolution) by (unfold default_resolution; lia).
  split; [exact H|].
  exact (proj2 (pixel_map_stays_inside_the_grid corner_bounds first_bounds complaint_rate
                  scenario_aggregated default_resolution) H).
Defined.

(** X17: in the grid that is returned, a cell holds what the loop over
    the rows leaves there: starting from 0.0, each row whose clamped
    bounding box covers the cell replaces the content by its value if that
    is greater. The box, not the polygon, decides. *)
Theorem pixel_map_cell_holds_the_largest_value bounds total_bounds column gdf resolution g :
  create_simplified_pixel_map bounds total_bounds column gdf resolution = inr g ->
  forall r c, 0 <= r -> 0 <= c ->
    cell_at g r c =
      largest_painted column (fun a => paints bounds total_bounds gdf resolution a r c) gdf
        (S754_zero false).
Proof.
  intros E. pose proof (pixel_map_result bounds total_bounds column gdf resolution) as H.
  rewrite E in H. destruct (resolution <? 0); [discriminate H|exact (proj2 H)].
Qed.

Lemma pixel_map_cell_holds_the_largest_value_witness :
  exists g,
    create_simplified_pixel_map corner_bounds first_bounds complaint_rate
      scenario_aggregated 4 = inr g
    /\ cell_at g 3 0 = of_int 1
    /\ forall r c, 0 <= r -> 0 <= c ->
         cell_at g r c =
           largest_painted complaint_rate
             (fun a => paints corner_bounds first_bounds scenario_aggregated 4 a r c)
             scenario_aggregated (S754_zero false).
Proof.
  destruct (create_simplified_pixel_map corner_bounds first_bounds complaint_rate
              scenario_aggregated 4) as [e|g] eqn:E; [vm_compute in E; discriminate E|].
  exists g. split; [reflexivity|]. split.
  - vm_compute in E. injection E as <-. reflexivity.
  - exact (pixel_map_cell_holds_the_largest_value corner_bounds first_bounds complaint_rate
             scenario_aggregated 4 g E).
Defined.

Lemma py_max_nonnegative a b :
  nonnegative a = true -> nonnegative (py_max a b) = true.
Proof.
  unfold py_max, nonnegative, leb, ltb, SFleb, SFltb. intros Ha.
  destruct (SFcompare a b) as [[| |]|] eqn:E; try exact Ha.
  destruct a as [sa|sa| |sa ma ea]; try discriminate Ha;
    destruct b as [sb|sb| |sb mb eb]; try discriminate E;
    try reflexivity.
  all: destruct sa; try discriminate Ha; destruct sb; try discriminate E; try reflexivity.
Qed.

Lemma nonnegative_not_nan x : nonnegative x = true -> is_nan x = false.
Proof. destruct x; [reflexivity..|discriminate|reflexivity]. Qed.

Lemma largest_painted_nonnegative column raised rows start :
  nonnegative start = true -> nonnegative (largest_painted column raised rows start) = true.
Proof.
  unfold largest_painted. revert start.
  induction rows as [|a rows IH]; intros start Hs; cbn [fold_left]; [exact Hs|].
  apply IH. destruct (raised a); [apply py_max_nonnegative|]; exact Hs.
Qed.

Lemma largest_painted_untouched column raised rows start :
  (forall a, In a rows -> raised a = false) ->
  largest_painted column raised rows start = start.
Proof.
  unfold largest_painted. revert start.
  induction rows as [|a rows IH]; intros start H; cbn [fold_left]; [reflexivity|].
  rewrite (H a) by (left; reflexivity). apply IH. intros a' Ha'. apply H. now right.
Qed.

(** X18: no cell of the returned grid is NaN or below zero, and a cell
    that no row covers is 0.0: a NaN or negative value is never drawn, and
    a tract with the value 0 looks like empty space. *)
Theorem pixel_map_draws_nothing_below_zero bounds total_bounds column gdf resolution g :
  create_simplified_pixel_map bounds total_bounds column gdf resolution = inr g ->
  forall r c, 0 <= r -> 0 <= c ->
    nonnegative (cell_at g r c) = true
    /\ is_nan (cell_at g r c) = false
    /\ ((forall a, In a gdf -> paints bounds total_bounds gdf resolution a r c = false) ->
        cell_at g r c = S754_zero false).
Proof.
  intros E r c Hr Hc.
  pose proof (pixel_map_result bounds total_bounds column gdf resolution) as H.
  rewrite E in H. destruct (resolution <? 0); [discriminate H|]. destruct H as [_ H].
  rewrite (H r c Hr Hc).
  assert (Hn : nonnegative
                 (largest_painted column
                    (fun a => paints bounds total_bounds gdf resolution a r c) gdf
                    (S754_zero false)) = true)
    by (apply largest_painted_nonnegative; reflexivity).
  split; [exact Hn|]. split; [apply nonnegative_not_nan; exact Hn|].
  apply largest_painted_untouched.
Qed.

Lemma pixel_map_draws_nothing_below_zero_witness :
  exists g,
    create_simplified_pixel_map corner_bounds first_bounds complaint_rate
      negative_aggregated 4 = inr g
    /\ paints corner_bounds first_bounds negative_aggregated 4
         (mkAggregated scenario_tract 0 (of_int (-3))) 0 0 = true
    /\ cell_at g 0 0 = S754_zero false
    /\ nonnegative (cell_at g 0 0) = true.
Proof.
  destruct (create_simplified_pixel_map corner_bounds first_bounds complaint_rate
              negative_aggregated 4) as [e|g] eqn:E; [vm_compute in E; discriminate E|].
  exists g. split; [reflexivity|]. split; [reflexivity|]. split.
  - vm_compute in E. injection E as <-. reflexivity.
  - exact (proj1 (pixel_map_draws_nothing_below_zero corner_bounds first_bounds
                    complaint_rate negative_aggregated 4 g E 0 0 ltac:(lia) ltac:(lia))).
Defined.

Ltac cmp_cases :=
  repeat match goal with
    | |- context [PosDef.Pos.compare_cont Eq ?a ?b] =>
        change (PosDef.Pos.compare_cont Eq a b) with (Pos.compare a b)
    | H : context [Z.compare ?a ?b] |- _ =>
        let E := fresh "E" in
        destruct (Z.compare_spec a b) as [E|E|E]; cbn in H
    | |- context [Z.compare ?a ?b] =>
        let E := fresh "E" in
        destruct (Z.compare_spec a b) as [E|E|E]; cbn
    | H : context [Pos.compare ?a ?b] |- _ =>
        let E := fresh "E" in
        destruct (Pos.compare_spec a b) as [E|E|E]; cbn in H
    | |- context [Pos.compare ?a ?b] =>
        let E := fresh "E" in
        destruct (Pos.compare_spec a b) as [E|E|E]; cbn
    end.

Lemma py_max_swap x a b :
  nonnegative x = true -> py_max (py_max x a) b = py_max (py_max x b) a.
Proof.
  unfold nonnegative, py_max, leb, ltb, SFleb, SFltb. intros Hx.
  destruct x as [[|]|[|]| |[|] mx ex]; try discriminate Hx; clear Hx;
  destruct a as [[|]|[|]| |[|] ma ea]; destruct b as [[|]|[|]| |[|] mb eb];
    cbn; try reflexivity.
  all: cmp_cases; try reflexivity; try lia; try (f_equal; lia); try congruence.
Qed.

Lemma largest_painted_Permutation column raised rows rows' :
  Permutation rows rows' ->
  forall start, nonnegative start = true ->
    largest_painted column raised rows start = largest_painted column raised rows' start.
Proof.
  unfold largest_painted.
  induction 1 as [|a rows rows' _ IH|a b rows|rows rows' rows'' _ IH1 _ IH2];
    intros start Hs; cbn [fold_left].
  - reflexivity.
  - apply IH. destruct (raised a); [apply py_max_nonnegative|]; exact Hs.
  - f_equal. destruct (raised a), (raised b); try reflexivity.
    symmetry. apply py_max_swap. exact Hs.
  - rewrite (IH1 start Hs). apply IH2. exact Hs.
Qed.

Lemma square_ext n (g g' : grid) :
  square n g -> square n g' ->
  (forall r c, 0 <= r -> 0 <= c -> cell_at g r c = cell_at g' r c) ->
  g = g'.
Proof.
  intros [Hl Hf] [Hl' Hf'] H. unfold float64 in *.
  apply (List.nth_ext g g' [] []); [congruence|].
  intros i Hi.
  assert (Hin : In (nth i g []) g) by (apply List.nth_In; exact Hi).
  assert (Hin' : In (nth i g' []) g') by (apply List.nth_In; lia).
  rewrite List.Forall_forall in Hf, Hf'.
  apply (List.nth_ext _ _ (S754_zero false) (S754_zero false)).
  - rewrite (Hf _ Hin), (Hf' _ Hin'). reflexivity.
  - intros j Hj. specialize (H (Z.of_nat i) (Z.of_nat j) ltac:(lia) ltac:(lia)).
    unfold cell_at in H. rewrite !Nat2Z.id in H. exact H.
Qed.

Section PixelOrder.

Variable bounds : list Point -> Bounds.
Variable column : AggregatedRow -> float64.
Variables minx miny cw ch : float64.
Variable resolution : Z.

Local Abbreviation step :=
  (fun (g : grid) row_data =>
     match geometry (tract row_data) with
     | GeomNone => inr g
     | Polygon shell =>
         let* span := cell_span minx miny cw ch resolution (bounds shell) in
         raise_cells span (column row_data) g
     end).

Lemma rows_fold_succeeds rows g :
  square (Z.to_nat resolution) g ->
  (exists g', foldM step rows g = inr g') <->
  forallb (spans bounds minx miny cw ch resolution) rows = true.
Proof.
  revert g. induction rows as [|a rows IH]; intros g Hsq; cbn [foldM forallb].
  - split; eauto.
  - unfold spans at 1.
    destruct (geometry (tract a)) as [|shell]; cbn [ebind andb]; [apply IH; exact Hsq|].
    pose proof (cell_span_result minx miny cw ch resolution (bounds shell)) as Hspan.
    destruct (cell_span minx miny cw ch resolution (bounds shell))
      as [e|[[[min_col max_col] min_row] max_row]]; cbn [ebind andb].
    + split; [intros [g' H]; discriminate H|discriminate].
    + destruct (raise_cells_inside (Z.to_nat resolution) (min_col, max_col, min_row, max_row)
                  (column a) g Hsq ltac:(cbv beta iota; lia)) as (g1 & -> & Hsq1 & _).
      cbn [ebind]. apply IH. exact Hsq1.
Qed.

End PixelOrder.

Lemma forallb_Permutation {A} (f : A -> bool) l l' :
  Permutation l l' -> forallb f l = forallb f l'.
Proof.
  induction 1 as [|a l l' _ IH|a b l|l l' l'' _ IH1 _ IH2]; cbn.
  - reflexivity.
  - now rewrite IH.
  - destruct (f a), (f b); reflexivity.
  - congruence.
Qed.

(** X19: the grid does not depend on the order of the rows: for a
    permuted table with the same total bounds the computation returns the
    same grid. *)
Theorem pixel_map_ignores_row_order bounds total_bounds column gdf gdf' resolution g :
  Permutation gdf gdf' ->
  total_bounds (List.map (fun a => geometry (tract a)) gdf') =
    total_bounds (List.map (fun a => geometry (tract a)) gdf) ->
  create_simplified_pixel_map bounds total_bounds column gdf resolution = inr g ->
  create_simplified_pixel_map bounds total_bounds column gdf' resolution = inr g.
Proof.
  intros HP HB E.
  pose proof (pixel_map_result bounds total_bounds column gdf resolution) as H.
  pose proof (pixel_map_result bounds total_bounds column gdf' resolution) as H'.
  rewrite E in H.
  destruct (Z.ltb_spec resolution 0) as [Hneg|Hpos]; [discriminate H|].
  destruct H as [Hsq H].
  assert (exists g', create_simplified_pixel_map bounds total_bounds column gdf' resolution
                     = inr g') as [g' E'].
  { revert E. unfold create_simplified_pixel_map. rewrite HB.
    destruct (total_bounds (List.map (fun a => geometry (tract a)) gdf))
      as [[[minx miny] maxx] maxy].
    unfold np_zeros. destruct (Z.ltb_spec resolution 0); [lia|]. cbn [ebind]. intros E.
    apply rows_fold_succeeds; [apply square_zeros|].
    rewrite <- (forallb_Permutation _ _ _ HP).
    apply (rows_fold_succeeds bounds column minx miny _ _ resolution gdf _
             (square_zeros (Z.to_nat resolution))).
    eauto. }
  rewrite E' in H' |- *. destruct H' as [Hsq' H']. f_equal.
  apply (square_ext (Z.to_nat resolution)); [exact Hsq'|exact Hsq|].
  intros r c Hr Hc. rewrite (H r c Hr Hc), (H' r c Hr Hc).
  rewrite (largest_painted_Permutation column _ gdf gdf' HP) by reflexivity.
  unfold largest_painted. f_equal.
  unfold paints. rewrite HB. reflexivity.
Qed.

Lemma pixel_map_ignores_row_order_witness :
  Permutation twin_aggregated (List.rev twin_aggregated)
  /\ exists g,
       create_simplified_pixel_map corner_bounds first_bounds complaint_rate
         twin_aggregated 4 = inr g
       /\ cell_at g 0 0 = of_int 3
       /\ create_simplified_pixel_map corner_bounds first_bounds complaint_rate
            (List.rev twin_aggregated) 4 = inr g.
Proof.
  assert (HP : Permutation twin_aggregated (List.rev twin_aggregated))
    by apply Permutation_rev.
  split; [exact HP|].
  destruct (create_simplified_pixel_map corner_bounds first_bounds complaint_rate
              twin_aggregated 4) as [e|g] eqn:E; [vm_compute in E; discriminate E|].
  exists g. split; [reflexivity|]. split.
  - vm_compute in E. injection E as <-. reflexivity.
  - exact (pixel_map_ignores_row_order corner_bounds first_bounds complaint_rate
             twin_aggregated (List.rev twin_aggregated) 4 g HP eq_refl E).
Defined.

(** ** The containment test on the rectangles of the sample generator *)

Section Rectangle.

Local Open Scope Q_scope.

Ltac qprune :=
  repeat match goal with
    | |- context [Qltb ?a ?b] =>
        destruct (Qltb_spec a b); try (exfalso; lra); cbn [andb orb negb]
    | |- context [Qle_bool ?a ?b] =>
        destruct (Qle_bool_spec a b); try (exfalso; lra); cbn [andb orb negb]
    | |- context [Qeq_bool ?a ?b] =>
        destruct (Qeq_bool_spec a b); try (exfalso; lra); cbn [andb orb negb]
    end.

Lemma position_in_range (a lo hi : Q) :
  lo < hi -> a < lo \/ a == lo \/ (lo < a /\ a < hi) \/ a == hi \/ hi < a.
Proof.
  intros H. destruct (Q_dec a lo) as [[?|?]|?]; auto.
  destruct (Q_dec a hi) as [[?|?]|?]; auto.
Qed.

(** A horizontal segment at height [yh] between [xa] and [xb]. *)
Lemma count_horizontal x y xa xb yh c :
  xa < xb \/ xb < xa ->
  count_segment (x, y) (xa, yh) (xb, yh) c =
    if Qeq_bool y yh
       && Qle_bool (if Qltb xb xa then xb else xa) x
       && Qle_bool x (if Qltb xb xa then xa else xb)
    then hit c else c.
Proof.
  intros H. unfold count_segment, hit. cbn [fst snd].
  destruct H as [H|H]; qprune; reflexivity.
Qed.

(** A vertical segment at [xv] that runs upwards from [ya] to [yb]. *)
Lemma count_upward x y xv ya yb c :
  ya < yb ->
  count_segment (x, y) (xv, ya) (xv, yb) c =
    if Qltb xv x then c
    else if Qeq_bool x xv
         then (if Qle_bool ya y && Qle_bool y yb then hit c else c)
         else (if Qle_bool ya y && Qltb y yb then incr c else c).
Proof.
  intros H. unfold count_segment, hit, incr, orient. cbn [fst snd].
  assert (Qltb yb ya = false) as -> by (destruct (Qltb_spec yb ya); [lra|reflexivity]).
  destruct (Q_dec x xv) as [[Hx|Hx]|Hx].
  - assert (Hs : 0 < (xv - xv) * (y - ya) - (yb - ya) * (x - xv)) by nra.
    remember ((xv - xv) * (y - ya) - (yb - ya) * (x - xv)) as s eqn:Es. clear Es.
    qprune; reflexivity.
  - qprune; reflexivity.
  - assert (Hs : (xv - xv) * (y - ya) - (yb - ya) * (x - xv) == 0) by (rewrite Hx; ring).
    remember ((xv - xv) * (y - ya) - (yb - ya) * (x - xv)) as s eqn:Es. clear Es.
    qprune; reflexivity.
Qed.

(** A vertical segment at [xv] that runs downwards from [ya] to [yb]. *)
Lemma count_downward x y xv ya yb c :
  yb < ya ->
  count_segment (x, y) (xv, ya) (xv, yb) c =
    if Qltb xv x then c
    else if Qeq_bool x xv
         then (if Qle_bool yb y && Qltb y ya then hit c else c)
         else (if Qle_bool yb y && Qltb y ya then incr c else c).
Proof.
  intros H. unfold count_segment, hit, incr, orient. cbn [fst snd].
  assert (Qltb yb ya = true) as -> by (destruct (Qltb_spec yb ya); [reflexivity|lra]).
  destruct (Q_dec x xv) as [[Hx|Hx]|Hx].
  - assert (Hs : (xv - xv) * (y - ya) - (yb - ya) * (x - xv) < 0) by nra.
    remember ((xv - xv) * (y - ya) - (yb - ya) * (x - xv)) as s eqn:Es. clear Es.
    qprune; reflexivity.
  - qprune; reflexivity.
  - assert (Hs : (xv - xv) * (y - ya) - (yb - ya) * (x - xv) == 0) by (rewrite Hx; ring).
    remember ((xv - xv) * (y - ya) - (yb - ya) * (x - xv)) as s eqn:Es. clear Es.
    qprune; reflexivity.
Qed.

Variables x0 y0 x1 y1 : Q.
Hypothesis wide : x0 < x1.
Hypothesis tall : y0 < y1.

Lemma rectangle_locate x y :
  locate_in_ring (x, y) [(x0, y0); (x1, y0); (x1, y1); (x0, y1); (x0, y0)] =
    if Qltb x0 x && Qltb x x1 && Qltb y0 y && Qltb y y1 then INTERIOR
    else if Qle_bool x0 x && Qle_bool x x1 && Qle_bool y0 y && Qle_bool y y1 then BOUNDARY
    else EXTERIOR.
Proof.
  unfold locate_in_ring, close_ring, QPoint_eqb. cbn [List.last fst snd].
  assert (Qeq_bool x0 x0 = true) as -> by (apply Qeq_bool_iff; reflexivity).
  assert (Qeq_bool y0 y0 = true) as -> by (apply Qeq_bool_iff; reflexivity).
  cbn [andb count_ring].
  rewrite (count_horizontal x y x0 x1 y0) by (left; exact wide).
  rewrite (count_upward x y x1 y0 y1) by exact tall.
  rewrite (count_horizontal x y x1 x0 y1) by (right; exact wide).
  rewrite (count_downward x y x0 y1 y0) by exact tall.
  unfold hit, incr.
  destruct (position_in_range x x0 x1 wide) as [Hx|[Hx|[Hx|[Hx|Hx]]]];
    destruct (position_in_range y y0 y1 tall) as [Hy|[Hy|[Hy|[Hy|Hy]]]].
  all: qprune; reflexivity.
Qed.

End Rectangle.

Lemma point_to_Q_coordinates p x y :
  point_to_Q p = Some (x, y) <-> to_Q (pt_x p) = Some x /\ to_Q (pt_y p) = Some y.
Proof.
  unfold point_to_Q. destruct (to_Q (pt_x p)) as [a|], (to_Q (pt_y p)) as [b|];
    split; try (intros [= <- <-]; auto); try (intros [[= <-] [= <-]]; auto);
    try discriminate; try (intros [H1 H2]; discriminate).
Qed.

(** X20: on a rectangle with sides parallel to the axes, listed as a closed
    ring of five points from its lower left corner as the sample generator
    lists the corners of a tract, the containment test of the join is the
    strict range test on the coordinates: a point is within the rectangle
    exactly when its longitude lies strictly between the left and the right
    side and its latitude strictly between the lower and the upper side.
    Points on the border are not within. *)
Theorem within_rectangle_is_the_range_test p0 p1 p2 p3 p (x0 y0 x1 y1 x y : Q) :
  pt_y p1 = pt_y p0 -> pt_x p2 = pt_x p1 -> pt_y p3 = pt_y p2 -> pt_x p3 = pt_x p0 ->
  point_to_Q p0 = Some (x0, y0) -> point_to_Q p2 = Some (x1, y1) ->
  point_to_Q p = Some (x, y) ->
  (x0 < x1)%Q -> (y0 < y1)%Q ->
  ring_within p (Polygon [p0; p1; p2; p3; p0]) =
    Qltb x0 x && Qltb x x1 && Qltb y0 y && Qltb y y1.
Proof.
  intros E1 E2 E3 E4 H0 H2 Hp Hx Hy.
  apply point_to_Q_coordinates in H0 as [H0x H0y].
  apply point_to_Q_coordinates in H2 as [H2x H2y].
  assert (H1 : point_to_Q p1 = Some (x1, y0))
    by (apply point_to_Q_coordinates; rewrite <- E2, E1; auto).
  assert (H3 : point_to_Q p3 = Some (x0, y1))
    by (apply point_to_Q_coordinates; rewrite E3, E4; auto).
  assert (H0' : point_to_Q p0 = Some (x0, y0)) by (apply point_to_Q_coordinates; auto).
  assert (H2' : point_to_Q p2 = Some (x1, y1)) by (apply point_to_Q_coordinates; auto).
  unfold ring_within. rewrite Hp. cbn [ring_to_Q]. rewrite H0', H1, H2', H3.
  cbv beta iota.
  pose proof (rectangle_locate x0 y0 x1 y1 Hx Hy x y) as R.
  unfold QPoint in *. rewrite R.
  destruct (Qltb x0 x && Qltb x x1 && Qltb y0 y && Qltb y y1); [reflexivity|].
  destruct (Qle_bool x0 x && Qle_bool x x1 && Qle_bool y0 y && Qle_bool y y1); reflexivity.
Qed.

Lemma within_rectangle_is_the_range_test_witness :
  ring_within (mkPoint (dec 5 10) (dec 5 10)) closed_unit_square = true
  /\ ring_within (mkPoint (of_int 1) (dec 5 10)) closed_unit_square = false.
Proof.
  pose (one := fval 4503599627370496 (-52)).
  pose (half := fval 4503599627370496 (-53)).
  split; unfold closed_unit_square.
  - rewrite (within_rectangle_is_the_range_test
               (mkPoint (of_int 0) (of_int 0)) (mkPoint (of_int 1) (of_int 0))
               (mkPoint (of_int 1) (of_int 1)) (mkPoint (of_int 0) (of_int 1))
               (mkPoint (dec 5 10) (dec 5 10))
               0%Q 0%Q one one half half eq_refl eq_refl eq_refl eq_refl
               ltac:(vm_compute; reflexivity) ltac:(vm_compute; reflexivity)
               ltac:(vm_compute; reflexivity)
               ltac:(vm_compute; reflexivity) ltac:(vm_compute; reflexivity)).
    vm_compute. reflexivity.
  - rewrite (within_rectangle_is_the_range_test
               (mkPoint (of_int 0) (of_int 0)) (mkPoint (of_int 1) (of_int 0))
               (mkPoint (of_int 1) (of_int 1)) (mkPoint (of_int 0) (of_int 1))
               (mkPoint (of_int 1) (dec 5 10))
               0%Q 0%Q one one one half eq_refl eq_refl eq_refl eq_refl
               ltac:(vm_compute; reflexivity) ltac:(vm_compute; reflexivity)
               ltac:(vm_compute; reflexivity)
               ltac:(vm_compute; reflexivity) ltac:(vm_compute; reflexivity)).
    vm_compute. reflexivity.
Defined.
